(** * Address book: a shallow embedding of [main.py]

    The development follows the layout of the program:

    - Python values the program relies on: strings, exceptions, the
      [re] patterns it matches with, [datetime] ordinals, [strptime] and
      [strftime] for the two formats it uses;
    - the field classes [Field], [Name], [Phone], [Birthday];
    - [Record] objects, which live in a store because the address book and
      the command handlers share them by reference;
    - [AddressBook], an insertion-ordered dictionary from names to
      [Record] references;
    - the command handlers wrapped by [input_error].

    A Python [str] is modelled by [string]; a character is one code point in
    the range U+0000..U+00FF.  On that range [\d] matches exactly the ten
    ASCII digits and [str.lower] is a character-wise map.  Python's [\d]
    and [int] also read the decimal digits of other scripts; texts that
    hold such characters lie outside the model, and the properties below
    that speak of all texts a user can type are stated in terms that do
    not depend on which characters count as digits. *)

From Stdlib Require Import ZArith Ascii String List Bool Lia.
From stdpp Require Import base option list.

Local Open Scope string_scope.
Local Open Scope Z_scope.

(** ** Exceptions and results *)

(** The exception classes that the program raises or catches.
    [NoSuchObject] marks a dereference of an unallocated store location; it
    has no Python counterpart, since a Python reference is never dangling. *)
Inductive exn : Type :=
| KeyError
| ValueError
| IndexError
| OverflowError
| NoSuchObject.

Inductive result (A : Type) : Type :=
| Ok (a : A)
| Raise (e : exn).
Arguments Ok {A} a.
Arguments Raise {A} e.

Definition is_ok {A} (r : result A) : bool :=
  match r with Ok _ => true | Raise _ => false end.

(** ** Characters and strings *)

Definition chars (s : string) : list ascii := list_ascii_of_string s.
Definition str (l : list ascii) : string := string_of_list_ascii l.

Definition code (c : ascii) : N := N_of_ascii c.

Definition in_range (lo hi c : ascii) : bool :=
  ((code lo <=? code c) && (code c <=? code hi))%N.

(** [\d] on code points below 256, where the decimal digits are 0-9.
    Python's class also holds the decimal digits of other scripts, all of
    them above U+00FF. *)
Definition is_digit (c : ascii) : bool := in_range "0" "9" c.

Definition newline : ascii := "010"%char.

(** [str.lower] on one code point below 256: A-Z, and the Latin-1 capitals
    U+00C0..U+00DE without the multiplication sign U+00D7. *)
Definition lower_char (c : ascii) : ascii :=
  let n := code c in
  if ((65 <=? n) && (n <=? 90)
      || (192 <=? n) && (n <=? 222) && negb (n =? 215))%N
  then ascii_of_N (n + 32) else c.

Definition lower (s : string) : string := str (map lower_char (chars s)).

(** [s[0:n]] *)
Definition slice_to (n : nat) (s : string) : string := str (take n (chars s)).

(** ** The [re] patterns of the program

    A backtracking matcher for the fragment of [re] syntax that occurs in
    [validate_phone] and in the pattern [_strptime] builds for the format
    ["%d.%m.%Y"].  Alternatives are tried left to right and the first
    complete match wins, as in [re.match]. *)

Inductive regex : Type :=
| Lit (c : ascii)               (* a literal character *)
| Cls (lo hi : ascii)           (* [lo-hi] *)
| Dig                           (* \d *)
| Bol                           (* ^ *)
| Eol                           (* $ *)
| Eps
| Cat (r1 r2 : regex)
| Alt (r1 r2 : regex)
| Grp (g : string) (r : regex). (* (?P<g>r) *)

(** [r{n}] *)
Fixpoint Rep (n : nat) (r : regex) : regex :=
  match n with
  | O => Eps
  | S n' => Cat r (Rep n' r)
  end.

Record mstate : Type := MState {
  pos : nat;                           (* characters consumed so far *)
  rest : list ascii;                   (* the unread suffix *)
  groups : list (string * list ascii)  (* named groups closed so far *)
}.

Definition eat (p : ascii -> bool) {A} (st : mstate) (k : mstate -> option A)
  : option A :=
  match rest st with
  | c :: tl => if p c then k (MState (S (pos st)) tl (groups st)) else None
  | [] => None
  end.

(** [$] without [re.MULTILINE]: the end of the string, or just before a
    newline that is the last character. *)
Definition at_eol (l : list ascii) : bool :=
  match l with
  | [] => true
  | [c] => Ascii.eqb c newline
  | _ => false
  end.

Fixpoint rmatch {A} (r : regex) (st : mstate) (k : mstate -> option A)
  : option A :=
  match r with
  | Lit c => eat (Ascii.eqb c) st k
  | Cls lo hi => eat (in_range lo hi) st k
  | Dig => eat is_digit st k
  | Bol => if Nat.eqb (pos st) 0 then k st else None
  | Eol => if at_eol (rest st) then k st else None
  | Eps => k st
  | Cat r1 r2 => rmatch r1 st (fun st' => rmatch r2 st' k)
  | Alt r1 r2 =>
      match rmatch r1 st k with
      | Some m => Some m
      | None => rmatch r2 st k
      end
  | Grp g r' =>
      rmatch r' st (fun st' =>
        k (MState (pos st') (rest st')
             ((g, take (pos st' - pos st) (rest st)) :: groups st')))
  end.

(** [re.match(r, s)]: the match object is the final matcher state; its
    [pos] is [m.end()]. *)
Definition re_match (r : regex) (s : string) : option mstate :=
  rmatch r (MState 0 (chars s) []) Some.

Fixpoint group (g : string) (gs : list (string * list ascii))
  : option (list ascii) :=
  match gs with
  | [] => None
  | (g', v) :: tl => if String.eqb g g' then Some v else group g tl
  end.

(** ** Fields *)

Record Field : Type := MkField { value : string }.

(** [Field.__str__] *)
Definition Field_str (f : Field) : string := value f.

(** [Name], [Phone] and [Birthday] are subclasses of [Field] that add no
    attribute; they differ in their constructors only. *)
Abbreviation Name := Field (only parsing).
Abbreviation Phone := Field (only parsing).
Abbreviation Birthday := Field (only parsing).

(** [r'^\d{10}$'] *)
Definition phone_re : regex := Cat Bol (Cat (Rep 10 Dig) Eol).

Definition validate_phone (phone_number : string) : bool :=
  bool_decide (is_Some (re_match phone_re phone_number)).

(** [Phone.__init__] *)
Definition Phone_init (v : string) : result Phone :=
  if negb (validate_phone v) then Raise ValueError else Ok (MkField v).

(** ** Calendar dates, after [datetime]

    [datetime] keeps the proleptic Gregorian calendar; day 1 is 1 January
    of year 1.  The functions below are the ones [datetime.py] defines
    under the same names. *)

Record date : Type := MkDate { year : Z; month : Z; day : Z }.

Definition MINYEAR : Z := 1.
Definition MAXYEAR : Z := 9999.
Definition _MAXORDINAL : Z := 3652059.

Definition _DAYS_IN_MONTH : list Z :=
  [-1; 31; 28; 31; 30; 31; 30; 31; 31; 30; 31; 30; 31].
Definition _DAYS_BEFORE_MONTH : list Z :=
  [-1; 0; 31; 59; 90; 120; 151; 181; 212; 243; 273; 304; 334].

(** [table[i]]; every index the program computes lies in 1..12. *)
Definition tbl (table : list Z) (i : Z) : Z := nth (Z.to_nat i) table (-1).

Definition Z_of_bool (b : bool) : Z := if b then 1 else 0.

Definition _is_leap (y : Z) : bool :=
  (y mod 4 =? 0) && (negb (y mod 100 =? 0) || (y mod 400 =? 0)).

Definition _days_before_year (year : Z) : Z :=
  let y := year - 1 in
  y * 365 + y / 4 - y / 100 + y / 400.

Definition _days_in_month (year month : Z) : Z :=
  if (month =? 2) && _is_leap year then 29 else tbl _DAYS_IN_MONTH month.

Definition _days_before_month (year month : Z) : Z :=
  tbl _DAYS_BEFORE_MONTH month + Z_of_bool ((2 <? month) && _is_leap year).

Definition _ymd2ord (year month day : Z) : Z :=
  _days_before_year year + _days_before_month year month + day.

Definition _DI400Y : Z := Eval cbv in _days_before_year 401.
Definition _DI100Y : Z := Eval cbv in _days_before_year 101.
Definition _DI4Y : Z := Eval cbv in _days_before_year 5.

(** The part of [_ord2ymd] after the first [divmod]: [n400] full 400-year
    cycles precede the day, [n] is the offset into the current cycle. *)
Definition _ord2ymd_cycle (n400 n : Z) : date :=
  let year := n400 * 400 + 1 in
  let n100 := n / _DI100Y in
  let n := n mod _DI100Y in
  let n4 := n / _DI4Y in
  let n := n mod _DI4Y in
  let n1 := n / 365 in
  let n := n mod 365 in
  let year := year + (n100 * 100 + n4 * 4 + n1) in
  if (n1 =? 4) || (n100 =? 4) then MkDate (year - 1) 12 31
  else
    let leapyear := (n1 =? 3) && (negb (n4 =? 24) || (n100 =? 3)) in
    let month := Z.shiftr (n + 50) 5 in
    let preceding :=
      tbl _DAYS_BEFORE_MONTH month + Z_of_bool ((2 <? month) && leapyear) in
    if n <? preceding then
      let month := month - 1 in
      let preceding :=
        preceding
        - (tbl _DAYS_IN_MONTH month + Z_of_bool ((month =? 2) && leapyear)) in
      MkDate year month (n - preceding + 1)
    else MkDate year month (n - preceding + 1).

Definition _ord2ymd (n : Z) : date :=
  let n := n - 1 in
  _ord2ymd_cycle (n / _DI400Y) (n mod _DI400Y).

(** [_check_date_fields], as a predicate and as the constructor
    [date(year, month, day)]. *)
Definition valid_date (dt : date) : bool :=
  (MINYEAR <=? year dt) && (year dt <=? MAXYEAR)
  && (1 <=? month dt) && (month dt <=? 12)
  && (1 <=? day dt) && (day dt <=? _days_in_month (year dt) (month dt)).

Definition date_init (y m d : Z) : result date :=
  if valid_date (MkDate y m d) then Ok (MkDate y m d) else Raise ValueError.

Definition toordinal (dt : date) : Z := _ymd2ord (year dt) (month dt) (day dt).
Definition fromordinal (n : Z) : date := _ord2ymd n.

(** [dt + timedelta(days=i)] *)
Definition add_days (dt : date) (i : Z) : result date :=
  let n := toordinal dt + i in
  if (0 <? n) && (n <=? _MAXORDINAL) then Ok (fromordinal n)
  else Raise OverflowError.

(** *** [strftime("%d.%m")] *)

Definition digit_char (k : Z) : ascii := ascii_of_N (48 + Z.to_N k).

(** [%d] and [%m]: two decimal digits, zero padded. *)
Definition two_digits (n : Z) : list ascii :=
  [digit_char (n / 10); digit_char (n mod 10)].

Definition strftime_dm (dt : date) : string :=
  str (two_digits (day dt) ++ ["."%char] ++ two_digits (month dt)).

(** *** [strptime(s, "%d.%m.%Y")] *)

(** [3[0-1]|[1-2]\d|0[1-9]|[1-9]| [1-9]] *)
Definition d_alts : regex :=
  Alt (Cat (Lit "3") (Cls "0" "1"))
 (Alt (Cat (Cls "1" "2") Dig)
 (Alt (Cat (Lit "0") (Cls "1" "9"))
 (Alt (Cls "1" "9")
      (Cat (Lit " ") (Cls "1" "9"))))).

(** [1[0-2]|0[1-9]|[1-9]] *)
Definition m_alts : regex :=
  Alt (Cat (Lit "1") (Cls "0" "2"))
 (Alt (Cat (Lit "0") (Cls "1" "9"))
      (Cls "1" "9")).

(** [\d\d\d\d] *)
Definition Y_digits : regex := Cat Dig (Cat Dig (Cat Dig Dig)).

(** [(?P<d>...)], [(?P<m>...)] and [(?P<Y>...)] *)
Definition d_re : regex := Grp "d" d_alts.
Definition m_re : regex := Grp "m" m_alts.
Definition Y_re : regex := Grp "Y" Y_digits.

(** The pattern [TimeRE.pattern] builds for ["%d.%m.%Y"]: each directive is
    replaced by its group and each dot is escaped.  It is compiled with
    [IGNORECASE], which changes nothing for digits, dots and spaces. *)
Definition format_re : regex :=
  Cat d_re (Cat (Lit ".") (Cat m_re (Cat (Lit ".") Y_re))).

Fixpoint digits_val (acc : Z) (l : list ascii) : option Z :=
  match l with
  | [] => Some acc
  | c :: tl =>
      if is_digit c then digits_val (acc * 10 + (Z.of_N (code c) - 48)) tl
      else None
  end.

Fixpoint lstrip (l : list ascii) : list ascii :=
  match l with
  | c :: tl => if Ascii.eqb c " " then lstrip tl else l
  | [] => []
  end.

(** [int(text)] on the texts a group of [format_re] can hold: blanks in
    front are skipped, the remainder must be a non-empty run of digits. *)
Definition py_int (l : list ascii) : result Z :=
  match lstrip l with
  | [] => Raise ValueError
  | l' => match digits_val 0 l' with
          | Some n => Ok n
          | None => Raise ValueError
          end
  end.

(** [int(found_dict[g])] *)
Definition int_group (g : string) (m : mstate) : result Z :=
  match group g (groups m) with
  | Some v => py_int v
  | None => Raise KeyError
  end.

Definition bind_result {A B} (r : result A) (f : A -> result B) : result B :=
  match r with
  | Ok a => f a
  | Raise e => Raise e
  end.

(** [datetime.strptime(data_string, "%d.%m.%Y")], reduced to the date it
    yields: the pattern must match at the start, nothing may remain after
    the match, and the three numbers must form a date. *)
Definition strptime (data_string : string) : result date :=
  match re_match format_re data_string with
  | None => Raise ValueError
  | Some found =>
      if negb (Nat.eqb (String.length data_string) (pos found))
      then Raise ValueError
      else
        bind_result (int_group "Y" found) (fun y =>
        bind_result (int_group "m" found) (fun m =>
        bind_result (int_group "d" found) (fun d =>
        date_init y m d)))
  end.

(** [Birthday.__init__]: a [ValueError] of [strptime] is raised again as a
    [ValueError] with the program's own message. *)
Definition Birthday_init (v : string) : result Birthday :=
  match strptime v with
  | Ok _ => Ok (MkField v)
  | Raise ValueError => Raise ValueError
  | Raise e => Raise e
  end.

(** ** Records *)

Record record : Type := MkRecord {
  name : Name;
  phones : list Phone;
  birthday : option Birthday
}.

(** The comparison both [edit_phone] and [find_phone] make:
    [p.value.lower() == phone.lower()]. *)
Definition same_lower (phone : string) (p : Phone) : bool :=
  String.eqb (lower (value p)) (lower phone).

(** ** The store and the address book

    [Record] objects are shared: the address book holds references to
    them and the handlers mutate them through a reference obtained from
    [find].  The store is a list of objects and a reference is an index
    into it; objects are never freed.  The [Phone] and [Birthday] objects
    of a record are created by its own methods, belong to that record
    only, and are written to by its methods only, so they are kept by
    value inside it.

    A [dict] keeps its keys in insertion order; assigning to a key that is
    present keeps the key's position. *)

Abbreviation loc := nat (only parsing).

Definition dict : Type := list (string * loc).

Fixpoint dict_get (k : string) (d : dict) : option loc :=
  match d with
  | [] => None
  | (k', v) :: tl => if String.eqb k k' then Some v else dict_get k tl
  end.

(** [k in d] *)
Definition dict_mem (k : string) (d : dict) : bool :=
  bool_decide (is_Some (dict_get k d)).

(** [d[k] = v] *)
Fixpoint dict_set (k : string) (v : loc) (d : dict) : dict :=
  match d with
  | [] => [(k, v)]
  | (k', v') :: tl =>
      if String.eqb k k' then (k, v) :: tl else (k', v') :: dict_set k v tl
  end.

(** [del d[k]], for a key that is present *)
Fixpoint dict_del (k : string) (d : dict) : dict :=
  match d with
  | [] => []
  | (k', v') :: tl =>
      if String.eqb k k' then tl else (k', v') :: dict_del k tl
  end.

Definition dict_keys (d : dict) : list string := map fst d.
Definition dict_values (d : dict) : list loc := map snd d.

Record state : Type := MkState {
  heap : list record;   (* the [Record] objects allocated so far *)
  data : dict           (* [AddressBook.data] *)
}.

(** Computations that read and write the state and may raise.  The state
    that an exception leaves behind is kept: Python undoes nothing. *)
Definition M (A : Type) : Type := state -> result A * state.

Definition ret {A} (a : A) : M A := fun s => (Ok a, s).
Definition raise {A} (e : exn) : M A := fun s => (Raise e, s).
Definition bind {A B} (m : M A) (f : A -> M B) : M B :=
  fun s =>
    match m s with
    | (Ok a, s') => f a s'
    | (Raise e, s') => (Raise e, s')
    end.
Definition lift {A} (r : result A) : M A := fun s => (r, s).

Declare Scope m_scope.
Delimit Scope m_scope with m.
Notation "'do' x <- m ; k" := (bind m (fun x => k))
  (at level 10, x name, m at level 100, k at level 200) : m_scope.
Notation "m ;; k" := (bind m (fun _ => k))
  (at level 100, k at level 200, right associativity) : m_scope.
Local Open Scope m_scope.

(** Reading and writing the object behind a reference. *)
Definition deref (l : loc) : M record :=
  fun s =>
    match heap s !! l with
    | Some r => (Ok r, s)
    | None => (Raise NoSuchObject, s)
    end.

Definition assign (l : loc) (r : record) : M unit :=
  fun s => (Ok tt, MkState (<[l := r]> (heap s)) (data s)).

Definition get_data : M dict := fun s => (Ok (data s), s).
Definition set_data (d : dict) : M unit :=
  fun s => (Ok tt, MkState (heap s) d).

(** *** [Record] methods; [self] is a reference *)

(** [Record.__init__]: a new object, with no phones and no birthday. *)
Definition Record_init (nm : string) : M loc :=
  fun s =>
    (Ok (length (heap s)),
     MkState (heap s ++ [MkRecord (MkField nm) [] None]) (data s)).

(** The [Phone] is built, and may raise, before anything is appended. *)
Definition add_phone (self : loc) (phone : string) : M unit :=
  do p <- lift (Phone_init phone);
  do r <- deref self;
  assign self (MkRecord (name r) (phones r ++ [p]) (birthday r)).

Definition remove_phone (self : loc) (phone : string) : M unit :=
  do r <- deref self;
  assign self
    (MkRecord (name r)
       (List.filter (fun p => negb (String.eqb (value p) phone)) (phones r))
       (birthday r)).

(** Every phone of the list is visited; the ones that compare equal get the
    new value written into them as it is. *)
Definition edit_phone (self : loc) (old_phone new_phone : string) : M unit :=
  do r <- deref self;
  assign self
    (MkRecord (name r)
       (map (fun p => if same_lower old_phone p then MkField new_phone else p)
            (phones r))
       (birthday r)).

Definition find_phone (self : loc) (phone : string) : M (option Phone) :=
  do r <- deref self;
  ret (List.find (same_lower phone) (phones r)).

Definition add_birthday (self : loc) (bd : string) : M unit :=
  do b <- lift (Birthday_init bd);
  do r <- deref self;
  assign self (MkRecord (name r) (phones r) (Some b)).

(** *** [AddressBook] methods *)

Definition add_record (rec : loc) : M unit :=
  do r <- deref rec;
  do d <- get_data;
  set_data (dict_set (value (name r)) rec d).

Definition find (nm : string) : M (option loc) :=
  do d <- get_data;
  ret (dict_get nm d).

Definition delete (nm : string) : M unit :=
  do d <- get_data;
  if dict_mem nm d then set_data (dict_del nm d) else ret tt.

(** [for x in xs: ...] over a computation for each element. *)
Fixpoint for_each {A B} (f : A -> M B) (xs : list A) : M (list B) :=
  match xs with
  | [] => ret []
  | x :: tl => do y <- f x; do ys <- for_each f tl; ret (y :: ys)
  end.

(** [[(today + timedelta(days=i)).strftime("%d.%m") for i in range(1, 8)]] *)
Definition upcoming_dates (today : date) : result (list string) :=
  fold_right
    (fun i acc =>
       bind_result (add_days today i) (fun dt =>
       bind_result acc (fun tl => Ok (strftime_dm dt :: tl))))
    (Ok []) [1; 2; 3; 4; 5; 6; 7].

(** [x in xs] for a list of strings *)
Definition str_in (x : string) (xs : list string) : bool :=
  existsb (String.eqb x) xs.

(** [record.birthday and record.birthday.value[0:5] in upcoming_dates];
    a [Birthday] object is always true, so the first operand only tests for
    [None]. *)
Definition has_upcoming (dates : list string) (r : record) : bool :=
  match birthday r with
  | None => false
  | Some b => str_in (slice_to 5 (value b)) dates
  end.

(** [get_upcoming_birthdays]; [today] is the reading of [datetime.now()],
    of which only the date takes part.  The result lists references, in
    the order of [self.data.values()]. *)
Definition get_upcoming_birthdays (today : date) : M (list loc) :=
  do dates <- lift (upcoming_dates today);
  do d <- get_data;
  do rs <- for_each (fun l => do r <- deref l; ret (l, r)) (dict_values d);
  ret (map fst (List.filter (fun lr => has_upcoming dates (snd lr)) rs)).

(** ** Command handlers *)

(** The decorator: three exception classes are turned into messages, any
    other exception passes through. *)
Definition input_error {A} (func : A -> M string) : A -> M string :=
  fun args s =>
    match func args s with
    | (Raise KeyError, s') => (Ok "Enter valid user name.", s')
    | (Raise ValueError, s') => (Ok "Give me name and phone please.", s')
    | (Raise IndexError, s') =>
        (Ok "Incomplete command. Please provide necessary arguments.", s')
    | other => other
    end.

(** [address_book[name]] *)
Definition getitem (nm : string) : M loc :=
  do d <- get_data;
  match dict_get nm d with
  | Some l => ret l
  | None => raise KeyError
  end.

(** [name in address_book] *)
Definition contains (nm : string) : M bool :=
  do d <- get_data;
  ret (dict_mem nm d).

(** Truth value of a string: it is not empty. *)
Definition truthy (s : string) : bool := negb (String.eqb s "").

Module Handlers.

(** [name, phone, *_ = args] needs two items at least. *)
Definition add_contact_func (args : list string) : M string :=
  match args with
  | nm :: phone :: _ =>
      do found <- find nm;
      do rm <- match found with
               | None =>
                   do l <- Record_init nm;
                   add_record l ;;
                   ret (l, "Contact added.")
               | Some l => ret (l, "Contact updated.")
               end;
      (if truthy phone then add_phone (fst rm) phone else ret tt) ;;
      ret (snd rm)
  | _ => raise ValueError
  end.

Definition add_contact : list string -> M string :=
  input_error add_contact_func.

Definition change_contact_func (args : list string) : M string :=
  match args with
  | nm :: phone :: _ =>
      do found <- find nm;
      match found with
      | Some l =>
          (if truthy phone then add_phone l phone else ret tt) ;;
          ret ("Contact updated: " ++ nm ++ " - " ++ phone)
      | None => ret ("Contact not found: " ++ nm)
      end
  | _ => raise ValueError
  end.

Definition change_contact : list string -> M string :=
  input_error change_contact_func.

(** [name, birthday = args] needs exactly two items. *)
Definition add_birthday_func (args : list string) : M string :=
  match args with
  | [nm; bd] =>
      do present <- contains nm;
      if present then
        do l <- getitem nm;
        add_birthday l bd ;;
        ret ("Birthday added for " ++ nm ++ ".")
      else ret ("Contact " ++ nm ++ " not found.")
  | _ => raise ValueError
  end.

Definition add_birthday : list string -> M string :=
  input_error add_birthday_func.

End Handlers.

(** The state of a fresh process: [address_book = AddressBook()]. *)
Definition empty_state : state := MkState [] [].

(** ** Invariants and specifications *)

(** Every entry of the mapping refers to an allocated [Record] whose
    [name.value] is the key of the entry. *)
Definition keyed (s : state) : Prop :=
  forall k l, In (k, l) (data s) ->
    exists r, heap s !! l = Some r /\ value (name r) = k.

(** A computation that keeps the invariant [keyed]. *)
Definition preserves {A} (m : M A) : Prop :=
  forall s, keyed s -> keyed (snd (m s)).

(** A [dict] holds a key once. *)
Definition dict_ok (d : dict) : Prop := NoDup (dict_keys d).

(** The operations of [Record] and [AddressBook], as labels of the
    transitions they make on the state. *)
Inductive op : Type :=
| RecordInit (nm : string)
| AddPhone (self : loc) (phone : string)
| RemovePhone (self : loc) (phone : string)
| EditPhone (self : loc) (old_phone new_phone : string)
| FindPhone (self : loc) (phone : string)
| AddBirthday (self : loc) (bd : string)
| AddRecord (rec : loc)
| Find (nm : string)
| Delete (nm : string)
| GetUpcomingBirthdays (today : date).

Definition step (o : op) (s : state) : state :=
  match o with
  | RecordInit nm => snd (Record_init nm s)
  | AddPhone self phone => snd (add_phone self phone s)
  | RemovePhone self phone => snd (remove_phone self phone s)
  | EditPhone self o n => snd (edit_phone self o n s)
  | FindPhone self phone => snd (find_phone self phone s)
  | AddBirthday self bd => snd (add_birthday self bd s)
  | AddRecord rec => snd (add_record rec s)
  | Find nm => snd (find nm s)
  | Delete nm => snd (delete nm s)
  | GetUpcomingBirthdays today => snd (get_upcoming_birthdays today s)
  end.

(** The states a program can reach from a fresh address book. *)
Inductive reachable : state -> Prop :=
| reach_empty : reachable empty_state
| reach_step o s : reachable s -> reachable (step o s).

(** The day after [dt] in the calendar: the next day of the month, or the
    first day of the next month, or the first day of the next year. *)
Definition next_day (dt : date) : date :=
  if day dt <? _days_in_month (year dt) (month dt)
  then MkDate (year dt) (month dt) (day dt + 1)
  else if month dt <? 12
       then MkDate (year dt) (month dt + 1) 1
       else MkDate (year dt + 1) 1 1.

(** The ["DD.MM"] text the program computes for the offset [i]. *)
Definition offset_dm (today : date) (i : Z) : string :=
  strftime_dm (fromordinal (toordinal today + i)).

(** The day [i] days after [today], found by stepping through the
    calendar. *)
Definition day_after (today : date) (i : nat) : date :=
  Nat.iter i next_day today.

(** The month exists, and the day exists in that month of that year. *)
Definition valid_md (dt : date) : Prop :=
  1 <= month dt <= 12
  /\ 1 <= day dt <= _days_in_month (year dt) (month dt).

(** The wording of the specification for the week ahead: the birthday is
    set, and the first five characters of its text are the ["DD.MM"] text
    of one of the seven calendar days after [today]. *)
Definition in_window (today : date) (r : record) : Prop :=
  exists b i, birthday r = Some b /\ (1 <= i <= 7)%nat
              /\ slice_to 5 (value b) = strftime_dm (day_after today i).

(** A string made of exactly ten ASCII digits. *)
Definition ten_digits (s : string) : Prop :=
  length (chars s) = 10%nat /\ Forall (fun c => is_digit c = true) (chars s).

(** Ten digits followed by a line feed: eleven characters. *)
Definition phone_with_newline : string := "1234567890" ++ String newline "".

(** *** Checking a property on a range of integers *)

(** [f] holds at [lo], [lo + 1], ..., [lo + n - 1]. *)
Fixpoint all_from (n : nat) (lo : Z) (f : Z -> bool) : bool :=
  match n with
  | O => true
  | S n' => f lo && all_from n' (lo + 1) f
  end.

(** Offset [r] into a 400-year cycle that starts with year 1: the date
    found has a month and a day in range and is numbered [r + 1]. *)
Definition cycle_ok (r : Z) : bool :=
  let dt := _ord2ymd_cycle 0 r in
  (1 <=? month dt) && (month dt <=? 12)
  && (1 <=? day dt) && (day dt <=? 31)
  && (_ymd2ord (year dt) (month dt) (day dt) =? r + 1).

(** A date of the years 1 to 400, if it exists, has a number in the cycle
    and is found again from that number. *)
Definition roundtrip_at (y m d : Z) : bool :=
  negb ((1 <=? d) && (d <=? _days_in_month y m))
  || (let r := _ymd2ord y m d - 1 in
      (0 <=? r) && (r <? _DI400Y)
      && (let dt := _ord2ymd_cycle 0 r in
          (year dt =? y) && (month dt =? m) && (day dt =? d))).

(** The number a two-character text stands for. *)
Definition two_digits_val (l : list ascii) : Z :=
  match l with
  | [a; b] => (Z.of_N (code a) - 48) * 10 + (Z.of_N (code b) - 48)
  | _ => -1
  end.

(** *** What a pattern matches

    [sem r st st']: the pattern [r], started in the matcher state [st],
    can end in [st'].  The relation does not order the alternatives; the
    matcher returns the first such end for which its continuation
    succeeds. *)

Definition sem_eat (p : ascii -> bool) (st st' : mstate) : Prop :=
  exists c tl,
    rest st = c :: tl /\ p c = true
    /\ st' = MState (S (pos st)) tl (groups st).

Fixpoint sem (r : regex) (st st' : mstate) : Prop :=
  match r with
  | Lit c => sem_eat (Ascii.eqb c) st st'
  | Cls lo hi => sem_eat (in_range lo hi) st st'
  | Dig => sem_eat is_digit st st'
  | Bol => pos st = 0%nat /\ st' = st
  | Eol => at_eol (rest st) = true /\ st' = st
  | Eps => st' = st
  | Cat r1 r2 => exists mid, sem r1 st mid /\ sem r2 mid st'
  | Alt r1 r2 => sem r1 st st' \/ sem r2 st st'
  | Grp g r' =>
      exists st1,
        sem r' st st1
        /\ st' = MState (pos st1) (rest st1)
                   ((g, take (pos st1 - pos st) (rest st)) :: groups st1)
  end.

(** The words of a pattern without groups and anchors. *)
Fixpoint lang (r : regex) (w : list ascii) : Prop :=
  match r with
  | Lit c => w = [c]
  | Cls lo hi => exists c, w = [c] /\ in_range lo hi c = true
  | Dig => exists c, w = [c] /\ is_digit c = true
  | Eps => w = []
  | Cat r1 r2 => exists w1 w2, w = (w1 ++ w2)%list /\ lang r1 w1 /\ lang r2 w2
  | Alt r1 r2 => lang r1 w \/ lang r2 w
  | Bol | Eol | Grp _ _ => False
  end.

Fixpoint plain (r : regex) : bool :=
  match r with
  | Lit _ | Cls _ _ | Dig | Eps => true
  | Cat r1 r2 | Alt r1 r2 => plain r1 && plain r2
  | Bol | Eol | Grp _ _ => false
  end.

(** From [st] to [st'] the word [w] was read and the groups [gs] were
    closed. *)
Definition reads (w : list ascii) (gs : list (string * list ascii))
    (st st' : mstate) : Prop :=
  rest st = (w ++ rest st')%list
  /\ pos st' = (pos st + length w)%nat
  /\ groups st' = (gs ++ groups st)%list.

(** The number a run of decimal digits stands for. *)
Definition num (l : list ascii) : Z :=
  fold_left (fun acc c => acc * 10 + (Z.of_N (code c) - 48)) l 0.

(** The texts the three groups of [format_re] can hold. *)
Definition d_form (w : list ascii) : bool :=
  match w with
  | [a; b] =>
      Ascii.eqb "3" a && in_range "0" "1" b
      || in_range "1" "2" a && is_digit b
      || Ascii.eqb "0" a && in_range "1" "9" b
      || Ascii.eqb " " a && in_range "1" "9" b
  | [a] => in_range "1" "9" a
  | _ => false
  end.

Definition m_form (w : list ascii) : bool :=
  match w with
  | [a; b] =>
      Ascii.eqb "1" a && in_range "0" "2" b
      || Ascii.eqb "0" a && in_range "1" "9" b
  | [a] => in_range "1" "9" a
  | _ => false
  end.

Definition y_form (w : list ascii) : bool :=
  match w with
  | [a; b; c; d] => is_digit a && is_digit b && is_digit c && is_digit d
  | _ => false
  end.

Definition dot : ascii := "."%char.

(** A text in the shape [strptime] accepts for ["%d.%m.%Y"]: three
    fields of the forms above with a dot after the first and the second. *)
Definition dmy_text (s : string) (wd wm wy : list ascii) : Prop :=
  chars s = (wd ++ dot :: wm ++ dot :: wy)%list
  /\ d_form wd = true /\ m_form wm = true /\ y_form wy = true.

(** [%Y]: four decimal digits, zero padded. *)
Definition four_digits (n : Z) : list ascii :=
  [digit_char (n / 1000); digit_char (n / 100 mod 10);
   digit_char (n / 10 mod 10); digit_char (n mod 10)].

(** [strftime("%d.%m.%Y")], the fixed-width text ["DD.MM.YYYY"] of a
    date. *)
Definition strftime_dmy (dt : date) : string :=
  str (two_digits (day dt) ++ [dot] ++ two_digits (month dt) ++ [dot]
       ++ four_digits (year dt)).

(** The text [f n] has the form [form] and [int] reads [n] back from it. *)
Definition reads_back (f : Z -> list ascii) (form : list ascii -> bool)
    (n : Z) : bool :=
  form (f n) && match py_int (f n) with Ok k => k =? n | Raise _ => false end.

(** ** Printing records, the remaining handlers and the command loop *)

(** [sep.join(xs)] *)
Fixpoint join (sep : string) (xs : list string) : string :=
  match xs with
  | [] => ""
  | x :: tl =>
      match tl with
      | [] => x
      | _ :: _ => x ++ sep ++ join sep tl
      end
  end.

Definition nl : string := String newline "".

(** [Record.__str__] *)
Definition Record_str (r : record) : string :=
  let phone_str := join "; " (map Field_str (phones r)) in
  let birthday_str :=
    match birthday r with
    | Some b => ", birthday: " ++ Field_str b
    | None => ""
    end in
  "Contact name: " ++ Field_str (name r) ++ ", phones: " ++ phone_str
  ++ birthday_str.

(** [str(record)], for a record behind a reference *)
Definition str_of (l : loc) : M string :=
  do r <- deref l;
  ret (Record_str r).

(** [name = args[0]] needs one item at least. *)
Definition show_phone_func (args : list string) : M string :=
  match args with
  | [] => raise IndexError
  | nm :: _ =>
      do present <- contains nm;
      if present then
        do l <- getitem nm;
        do txt <- str_of l;
        ret (nm ++ "'s phone number: " ++ txt)
      else ret ("Contact not found: " ++ nm)
  end.

Definition show_phone : list string -> M string :=
  input_error show_phone_func.

(** [if address_book:] tests that the mapping is not empty; the lines
    follow [address_book.items()]. *)
Definition show_all_func (args : list string) : M string :=
  do d <- get_data;
  if negb (Nat.eqb (length d) 0) then
    do lines <- for_each
                  (fun kv => do txt <- str_of (snd kv);
                             ret (fst kv ++ " - " ++ txt)) d;
    ret (join nl lines)
  else ret "No contacts found".

Definition show_all : list string -> M string :=
  input_error show_all_func.

(** The record is looked up for the test and once more for the text. *)
Definition show_birthday_func (args : list string) : M string :=
  match args with
  | [] => raise IndexError
  | nm :: _ =>
      do present <- contains nm;
      if present then
        do l <- getitem nm;
        do r <- deref l;
        match birthday r with
        | Some _ =>
            do l' <- getitem nm;
            do r' <- deref l';
            ret (nm ++ "'s birthday: "
                 ++ match birthday r' with
                    | Some b => Field_str b
                    | None => "None"
                    end)
        | None => ret ("No birthday found for " ++ nm ++ ".")
        end
      else ret ("Contact " ++ nm ++ " not found.")
  end.

Definition show_birthday : list string -> M string :=
  input_error show_birthday_func.

(** [now] is the reading of the clock inside [get_upcoming_birthdays]. *)
Definition birthdays_func (now : date) (args : list string) : M string :=
  do upcoming <- get_upcoming_birthdays now;
  match upcoming with
  | [] => ret "No upcoming birthdays in the next week."
  | _ :: _ =>
      do txts <- for_each str_of upcoming;
      ret ("Upcoming birthdays:" ++ nl ++ join nl txts)
  end.

Definition birthdays (now : date) : list string -> M string :=
  input_error (birthdays_func now).

(** *** [parse_input] *)

(** [str.isspace] on one code point below 256. *)
Definition is_space (c : ascii) : bool :=
  let n := code c in
  ((9 <=? n) && (n <=? 13) || (28 <=? n) && (n <=? 32)
   || (n =? 133) || (n =? 160))%N.

(** [str.split()] on the characters: [tok] holds the characters of the
    token being read. *)
Fixpoint split_ws (tok : list ascii) (l : list ascii) : list (list ascii) :=
  match l with
  | [] => match tok with [] => [] | _ :: _ => [tok] end
  | c :: tl =>
      if is_space c then
        match tok with
        | [] => split_ws [] tl
        | _ :: _ => tok :: split_ws [] tl
        end
      else split_ws (tok ++ [c]) tl
  end.

Definition split (s : string) : list string :=
  map str (split_ws [] (chars s)).

(** [parts[0]] raises when the line holds no token. *)
Definition parse_input (user_input : string) : result (string * list string) :=
  match split user_input with
  | [] => Raise IndexError
  | command :: args => Ok (command, args)
  end.

(** *** The loop of [main] *)

(** What one turn of the loop does after reading a line: it prints a text
    and goes on, or prints a text and leaves the loop. *)
Inductive outcome : Type :=
| Printed (out : string)
| Bye (out : string).

Definition printed (m : M string) : M outcome :=
  do out <- m;
  ret (Printed out).

Definition welcome : string :=
  "Welcome to the assistant bot! How can I help you?".

(** The body of [while True]; [user_input] is what [input] returned and
    [now] what the clock shows.  [parse_input] is called outside every
    handler, so [input_error] does not guard it. *)
Definition main_step (now : date) (user_input : string) : M outcome :=
  do ca <- lift (parse_input user_input);
  let command := fst ca in
  let args := snd ca in
  if String.eqb command "hello" then ret (Printed welcome)
  else if String.eqb command "add" then printed (Handlers.add_contact args)
  else if String.eqb command "change"
       then printed (Handlers.change_contact args)
  else if String.eqb command "phone" then printed (show_phone args)
  else if String.eqb command "all" then printed (show_all args)
  else if String.eqb command "close" || String.eqb command "exit"
       then ret (Bye "Good bye!")
  else if String.eqb command "add_birthday"
       then printed (Handlers.add_birthday args)
  else if String.eqb command "show_birthday" then printed (show_birthday args)
  else if String.eqb command "birthdays" then printed (birthdays now args)
  else ret (Printed ("Unknown command: " ++ command)).

(** The states the loop passes through, from the empty book on. *)
Inductive session : state -> Prop :=
| session_start : session empty_state
| session_turn now user_input s out s' :
    session s ->
    main_step now user_input s = (Ok (Printed out), s') ->
    session s'.

(** The state after a new record for [nm] with the phones [ps] has been
    put into the book. *)
Definition with_new_contact (s : state) (nm : string) (ps : list Phone)
  : state :=
  MkState (heap s ++ [MkRecord (MkField nm) ps None])
          (dict_set nm (length (heap s)) (data s)).

(** A computation that leaves the state as it found it, whether it returns
    or raises. *)
Definition reads_only {A} (m : M A) : Prop := forall s, snd (m s) = s.

(** A token: a text that is not empty and holds no white space. *)
Definition token (t : string) : Prop :=
  t <> "" /\ Forall (fun c => is_space c = false) (chars t).

(** A phone as the command loop stores it: a text of ten characters that
    [validate_phone] accepts. *)
Definition stored_phone (p : Phone) : Prop :=
  validate_phone (value p) = true /\ String.length (value p) = 10%nat.

(** What the command loop keeps true of the store, beside [keyed]: every
    phone of every record is a text of ten characters that
    [validate_phone] accepts, every birthday is a text that [strptime]
    reads as a date, and every record is the entry of its own name in the
    book. *)
Definition stored_ok (s : state) : Prop :=
  forall l r, heap s !! l = Some r ->
    Forall stored_phone (phones r)
    /\ (forall b, birthday r = Some b -> exists dt, strptime (value b) = Ok dt)
    /\ dict_get (value (name r)) (data s) = Some l.

(** *** Equality without regard to case, in the words of the specification

    Two texts are equal case-insensitively when they have the same length
    and hold, place by place, the same character or the capital and the
    small form of one letter.  Below U+0100 the capitals are A-Z and
    U+00C0..U+00DE without the multiplication sign, and the small form of
    a capital lies 32 places above it. *)
Definition is_capital (c : ascii) : bool :=
  let n := code c in
  ((65 <=? n) && (n <=? 90)
   || (192 <=? n) && (n <=? 222) && negb (n =? 215))%N.

Definition case_pair (capital small : ascii) : bool :=
  is_capital capital && (code small =? code capital + 32)%N.

Definition same_letter (a b : ascii) : bool :=
  Ascii.eqb a b || case_pair a b || case_pair b a.

Fixpoint same_letters (l1 l2 : list ascii) : bool :=
  match l1, l2 with
  | [], [] => true
  | a :: tl1, b :: tl2 => same_letter a b && same_letters tl1 tl2
  | _, _ => false
  end.

Definition equal_ignoring_case (s t : string) : bool :=
  same_letters (chars s) (chars t).

(** Every character of the model. *)
Definition all_ascii : list ascii := map ascii_of_nat (seq 0 256).

(** * Properties *)

(** ** Strings *)

Lemma str_chars s : str (chars s) = s.
Proof. apply string_of_list_ascii_of_string. Qed.

Lemma chars_str l : chars (str l) = l.
Proof. apply list_ascii_of_string_of_list_ascii. Qed.

Lemma chars_inj s1 s2 : chars s1 = chars s2 -> s1 = s2.
Proof. intros H. rewrite <- (str_chars s1), <- (str_chars s2). now f_equal. Qed.

Lemma chars_app s1 s2 : chars (s1 ++ s2) = (chars s1 ++ chars s2)%list.
Proof.
  unfold chars. induction s1 as [| c s1 IH]; simpl; [reflexivity |].
  now rewrite IH.
Qed.

Lemma same_lower_iff phone p :
  same_lower phone p = true <-> lower (value p) = lower phone.
Proof. unfold same_lower. apply String.eqb_eq. Qed.

Lemma same_lower_new new_phone : same_lower new_phone (MkField new_phone) = true.
Proof. apply same_lower_iff. reflexivity. Qed.

(** ** [Record] methods *)

Lemma edit_phone_run s self r old_phone new_phone :
  heap s !! self = Some r ->
  edit_phone self old_phone new_phone s =
    (Ok tt,
     MkState
       (<[self :=
            MkRecord (name r)
              (map (fun p => if same_lower old_phone p
                             then MkField new_phone else p) (phones r))
              (birthday r)]> (heap s))
       (data s)).
Proof.
  intros H. unfold edit_phone, bind, deref, assign. rewrite H. reflexivity.
Qed.

Lemma find_phone_run s self r phone :
  heap s !! self = Some r ->
  find_phone self phone s = (Ok (List.find (same_lower phone) (phones r)), s).
Proof.
  intros H. unfold find_phone, bind, deref, ret. rewrite H. reflexivity.
Qed.

Lemma find_after_edit old_phone new_phone (ps : list Phone) :
  Exists (fun p => lower (value p) = lower old_phone) ps ->
  exists p,
    List.find (same_lower new_phone)
      (map (fun p => if same_lower old_phone p then MkField new_phone else p)
         ps) = Some p
    /\ lower (value p) = lower new_phone.
Proof.
  induction 1 as [p ps Hp | p ps _ IH]; simpl.
  - apply same_lower_iff in Hp. rewrite Hp, same_lower_new.
    eexists; split; [reflexivity | reflexivity].
  - set (p' := if same_lower old_phone p then MkField new_phone else p).
    destruct (same_lower new_phone p') eqn:E.
    + eexists; split; [reflexivity |]. now apply same_lower_iff.
    + destruct IH as (q & Hq & Hl). exists q. split; [exact Hq | exact Hl].
Qed.

Lemma edit_no_match old_phone new_phone (ps : list Phone) :
  Forall (fun p => lower (value p) <> lower old_phone) ps ->
  map (fun p => if same_lower old_phone p then MkField new_phone else p) ps
  = ps.
Proof.
  induction 1 as [| p ps Hp _ IH]; simpl; [reflexivity |].
  destruct (same_lower old_phone p) eqn:E.
  - apply same_lower_iff in E. contradiction.
  - now rewrite IH.
Qed.

Lemma all_ascii_In c : In c all_ascii.
Proof.
  unfold all_ascii. apply in_map_iff. exists (nat_of_ascii c).
  split; [apply ascii_nat_embedding |].
  apply in_seq. pose proof (nat_ascii_bounded c). lia.
Qed.

Lemma lower_char_same_letter_all :
  forallb
    (fun a =>
       forallb
         (fun b =>
            Bool.eqb (Ascii.eqb (lower_char a) (lower_char b))
              (same_letter a b))
         all_ascii)
    all_ascii = true.
Proof. vm_compute. reflexivity. Qed.

(** Two characters are lowered to the same one exactly when they are the
    same letter in the sense of the specification. *)
Lemma lower_char_same_letter a b :
  Ascii.eqb (lower_char a) (lower_char b) = same_letter a b.
Proof.
  pose proof lower_char_same_letter_all as H.
  rewrite forallb_forall in H. specialize (H a (all_ascii_In a)).
  rewrite forallb_forall in H. specialize (H b (all_ascii_In b)).
  now apply Bool.eqb_prop in H.
Qed.

Lemma lower_chars_same_letters l1 l2 :
  String.eqb (str (map lower_char l1)) (str (map lower_char l2))
  = same_letters l1 l2.
Proof.
  revert l2. induction l1 as [| a l1 IH]; intros [| b l2];
    try reflexivity.
  change (String.eqb (str (map lower_char (a :: l1)))
            (str (map lower_char (b :: l2))))
    with (if Ascii.eqb (lower_char a) (lower_char b)
          then String.eqb (str (map lower_char l1)) (str (map lower_char l2))
          else false).
  rewrite lower_char_same_letter, IH. cbn [same_letters].
  now destruct (same_letter a b).
Qed.

(** The comparison the code makes, [a.lower() == b.lower()], is equality
    without regard to case. *)
Lemma lower_eq_ignoring_case a b :
  String.eqb (lower a) (lower b) = equal_ignoring_case a b.
Proof. apply lower_chars_same_letters. Qed.

Lemma lower_eq_iff a b :
  lower a = lower b <-> equal_ignoring_case a b = true.
Proof. rewrite <- lower_eq_ignoring_case. symmetry. apply String.eqb_eq. Qed.



(** C10: when no stored phone compares equal to [old_phone] after
    lowering, [edit_phone] raises nothing and leaves the state, and so the
    phones, as they were; in every case the name and the birthday of the
    record are kept. *)
Theorem edit_phone_frame s self r old_phone new_phone :
  heap s !! self = Some r ->
  exists s' r',
    edit_phone self old_phone new_phone s = (Ok tt, s')
    /\ heap s' !! self = Some r'
    /\ name r' = name r
    /\ birthday r' = birthday r
    /\ (Forall (fun p => lower (value p) <> lower old_phone) (phones r) ->
        phones r' = phones r /\ s' = s).
Proof.
  intros H. do 2 eexists. split; [apply (edit_phone_run _ _ _ _ _ H) |].
  assert (Hlt : (self < length (heap s))%nat) by (eapply lookup_lt_Some; eauto).
  split; [simpl; now apply list_lookup_insert_eq |].
  simpl. split; [reflexivity |]. split; [reflexivity |].
  intros Hno. rewrite (edit_no_match _ _ _ Hno). split; [reflexivity |].
  destruct s as [h d]; simpl in *. f_equal.
  apply list_insert_id. now destruct r.
Qed.

(** A record whose only phone differs from the one to replace. *)
Lemma edit_phone_frame_witness :
  let s := MkState [MkRecord (MkField "Ann") [MkField "1234567890"]
                      (Some (MkField "05.01.1990"))] [("Ann", 0%nat)] in
  edit_phone 0 "0987654321" "5555555555" s = (Ok tt, s).
Proof.
  intros s.
  destruct (edit_phone_frame s 0 _ "0987654321" "5555555555" eq_refl)
    as (s' & r' & Hrun & _ & _ & _ & Hsame).
  rewrite Hrun. f_equal. apply Hsame.
  repeat constructor; discriminate.
Defined.

(** C9: when [validate_phone] rejects the text, [add_phone] raises
    [ValueError] and the state is the one before the call: nothing was
    appended. *)
Theorem add_phone_invalid s self phone :
  validate_phone phone = false ->
  add_phone self phone s = (Raise ValueError, s).
Proof.
  intros H. unfold add_phone, bind, lift, Phone_init. rewrite H. reflexivity.
Qed.

Lemma add_phone_invalid_witness :
  validate_phone "12345" = false
  /\ add_phone 0 "12345"
       (MkState [MkRecord (MkField "Ann") [MkField "1234567890"] None]
          [("Ann", 0%nat)])
     = (Raise ValueError,
        MkState [MkRecord (MkField "Ann") [MkField "1234567890"] None]
          [("Ann", 0%nat)]).
Proof.
  split; [reflexivity |]. apply add_phone_invalid. reflexivity.
Defined.

(** The other side: a text that passes is appended at the end. *)
Lemma add_phone_valid s self r phone :
  validate_phone phone = true ->
  heap s !! self = Some r ->
  add_phone self phone s =
    (Ok tt,
     MkState (<[self := MkRecord (name r) (phones r ++ [MkField phone])
                          (birthday r)]> (heap s)) (data s)).
Proof.
  intros H Hr. unfold add_phone, bind, lift, Phone_init, deref, assign.
  rewrite H. simpl. rewrite Hr. reflexivity.
Qed.

(** ** Dictionaries *)

Lemma dict_mem_true k d : dict_mem k d = true <-> In k (dict_keys d).
Proof.
  unfold dict_mem. rewrite bool_decide_eq_true.
  induction d as [| [k' v] d IH]; simpl.
  - split; [intros [x Hx]; discriminate | tauto].
  - destruct (String.eqb_spec k k') as [-> | Hne].
    + split; [auto | intros _; eexists; reflexivity].
    + rewrite IH. split; [auto | intros [Heq | Hin]; [congruence | exact Hin]].
Qed.

Lemma dict_mem_false k d : dict_mem k d = false <-> ~ In k (dict_keys d).
Proof.
  rewrite <- dict_mem_true. destruct (dict_mem k d); split; congruence.
Qed.

Lemma dict_get_None k d : dict_get k d = None <-> ~ In k (dict_keys d).
Proof.
  rewrite <- dict_mem_false. unfold dict_mem.
  rewrite bool_decide_eq_false, <- eq_None_not_Some. tauto.
Qed.

Lemma dict_get_In k l d : dict_get k d = Some l -> In (k, l) d.
Proof.
  induction d as [| [k' v] d IH]; simpl; [discriminate |].
  destruct (String.eqb_spec k k') as [-> | Hne].
  - intros [= ->]. now left.
  - intros H. right. auto.
Qed.

Lemma dict_del_absent k d : ~ In k (dict_keys d) -> dict_del k d = d.
Proof.
  induction d as [| [k' v] d IH]; simpl; [reflexivity |].
  intros Hn. destruct (String.eqb_spec k k') as [-> | Hne].
  - exfalso. apply Hn. now left.
  - f_equal. apply IH. tauto.
Qed.

Lemma dict_del_In kv k d : In kv (dict_del k d) -> In kv d.
Proof.
  induction d as [| [k' v] d IH]; simpl; [tauto |].
  destruct (String.eqb k k'); simpl; intuition.
Qed.

Lemma dict_del_keys k d :
  dict_ok d ->
  dict_keys (dict_del k d)
  = List.filter (fun k' => negb (String.eqb k k')) (dict_keys d).
Proof.
  unfold dict_ok. induction d as [| [k' v] d IH]; simpl; [reflexivity |].
  intros Hnd. apply NoDup_cons in Hnd as [Hnin Hnd].
  destruct (String.eqb_spec k k') as [-> | Hne]; simpl.
  - rewrite <- (IH Hnd). symmetry. f_equal. apply dict_del_absent.
    now rewrite <- list_elem_of_In.
  - f_equal. now apply IH.
Qed.

Lemma dict_del_get_same k d : dict_ok d -> dict_get k (dict_del k d) = None.
Proof.
  intros Hok. apply dict_get_None. rewrite (dict_del_keys _ _ Hok).
  rewrite filter_In. intros [_ H]. now rewrite String.eqb_refl in H.
Qed.

Lemma dict_del_get_other k k' d :
  k' <> k -> dict_get k' (dict_del k d) = dict_get k' d.
Proof.
  intros Hne. induction d as [| [k0 v] d IH]; simpl; [reflexivity |].
  destruct (String.eqb_spec k k0) as [-> | Hk]; simpl.
  - destruct (String.eqb_spec k' k0); [contradiction | reflexivity].
  - now rewrite IH.
Qed.

Lemma dict_del_length k d :
  In k (dict_keys d) -> S (length (dict_del k d)) = length d.
Proof.
  induction d as [| [k0 v] d IH]; simpl; [tauto |].
  destruct (String.eqb_spec k k0) as [-> | Hk]; simpl; [reflexivity |].
  intros [Heq | Hin]; [congruence |]. now rewrite IH.
Qed.

Lemma dict_del_ok k d : dict_ok d -> dict_ok (dict_del k d).
Proof.
  intros Hok. unfold dict_ok. rewrite (dict_del_keys _ _ Hok).
  apply NoDup_ListNoDup, List.NoDup_filter, NoDup_ListNoDup, Hok.
Qed.

Lemma dict_set_get_same k v d : dict_get k (dict_set k v d) = Some v.
Proof.
  induction d as [| [k0 v0] d IH]; simpl.
  - now rewrite String.eqb_refl.
  - destruct (String.eqb_spec k k0) as [-> | Hk]; simpl.
    + now rewrite String.eqb_refl.
    + destruct (String.eqb_spec k k0); [contradiction | exact IH].
Qed.

Lemma dict_set_get_other k k' v d :
  k' <> k -> dict_get k' (dict_set k v d) = dict_get k' d.
Proof.
  intros Hne. induction d as [| [k0 v0] d IH]; simpl.
  - destruct (String.eqb_spec k' k); [contradiction | reflexivity].
  - destruct (String.eqb_spec k k0) as [-> | Hk]; simpl.
    + destruct (String.eqb_spec k' k0); [contradiction | reflexivity].
    + now rewrite IH.
Qed.

Lemma dict_set_In k v kv d :
  In kv (dict_set k v d) -> kv = (k, v) \/ In kv d.
Proof.
  induction d as [| [k0 v0] d IH]; simpl.
  - intros [<- | []]. now left.
  - destruct (String.eqb k k0); simpl; intuition.
Qed.

Lemma dict_set_keys_present k v d :
  In k (dict_keys d) -> dict_keys (dict_set k v d) = dict_keys d.
Proof.
  induction d as [| [k0 v0] d IH]; simpl; [tauto |].
  destruct (String.eqb_spec k k0) as [-> | Hk]; simpl; [reflexivity |].
  intros [Heq | Hin]; [congruence |]. now rewrite IH.
Qed.

Lemma dict_set_keys_absent k v d :
  ~ In k (dict_keys d) -> dict_keys (dict_set k v d) = (dict_keys d ++ [k])%list.
Proof.
  induction d as [| [k0 v0] d IH]; simpl; [reflexivity |].
  intros Hn. destruct (String.eqb_spec k k0) as [-> | Hk]; simpl.
  - exfalso. apply Hn. now left.
  - f_equal. apply IH. tauto.
Qed.

Lemma dict_set_ok k v d : dict_ok d -> dict_ok (dict_set k v d).
Proof.
  unfold dict_ok. intros Hok.
  destruct (dict_mem k d) eqn:E.
  - apply dict_mem_true in E. now rewrite dict_set_keys_present.
  - apply dict_mem_false in E. rewrite dict_set_keys_absent by exact E.
    apply NoDup_app. split; [exact Hok |]. split.
    + intros x Hx Hk. apply list_elem_of_In in Hx.
      apply list_elem_of_singleton in Hk. congruence.
    + apply NoDup_singleton.
Qed.

(** In a dictionary without repeated keys, what lies under another key
    than the one assigned is what was there before. *)
Lemma dict_set_In_ok k v k' v' d :
  dict_ok d -> In (k', v') (dict_set k v d) ->
  (k' = k /\ v' = v) \/ (k' <> k /\ In (k', v') d).
Proof.
  unfold dict_ok. induction d as [| [k0 v0] d IH]; simpl.
  - intros _ [[= <- <-] | []]. now left.
  - intros Hnd. apply NoDup_cons in Hnd as [Hnin Hnd].
    destruct (String.eqb_spec k k0) as [-> | Hk]; simpl.
    + intros [[= <- <-] | Hin]; [now left |].
      right. split; [| now right].
      intros ->. apply Hnin, list_elem_of_In.
      change k0 with (fst (k0, v')). now apply in_map.
    + intros [[= <- <-] | Hin].
      * right. split; [congruence | now left].
      * destruct (IH Hnd Hin) as [? | [? ?]]; [now left | right; auto].
Qed.

(** ** [AddressBook] methods *)

Lemma find_run nm s : find nm s = (Ok (dict_get nm (data s)), s).
Proof. reflexivity. Qed.

Lemma delete_run nm s :
  delete nm s =
    (Ok tt, if dict_mem nm (data s)
            then MkState (heap s) (dict_del nm (data s)) else s).
Proof.
  unfold delete, bind, get_data. destruct (dict_mem nm (data s)); reflexivity.
Qed.

Lemma add_record_run rec r s :
  heap s !! rec = Some r ->
  add_record rec s =
    (Ok tt, MkState (heap s) (dict_set (value (name r)) rec (data s))).
Proof.
  intros H. unfold add_record, bind, deref, get_data, set_data.
  rewrite H. reflexivity.
Qed.

(** C8: [delete] never raises.  For a name that is not a key the state
    after the call is the state before it, so the mapping has the same
    size, the same keys and the same record under each key.  For a name
    that is a key the entry of that name is removed and nothing else: the
    name is no longer found, every other name is found as before, the
    remaining keys keep their order, and the size drops by one. *)
Theorem delete_spec s nm :
  dict_ok (data s) ->
  (~ In nm (dict_keys (data s)) -> delete nm s = (Ok tt, s))
  /\ (In nm (dict_keys (data s)) ->
      exists s',
        delete nm s = (Ok tt, s')
        /\ heap s' = heap s
        /\ find nm s' = (Ok None, s')
        /\ (forall k, k <> nm -> fst (find k s') = fst (find k s))
        /\ dict_keys (data s')
           = List.filter (fun k => negb (String.eqb nm k)) (dict_keys (data s))
        /\ S (length (data s')) = length (data s)).
Proof.
  intros Hok. rewrite delete_run. split.
  - intros Hn. apply dict_mem_false in Hn. now rewrite Hn.
  - intros Hin. pose proof Hin as Hm. apply dict_mem_true in Hm. rewrite Hm.
    eexists. split; [reflexivity |]. split; [reflexivity |].
    rewrite !find_run. simpl. split; [| split; [| split]].
    + now rewrite dict_del_get_same.
    + intros k Hk. now rewrite dict_del_get_other.
    + now apply dict_del_keys.
    + now apply dict_del_length.
Qed.

Lemma delete_spec_witness :
  let s := MkState [MkRecord (MkField "Ann") [] None;
                    MkRecord (MkField "Bob") [] None]
             [("Ann", 0%nat); ("Bob", 1%nat)] in
  delete "Cy" s = (Ok tt, s)
  /\ exists s', delete "Ann" s = (Ok tt, s')
                /\ dict_keys (data s') = ["Bob"].
Proof.
  intros s.
  assert (Hok : dict_ok (data s)).
  { unfold dict_ok. apply NoDup_ListNoDup.
    repeat constructor; simpl; intuition discriminate. }
  destruct (delete_spec s "Cy" Hok) as [Habsent _].
  destruct (delete_spec s "Ann" Hok) as [_ Hpresent].
  split.
  - apply Habsent. simpl. intuition discriminate.
  - destruct Hpresent as (s' & Hrun & _ & _ & _ & Hkeys & _);
      [simpl; now left |].
    exists s'. split; [exact Hrun | exact Hkeys].
Defined.

Lemma keyed_assign s l r r' :
  keyed s -> heap s !! l = Some r -> name r' = name r ->
  keyed (MkState (<[l := r']> (heap s)) (data s)).
Proof.
  intros Hk Hl Hn k l0 Hin.
  destruct (Hk k l0 Hin) as (r0 & Hr0 & Hname). simpl.
  destruct (decide (l = l0)) as [-> | Hne].
  - exists r'. split.
    + apply list_lookup_insert_eq. eapply lookup_lt_Some; eauto.
    + rewrite Hn. congruence.
  - exists r0. split; [| exact Hname]. now rewrite list_lookup_insert_ne.
Qed.

Lemma keyed_same_heap s d :
  keyed s -> (forall kv, In kv d -> In kv (data s)) ->
  keyed (MkState (heap s) d).
Proof. intros Hk Hsub k l Hin. apply Hk, Hsub, Hin. Qed.

Lemma for_each_cons {A B} (f : A -> M B) x tl s :
  for_each f (x :: tl) s =
    match f x s with
    | (Ok y, s') =>
        match for_each f tl s' with
        | (Ok ys, s'') => (Ok (y :: ys), s'')
        | (Raise e, s'') => (Raise e, s'')
        end
    | (Raise e, s') => (Raise e, s')
    end.
Proof.
  simpl. unfold bind. destruct (f x s) as [[y | e] s']; [| reflexivity].
  destruct (for_each f tl s') as [[ys | e] s'']; reflexivity.
Qed.

Lemma deref_pair_run s l r :
  heap s !! l = Some r ->
  (do r <- deref l; ret (l, r)) s = (Ok (l, r), s).
Proof. intros H. unfold bind, deref, ret. now rewrite H. Qed.

Lemma for_each_deref_run s ls :
  (forall l, In l ls -> is_Some (heap s !! l)) ->
  exists rs,
    for_each (fun l => do r <- deref l; ret (l, r)) ls s = (Ok rs, s)
    /\ map fst rs = ls
    /\ Forall (fun lr => heap s !! fst lr = Some (snd lr)) rs.
Proof.
  induction ls as [| l ls IH]; intros Hall.
  - exists []. repeat split; constructor.
  - destruct (Hall l (or_introl eq_refl)) as [r Hr].
    destruct IH as (rs & Hrun & Hfst & Hsnd);
      [intros l' Hl'; apply Hall; now right |].
    exists ((l, r) :: rs). split; [| split].
    + now rewrite for_each_cons, (deref_pair_run _ _ _ Hr), Hrun.
    + simpl. now rewrite Hfst.
    + constructor; [exact Hr | exact Hsnd].
Qed.

Lemma for_each_deref_state s ls :
  snd (for_each (fun l => do r <- deref l; ret (l, r)) ls s) = s.
Proof.
  induction ls as [| l ls IH]; [reflexivity |].
  rewrite for_each_cons.
  destruct (heap s !! l) as [r |] eqn:E.
  - rewrite (deref_pair_run _ _ _ E).
    destruct (for_each _ ls s) as [[rs | e] s']; exact IH.
  - unfold bind, deref. now rewrite E.
Qed.

Lemma get_upcoming_birthdays_state today s :
  snd (get_upcoming_birthdays today s) = s.
Proof.
  unfold get_upcoming_birthdays, bind, lift, get_data.
  destruct (upcoming_dates today); [| reflexivity].
  pose proof (for_each_deref_state s (dict_values (data s))) as H.
  destruct (for_each _ (dict_values (data s)) s) as [[rs | e] s']; exact H.
Qed.

Lemma keyed_add_phone self phone s : keyed s -> keyed (snd (add_phone self phone s)).
Proof.
  intros Hk. unfold add_phone, bind, lift, deref, assign.
  destruct (Phone_init phone); [| exact Hk].
  destruct (heap s !! self) eqn:E; [| exact Hk].
  now apply (keyed_assign _ _ _ _ Hk E).
Qed.

Lemma keyed_add_birthday self bd s :
  keyed s -> keyed (snd (add_birthday self bd s)).
Proof.
  intros Hk. unfold add_birthday, bind, lift, deref, assign.
  destruct (Birthday_init bd); [| exact Hk].
  destruct (heap s !! self) eqn:E; [| exact Hk].
  now apply (keyed_assign _ _ _ _ Hk E).
Qed.

Lemma keyed_Record_init nm s : keyed s -> keyed (snd (Record_init nm s)).
Proof.
  intros Hk k l Hin. simpl in *. destruct (Hk k l Hin) as (r & Hr & Hn).
  exists r. split; [| exact Hn].
  rewrite lookup_app_l; [exact Hr | eapply lookup_lt_Some; eauto].
Qed.

Lemma keyed_add_record rec s : keyed s -> keyed (snd (add_record rec s)).
Proof.
  intros Hk. unfold add_record, bind, deref, get_data, set_data.
  destruct (heap s !! rec) as [r |] eqn:E; [| exact Hk].
  intros k l Hin. simpl in *.
  destruct (dict_set_In _ _ _ _ Hin) as [[= -> ->] | Hold].
  - exists r. split; [exact E | reflexivity].
  - now apply Hk.
Qed.

(** Every operation of [Record] and of [AddressBook] keeps the
    invariant. *)
Lemma keyed_op o s : keyed s -> keyed (step o s).
Proof.
  intros Hk. destruct o; simpl.
  - now apply keyed_Record_init.
  - now apply keyed_add_phone.
  - unfold remove_phone, bind, deref, assign.
    destruct (heap s !! self) eqn:E; [| exact Hk].
    now apply (keyed_assign _ _ _ _ Hk E).
  - unfold edit_phone, bind, deref, assign.
    destruct (heap s !! self) eqn:E; [| exact Hk].
    now apply (keyed_assign _ _ _ _ Hk E).
  - unfold find_phone, bind, deref, ret.
    destruct (heap s !! self); exact Hk.
  - now apply keyed_add_birthday.
  - now apply keyed_add_record.
  - exact Hk.
  - rewrite delete_run. simpl. destruct (dict_mem nm (data s)); [| exact Hk].
    apply keyed_same_heap; [exact Hk |]. intros kv. apply dict_del_In.
  - now rewrite get_upcoming_birthdays_state.
Qed.

Lemma keyed_empty : keyed empty_state.
Proof. intros k l []. Qed.

(** The invariant holds in every state the operations can produce from
    the empty book. *)
Lemma keyed_reachable s : reachable s -> keyed s.
Proof.
  induction 1 as [| o s _ IH]; [apply keyed_empty | now apply keyed_op].
Qed.

Lemma dict_ok_step o s : dict_ok (data s) -> dict_ok (data (step o s)).
Proof.
  intros Hok. destruct o; simpl; try exact Hok.
  - unfold add_phone, bind, lift, deref, assign.
    destruct (Phone_init phone); [| exact Hok].
    destruct (heap s !! self); exact Hok.
  - unfold remove_phone, bind, deref, assign.
    destruct (heap s !! self); exact Hok.
  - unfold edit_phone, bind, deref, assign.
    destruct (heap s !! self); exact Hok.
  - unfold find_phone, bind, deref, ret.
    destruct (heap s !! self); exact Hok.
  - unfold add_birthday, bind, lift, deref, assign.
    destruct (Birthday_init bd); [| exact Hok].
    destruct (heap s !! self); exact Hok.
  - unfold add_record, bind, deref, get_data, set_data.
    destruct (heap s !! rec); [| exact Hok]. now apply dict_set_ok.
  - rewrite delete_run. destruct (dict_mem nm (data s)); [| exact Hok].
    now apply dict_del_ok.
  - now rewrite get_upcoming_birthdays_state.
Qed.

(** No name is a key twice, in any state the operations can produce. *)
Lemma dict_ok_reachable s : reachable s -> dict_ok (data s).
Proof.
  induction 1 as [| o s _ IH]; [apply NoDup_nil_2 | now apply dict_ok_step].
Qed.

(** C6: two records of the same name are added one after the other.  No
    call raises; the objects themselves are untouched; the name then leads
    to the second record; the second call adds no entry, it replaces one;
    no name is a key twice; the other names lead where they led before;
    and the first record, if it is another object than the second, is the
    value of no entry at all. *)
Theorem add_record_replaces s l1 l2 r1 r2 nm :
  keyed s -> dict_ok (data s) ->
  heap s !! l1 = Some r1 -> heap s !! l2 = Some r2 ->
  value (name r1) = nm -> value (name r2) = nm ->
  exists s1 s2,
    add_record l1 s = (Ok tt, s1)
    /\ add_record l2 s1 = (Ok tt, s2)
    /\ heap s2 = heap s
    /\ find nm s1 = (Ok (Some l1), s1)
    /\ find nm s2 = (Ok (Some l2), s2)
    /\ length (data s2) = length (data s1)
    /\ dict_ok (data s1) /\ dict_ok (data s2)
    /\ (forall k, k <> nm -> fst (find k s2) = fst (find k s))
    /\ (l1 <> l2 -> ~ In l1 (dict_values (data s2)))
    /\ keyed s2.
Proof.
  intros Hk Hok H1 H2 Hn1 Hn2.
  exists (MkState (heap s) (dict_set nm l1 (data s))).
  exists (MkState (heap s) (dict_set nm l2 (dict_set nm l1 (data s)))).
  assert (Hok1 : dict_ok (dict_set nm l1 (data s))) by now apply dict_set_ok.
  assert (Hok2 : dict_ok (dict_set nm l2 (dict_set nm l1 (data s))))
    by now apply dict_set_ok.
  split; [rewrite (add_record_run _ _ _ H1); now rewrite Hn1 |].
  split; [now rewrite (add_record_run _ r2), Hn2 |].
  split; [reflexivity |].
  rewrite !find_run. simpl.
  split; [now rewrite dict_set_get_same |].
  split; [now rewrite dict_set_get_same |].
  split.
  { rewrite <- !(length_map fst). fold (dict_keys (dict_set nm l1 (data s))).
    fold (dict_keys (dict_set nm l2 (dict_set nm l1 (data s)))).
    rewrite dict_set_keys_present; [reflexivity |].
    apply dict_mem_true. unfold dict_mem.
    rewrite dict_set_get_same. now apply bool_decide_eq_true. }
  split; [exact Hok1 |]. split; [exact Hok2 |].
  split.
  { intros k Hne. now rewrite !dict_set_get_other. }
  split.
  { intros Hne Hin. unfold dict_values in Hin.
    apply in_map_iff in Hin as ([k l] & Hl & Hin). simpl in Hl. subst l.
    destruct (dict_set_In_ok _ _ _ _ _ Hok1 Hin) as [[_ He] | [Hkne Hin1]];
      [congruence |].
    destruct (dict_set_In_ok _ _ _ _ _ Hok Hin1) as [[He _] | [_ Hin0]];
      [congruence |].
    destruct (Hk _ _ Hin0) as (r & Hr & Hname). congruence. }
  intros k l Hin. simpl in Hin.
  destruct (dict_set_In _ _ _ _ Hin) as [[= -> ->] | Hin1].
  { exists r2. split; [exact H2 | exact Hn2]. }
  destruct (dict_set_In _ _ _ _ Hin1) as [[= -> ->] | Hin0].
  { exists r1. split; [exact H1 | exact Hn1]. }
  now apply Hk.
Qed.

(** Two records named Ann with different phones, added to an empty book. *)
Lemma add_record_replaces_witness :
  let s := MkState [MkRecord (MkField "Ann") [MkField "1111111111"] None;
                    MkRecord (MkField "Ann") [MkField "2222222222"] None] [] in
  exists s1 s2,
    add_record 0 s = (Ok tt, s1)
    /\ add_record 1 s1 = (Ok tt, s2)
    /\ find "Ann" s2 = (Ok (Some 1%nat), s2)
    /\ ~ In 0%nat (dict_values (data s2)).
Proof.
  intros s.
  assert (Hk : keyed s) by (intros k l []).
  assert (Hok : dict_ok (data s)) by apply NoDup_nil_2.
  destruct (add_record_replaces s 0 1 _ _ "Ann" Hk Hok eq_refl eq_refl
              eq_refl eq_refl)
    as (s1 & s2 & Ha & Hb & _ & _ & Hf & _ & _ & _ & _ & Hun & _).
  exists s1, s2. repeat split; try assumption. apply Hun. discriminate.
Defined.

(** ** Phone numbers *)

Lemma rmatch_Rep_Dig {A} n st (k : mstate -> option A) :
  rmatch (Rep n Dig) st k =
    if (n <=? length (rest st))%nat && forallb is_digit (take n (rest st))
    then k (MState (pos st + n) (drop n (rest st)) (groups st))
    else None.
Proof.
  revert st. induction n as [| n IH]; intros [p l g]; simpl.
  - rewrite drop_0. now rewrite Nat.add_0_r.
  - unfold eat. simpl. destruct l as [| c l]; simpl; [reflexivity |].
    destruct (is_digit c); simpl.
    + rewrite IH. simpl. now rewrite Nat.add_succ_r.
    + now destruct (n <=? length l)%nat.
Qed.

Lemma forallb_Forall {A} (f : A -> bool) l :
  forallb f l = true <-> Forall (fun x => f x = true) l.
Proof.
  induction l as [| x l IH]; simpl.
  - split; [constructor | reflexivity].
  - rewrite andb_true_iff, IH. split.
    + intros [? ?]. now constructor.
    + intros H. apply Forall_cons in H. exact H.
Qed.

Lemma validate_phone_true s :
  validate_phone s = true <->
  exists ds tl,
    chars s = (ds ++ tl)%list /\ length ds = 10%nat
    /\ Forall (fun c => is_digit c = true) ds
    /\ (tl = [] \/ tl = [newline]).
Proof.
  unfold validate_phone, re_match, phone_re.
  rewrite bool_decide_eq_true.
  cbn [rmatch pos Nat.eqb]. rewrite rmatch_Rep_Dig. cbn [rest pos groups rmatch].
  split.
  - intros [m Hm].
    destruct (10 <=? length (chars s))%nat eqn:Hlen; [| discriminate].
    destruct (forallb is_digit (take 10 (chars s))) eqn:Hd; [| discriminate].
    simpl in Hm.
    destruct (at_eol (drop 10 (chars s))) eqn:He; [| discriminate].
    exists (take 10 (chars s)), (drop 10 (chars s)).
    split; [now rewrite take_drop |].
    split; [rewrite length_take; apply Nat.leb_le in Hlen; lia |].
    split; [now apply forallb_Forall |].
    destruct (drop 10 (chars s)) as [| c [| c' tl]]; [now left | | discriminate].
    right. simpl in He. apply Ascii.eqb_eq in He. now subst.
  - intros (ds & tl & Hs & Hlen & Hd & Htl).
    rewrite Hs, length_app, Hlen.
    replace (take 10 (ds ++ tl)) with ds
      by (rewrite take_app_length'; [reflexivity | now symmetry]).
    replace (drop 10 (ds ++ tl)) with tl
      by (rewrite drop_app_length'; [reflexivity | now symmetry]).
    simpl (10 <=? 10 + length tl)%nat.
    replace (forallb is_digit ds) with true
      by (symmetry; now apply forallb_Forall).
    simpl. destruct Htl as [-> | ->]; simpl; eexists; reflexivity.
Qed.

(** Ten digits are accepted, and the field prints as the text given. *)
Lemma Phone_init_ten_digits s :
  ten_digits s ->
  exists p, Phone_init s = Ok p /\ Field_str p = s.
Proof.
  intros [Hlen Hd]. exists (MkField s). split; [| reflexivity].
  unfold Phone_init.
  replace (validate_phone s) with true; [reflexivity |].
  symmetry. apply validate_phone_true.
  exists (chars s), []. rewrite app_nil_r. auto.
Qed.

(** What [Phone] accepts: ten digits, or ten digits and one line feed. *)
Lemma Phone_init_ok_iff s :
  is_ok (Phone_init s) = true <->
  ten_digits s \/ exists s0, ten_digits s0 /\ s = s0 ++ String newline "".
Proof.
  unfold Phone_init.
  destruct (validate_phone s) eqn:E; simpl.
  - split; [intros _ | reflexivity].
    apply validate_phone_true in E as (ds & tl & Hs & Hlen & Hd & [-> | ->]).
    + left. rewrite app_nil_r in Hs. unfold ten_digits. now rewrite Hs.
    + right. exists (str ds). split.
      * unfold ten_digits. now rewrite chars_str.
      * apply chars_inj. now rewrite Hs, chars_app, chars_str.
  - split; [discriminate |]. intros H. exfalso.
    assert (validate_phone s = true); [| congruence].
    apply validate_phone_true. destruct H as [[Hlen Hd] | (s0 & [Hlen Hd] & ->)].
    + exists (chars s), []. rewrite app_nil_r. auto.
    + exists (chars s0), [newline]. rewrite chars_app. auto.
Qed.

(** C2: the text made of the ten digits 1234567890 and a line feed has
    eleven characters, the last of which is no digit, and [Phone] accepts
    it and stores it: the [$] of the pattern also matches before a final
    line feed. *)
Theorem Phone_accepts_trailing_newline :
  String.length phone_with_newline = 11%nat
  /\ ~ ten_digits phone_with_newline
  /\ validate_phone phone_with_newline = true
  /\ Phone_init phone_with_newline = Ok (MkField phone_with_newline).
Proof.
  split; [reflexivity |]. split; [| split; reflexivity].
  intros [Hlen _]. discriminate Hlen.
Qed.

(** ** The calendar *)

Lemma all_from_spec n lo f :
  all_from n lo f = true ->
  forall z, lo <= z < lo + Z.of_nat n -> f z = true.
Proof.
  revert lo. induction n as [| n IH]; intros lo H z Hz; [lia |].
  simpl in H. apply andb_true_iff in H as [Hlo Hrest].
  destruct (Z.eq_dec z lo) as [-> | Hne]; [exact Hlo |].
  apply (IH (lo + 1) Hrest). lia.
Qed.

Lemma month_cases m :
  1 <= m <= 12 ->
  m = 1 \/ m = 2 \/ m = 3 \/ m = 4 \/ m = 5 \/ m = 6
  \/ m = 7 \/ m = 8 \/ m = 9 \/ m = 10 \/ m = 11 \/ m = 12.
Proof. lia. Qed.

(** One 400-year cycle, day by day. *)
Lemma cycle_ok_all : all_from (Z.to_nat _DI400Y) 0 cycle_ok = true.
Proof. vm_cast_no_check (eq_refl true). Qed.

(** The years 1 to 400, date by date. *)
Lemma roundtrip_all :
  all_from 400 1
    (fun y => all_from 12 1 (fun m => all_from 31 1 (roundtrip_at y m)))
  = true.
Proof. vm_cast_no_check (eq_refl true). Qed.

Lemma _ord2ymd_cycle_shift q r :
  _ord2ymd_cycle q r =
    MkDate (year (_ord2ymd_cycle 0 r) + 400 * q)
           (month (_ord2ymd_cycle 0 r)) (day (_ord2ymd_cycle 0 r)).
Proof.
  unfold _ord2ymd_cycle. cbv zeta.
  repeat match goal with
         | |- context [if ?b then _ else _] => destruct b
         end; simpl; f_equal; lia.
Qed.

Lemma _is_leap_shift y q : _is_leap (y + 400 * q) = _is_leap y.
Proof.
  unfold _is_leap.
  replace ((y + 400 * q) mod 4) with (y mod 4)
    by (Z.div_mod_to_equations; lia).
  replace ((y + 400 * q) mod 100) with (y mod 100)
    by (Z.div_mod_to_equations; lia).
  replace ((y + 400 * q) mod 400) with (y mod 400)
    by (Z.div_mod_to_equations; lia).
  reflexivity.
Qed.

Lemma _days_before_year_shift y q :
  _days_before_year (y + 400 * q) = _days_before_year y + _DI400Y * q.
Proof.
  unfold _days_before_year, _DI400Y. Z.div_mod_to_equations. lia.
Qed.

Lemma _ymd2ord_shift y m d q :
  _ymd2ord (y + 400 * q) m d = _ymd2ord y m d + _DI400Y * q.
Proof.
  unfold _ymd2ord, _days_before_month.
  rewrite _days_before_year_shift, _is_leap_shift. lia.
Qed.

(** Every day number leads to a month and a day in range, and the date
    found has that number. *)
Lemma fromordinal_spec n :
  1 <= month (fromordinal n) <= 12
  /\ 1 <= day (fromordinal n) <= 31
  /\ toordinal (fromordinal n) = n.
Proof.
  unfold fromordinal, _ord2ymd, toordinal. cbv zeta.
  set (q := (n - 1) / _DI400Y). set (r := (n - 1) mod _DI400Y).
  assert (Hr : 0 <= r < _DI400Y) by (apply Z.mod_pos_bound; reflexivity).
  assert (Hn : n - 1 = _DI400Y * q + r) by (apply Z.div_mod; discriminate).
  rewrite _ord2ymd_cycle_shift. simpl.
  pose proof (all_from_spec _ _ _ cycle_ok_all r) as Hc.
  rewrite Z2Nat.id in Hc by discriminate. specialize (Hc ltac:(lia)).
  unfold cycle_ok in Hc. cbv zeta in Hc.
  rewrite !andb_true_iff in Hc.
  destruct Hc as [[[[H1 H2] H3] H4] H5].
  rewrite _ymd2ord_shift. lia.
Qed.

(** A date is found again from its number. *)
Lemma fromordinal_ymd2ord y m d :
  1 <= m <= 12 -> 1 <= d <= _days_in_month y m ->
  fromordinal (_ymd2ord y m d) = MkDate y m d.
Proof.
  intros Hm Hd. unfold fromordinal.
  set (q := (y - 1) / 400). set (y0 := (y - 1) mod 400 + 1).
  assert (Hy0 : 1 <= y0 <= 400)
    by (unfold y0; pose proof (Z.mod_pos_bound (y - 1) 400); lia).
  assert (Hy : y = y0 + 400 * q)
    by (unfold y0, q; pose proof (Z.div_mod (y - 1) 400); lia).
  rewrite Hy in *. rewrite _ymd2ord_shift.
  assert (Hdim : _days_in_month (y0 + 400 * q) m = _days_in_month y0 m)
    by (unfold _days_in_month; now rewrite _is_leap_shift).
  rewrite Hdim in Hd.
  pose proof (all_from_spec _ _ _ roundtrip_all y0 ltac:(lia)) as Hr.
  cbv beta in Hr.
  pose proof (all_from_spec _ _ _ Hr m ltac:(lia)) as Hr'.
  cbv beta in Hr'.
  assert (Hd31 : d <= 31).
  { unfold _days_in_month, tbl, _DAYS_IN_MONTH in Hd.
    destruct (month_cases m Hm) as
      [-> | [-> | [-> | [-> | [-> | [-> | [-> | [-> | [-> | [-> | [-> | ->]]]]]]]]]]];
      destruct (_is_leap y0); simpl in Hd; lia. }
  pose proof (all_from_spec _ _ _ Hr' d ltac:(lia)) as Hrt.
  unfold roundtrip_at in Hrt.
  replace ((1 <=? d) && (d <=? _days_in_month y0 m)) with true in Hrt
    by (symmetry; apply andb_true_iff; split; apply Z.leb_le; lia).
  cbn [andb negb orb] in Hrt. cbv zeta in Hrt.
  rewrite !andb_true_iff in Hrt.
  destruct Hrt as [[H0 H1] [[Hya Hma] Hda]].
  unfold _ord2ymd. cbv zeta.
  replace (_ymd2ord y0 m d + _DI400Y * q - 1)
    with (_ymd2ord y0 m d - 1 + q * _DI400Y) by lia.
  rewrite Z.div_add, Z.mod_add by discriminate.
  rewrite Z.div_small, Z.mod_small by lia.
  rewrite _ord2ymd_cycle_shift.
  f_equal; lia.
Qed.

Lemma fromordinal_toordinal_md dt :
  valid_md dt -> fromordinal (toordinal dt) = dt.
Proof.
  destruct dt as [y m d]. intros [Hm Hd]. now apply fromordinal_ymd2ord.
Qed.

Lemma valid_date_md dt : valid_date dt = true -> valid_md dt.
Proof.
  unfold valid_date, valid_md. rewrite !andb_true_iff, !Z.leb_le. tauto.
Qed.

Lemma fromordinal_toordinal dt :
  valid_date dt = true -> fromordinal (toordinal dt) = dt.
Proof. intros Hv. now apply fromordinal_toordinal_md, valid_date_md. Qed.

(** The same month and day one year or more later is 364 days away at
    least. *)
Lemma _ymd2ord_year_gap y1 y2 m d :
  y1 < y2 -> _ymd2ord y1 m d + 364 <= _ymd2ord y2 m d.
Proof.
  intros Hlt. unfold _ymd2ord, _days_before_month, _days_before_year.
  assert (Hb : forall b, 0 <= Z_of_bool b <= 1) by (intros []; simpl; lia).
  pose proof (Hb ((2 <? m) && _is_leap y1)).
  pose proof (Hb ((2 <? m) && _is_leap y2)).
  Z.div_mod_to_equations. lia.
Qed.

(** Two dates of the same month and day are not one to seven days
    apart. *)
Lemma same_month_day_apart y1 y2 m d n k :
  _ymd2ord y1 m d = n -> _ymd2ord y2 m d = n + k -> ~ 1 <= k <= 7.
Proof.
  intros H1 H2 Hk.
  destruct (Z.lt_trichotomy y1 y2) as [Hlt | [Heq | Hgt]].
  - pose proof (_ymd2ord_year_gap _ _ m d Hlt) as Hgap.
    revert H1 H2 Hgap.
    generalize (_ymd2ord y1 m d), (_ymd2ord y2 m d). intros; lia.
  - subst y2. rewrite H1 in H2. lia.
  - pose proof (_ymd2ord_year_gap _ _ m d Hgt) as Hgap.
    revert H1 H2 Hgap.
    generalize (_ymd2ord y1 m d), (_ymd2ord y2 m d). intros; lia.
Qed.

(** Within a week no month-and-day pair comes twice. *)
Lemma fromordinal_week_distinct n k :
  1 <= k <= 7 ->
  ~ (month (fromordinal n) = month (fromordinal (n + k))
     /\ day (fromordinal n) = day (fromordinal (n + k))).
Proof.
  intros Hk.
  destruct (fromordinal_spec n) as (_ & _ & H1).
  destruct (fromordinal_spec (n + k)) as (_ & _ & H2).
  revert H1 H2. generalize (fromordinal n), (fromordinal (n + k)).
  intros [y1 m1 d1] [y2 m2 d2] H1 H2 [Hm Hd].
  unfold toordinal in H1, H2. simpl in *. subst m2 d2.
  exact (same_month_day_apart _ _ _ _ _ _ H1 H2 Hk).
Qed.

(** *** The ["DD.MM"] text *)

Lemma code_digit_char k : 0 <= k <= 9 -> Z.of_N (code (digit_char k)) = 48 + k.
Proof.
  intros Hk. unfold code, digit_char.
  rewrite N_ascii_embedding by lia. lia.
Qed.

Lemma two_digits_val_two_digits n :
  0 <= n < 100 -> two_digits_val (two_digits n) = n.
Proof.
  intros Hn. unfold two_digits, two_digits_val.
  rewrite !code_digit_char.
  - pose proof (Z.div_mod n 10). lia.
  - pose proof (Z.mod_pos_bound n 10). lia.
  - Z.div_mod_to_equations. lia.
Qed.

Lemma strftime_dm_inj d1 d2 :
  0 <= day d1 < 100 -> 0 <= month d1 < 100 ->
  0 <= day d2 < 100 -> 0 <= month d2 < 100 ->
  strftime_dm d1 = strftime_dm d2 ->
  month d1 = month d2 /\ day d1 = day d2.
Proof.
  intros Hd1 Hm1 Hd2 Hm2 H. unfold strftime_dm in H.
  apply (f_equal chars) in H. rewrite !chars_str in H.
  assert (Hday : two_digits (day d1) = two_digits (day d2))
    by (unfold two_digits in *; simpl in H; congruence).
  assert (Hmon : two_digits (month d1) = two_digits (month d2))
    by (unfold two_digits in *; simpl in H; congruence).
  apply (f_equal two_digits_val) in Hday, Hmon.
  rewrite !two_digits_val_two_digits in Hday, Hmon by assumption.
  auto.
Qed.

(** The ["DD.MM"] texts of two days less than a week apart differ. *)
Lemma offset_dm_distinct n k :
  1 <= k <= 7 ->
  strftime_dm (fromordinal n) <> strftime_dm (fromordinal (n + k)).
Proof.
  intros Hk H.
  destruct (fromordinal_spec n) as (Hm1 & Hd1 & _).
  destruct (fromordinal_spec (n + k)) as (Hm2 & Hd2 & _).
  apply strftime_dm_inj in H; try lia.
  now apply (fromordinal_week_distinct n k Hk).
Qed.

(** ** Upcoming birthdays *)

Lemma toordinal_pos dt : valid_date dt = true -> 1 <= toordinal dt.
Proof.
  intros Hv.
  destruct dt as [y m d]. unfold valid_date, MINYEAR in Hv. simpl in Hv.
  rewrite !andb_true_iff in Hv. destruct Hv as [[[[[Hy1 _] Hm1] Hm2] Hd1] _].
  unfold toordinal, _ymd2ord, _days_before_year, _days_before_month. simpl.
  assert (Htbl : 0 <= tbl _DAYS_BEFORE_MONTH m).
  { assert (Hcases : m = 1 \/ m = 2 \/ m = 3 \/ m = 4 \/ m = 5 \/ m = 6
                     \/ m = 7 \/ m = 8 \/ m = 9 \/ m = 10 \/ m = 11 \/ m = 12)
      by lia.
    unfold tbl, _DAYS_BEFORE_MONTH.
    repeat (destruct Hcases as [-> | Hcases]; [simpl; lia |]).
    subst m; simpl; lia. }
  assert (Hb : 0 <= Z_of_bool ((2 <? m) && _is_leap y))
    by (destruct ((2 <? m) && _is_leap y); simpl; lia).
  revert Htbl Hb.
  generalize (tbl _DAYS_BEFORE_MONTH m), (Z_of_bool ((2 <? m) && _is_leap y)).
  intros. Z.div_mod_to_equations. lia.
Qed.

Lemma add_days_ok today i :
  0 < toordinal today + i <= _MAXORDINAL ->
  add_days today i = Ok (fromordinal (toordinal today + i)).
Proof.
  intros [H1 H2]. unfold add_days.
  apply Z.ltb_lt in H1. apply Z.leb_le in H2. now rewrite H1, H2.
Qed.

(** *** The day after *)

(** A month ends where the next one begins. *)
Lemma _days_before_month_succ y m :
  1 <= m < 12 ->
  _days_before_month y (m + 1) = _days_before_month y m + _days_in_month y m.
Proof.
  intros Hm. unfold _days_before_month, _days_in_month.
  destruct (month_cases m ltac:(lia)) as
    [-> | [-> | [-> | [-> | [-> | [-> | [-> | [-> | [-> | [-> | [-> | ->]]]]]]]]]]];
    try lia; destruct (_is_leap y); reflexivity.
Qed.

(** A year has 365 days, and one more when it is a leap year. *)
Lemma _days_before_year_succ y :
  _days_before_year (y + 1)
  = _days_before_year y + 365 + Z_of_bool (_is_leap y).
Proof.
  unfold _days_before_year, _is_leap, Z_of_bool.
  replace (y + 1 - 1) with y by lia.
  destruct (Z.eqb_spec (y mod 4) 0) as [H4 | H4];
    destruct (Z.eqb_spec (y mod 100) 0) as [H100 | H100];
    destruct (Z.eqb_spec (y mod 400) 0) as [H400 | H400];
    cbn [negb andb orb]; Z.div_mod_to_equations; lia.
Qed.

Lemma toordinal_next_day dt :
  valid_md dt -> toordinal (next_day dt) = toordinal dt + 1.
Proof.
  destruct dt as [y m d]. unfold valid_md, next_day, toordinal, _ymd2ord.
  simpl. intros [Hm Hd].
  destruct (Z.ltb_spec d (_days_in_month y m)) as [Hlt | Hge]; simpl; [lia |].
  assert (Hlast : d = _days_in_month y m) by lia.
  destruct (Z.ltb_spec m 12) as [Hm12 | Hm12]; simpl.
  - rewrite _days_before_month_succ by lia. lia.
  - assert (m = 12) by lia. subst m.
    rewrite _days_before_year_succ. subst d.
    unfold _days_before_month, _days_in_month, tbl.
    generalize (_days_before_year y). intros n.
    destruct (_is_leap y); simpl; lia.
Qed.

Lemma _days_in_month_pos y m : 1 <= m <= 12 -> 28 <= _days_in_month y m.
Proof.
  intros Hm. unfold _days_in_month, tbl.
  destruct (month_cases m Hm) as
    [-> | [-> | [-> | [-> | [-> | [-> | [-> | [-> | [-> | [-> | [-> | ->]]]]]]]]]]];
    destruct (_is_leap y); simpl; lia.
Qed.

Lemma valid_md_next_day dt : valid_md dt -> valid_md (next_day dt).
Proof.
  destruct dt as [y m d]. unfold valid_md, next_day. simpl. intros [Hm Hd].
  destruct (Z.ltb_spec d (_days_in_month y m)) as [Hlt | Hge]; simpl; [lia |].
  destruct (Z.ltb_spec m 12) as [Hm12 | Hm12]; simpl.
  - pose proof (_days_in_month_pos y (m + 1)). lia.
  - pose proof (_days_in_month_pos (y + 1) 1). lia.
Qed.

(** Stepping [i] times through the calendar adds [i] to the number of
    the day. *)
Lemma toordinal_day_after today i :
  valid_md today ->
  valid_md (day_after today i)
  /\ toordinal (day_after today i) = toordinal today + Z.of_nat i.
Proof.
  intros Hv. induction i as [| i [IHv IHt]].
  - simpl. split; [exact Hv | lia].
  - change (day_after today (S i)) with (next_day (day_after today i)).
    split.
    + now apply valid_md_next_day.
    + rewrite toordinal_next_day by exact IHv. lia.
Qed.

(** The date the program computes for an offset is the calendar day that
    many steps after [today]. *)
Lemma fromordinal_day_after today i :
  valid_md today ->
  fromordinal (toordinal today + Z.of_nat i) = day_after today i.
Proof.
  intros Hv. destruct (toordinal_day_after today i Hv) as [Hvi <-].
  now apply fromordinal_toordinal_md.
Qed.

Lemma offset_dm_day_after today i :
  valid_md today ->
  offset_dm today (Z.of_nat i) = strftime_dm (day_after today i).
Proof. intros Hv. unfold offset_dm. now rewrite fromordinal_day_after. Qed.

Lemma add_days_day_after today i :
  valid_date today = true ->
  toordinal today + Z.of_nat i <= _MAXORDINAL ->
  add_days today (Z.of_nat i) = Ok (day_after today i).
Proof.
  intros Hv Hmax. pose proof (toordinal_pos today Hv).
  rewrite add_days_ok by lia.
  now rewrite fromordinal_day_after by now apply valid_date_md.
Qed.

Lemma upcoming_dates_ok today :
  0 <= toordinal today -> toordinal today + 7 <= _MAXORDINAL ->
  upcoming_dates today = Ok (map (offset_dm today) [1; 2; 3; 4; 5; 6; 7]).
Proof.
  intros H0 H7. unfold upcoming_dates. cbn [fold_right map].
  rewrite !add_days_ok by lia. reflexivity.
Qed.

Lemma str_in_In x xs : str_in x xs = true <-> In x xs.
Proof.
  unfold str_in. rewrite existsb_exists. split.
  - intros (y & Hy & He). apply String.eqb_eq in He. now subst.
  - intros H. exists x. split; [exact H | apply String.eqb_refl].
Qed.

(** The test the program makes agrees with the wording of the
    specification. *)
Lemma has_upcoming_in_window today r :
  valid_md today ->
  has_upcoming (map (offset_dm today) [1; 2; 3; 4; 5; 6; 7]) r = true
  <-> in_window today r.
Proof.
  intros Hv. unfold has_upcoming, in_window. destruct (birthday r) as [b |].
  - rewrite str_in_In, in_map_iff. split.
    + intros (i & Hi & Hin). exists b, (Z.to_nat i).
      assert (Hr : 1 <= i <= 7) by (simpl in Hin; lia).
      split; [reflexivity |]. split; [lia |].
      rewrite <- offset_dm_day_after by exact Hv.
      rewrite Z2Nat.id by lia. now symmetry.
    + intros (b' & i & [= <-] & Hi & He). exists (Z.of_nat i).
      split; [rewrite offset_dm_day_after by exact Hv; now symmetry |].
      simpl. lia.
  - split; [discriminate |]. intros (b & i & Hb & _). discriminate.
Qed.

Lemma filter_deref (s : state) (P : record -> bool) rs :
  Forall (fun lr => heap s !! fst lr = Some (snd lr)) rs ->
  map fst (List.filter (fun lr => P (snd lr)) rs)
  = List.filter
      (fun l => match heap s !! l with Some r => P r | None => false end)
      (map fst rs).
Proof.
  induction 1 as [| [l r] rs Hl _ IH]; [reflexivity |].
  simpl in *. rewrite Hl. destruct (P r); simpl; now rewrite IH.
Qed.

Lemma bind_ok {A B} (m : M A) (f : A -> M B) s a s' :
  m s = (Ok a, s') -> bind m f s = f a s'.
Proof. intros H. unfold bind. now rewrite H. Qed.

Lemma get_upcoming_birthdays_run s today dates :
  keyed s ->
  upcoming_dates today = Ok dates ->
  get_upcoming_birthdays today s =
    (Ok (List.filter
           (fun l => match heap s !! l with
                     | Some r => has_upcoming dates r
                     | None => false
                     end)
           (dict_values (data s))), s).
Proof.
  intros Hk Hd.
  destruct (for_each_deref_run s (dict_values (data s)))
    as (rs & Hrun & Hfst & Hall).
  { intros l Hl. apply in_map_iff in Hl as ([k l'] & <- & Hin).
    destruct (Hk _ _ Hin) as (r & Hr & _). exists r. exact Hr. }
  unfold get_upcoming_birthdays.
  rewrite (bind_ok _ _ s dates s) by (unfold lift; now rewrite Hd).
  rewrite (bind_ok _ _ s (data s) s) by reflexivity.
  rewrite (bind_ok _ _ s rs s) by exact Hrun.
  unfold ret. f_equal.
  rewrite (filter_deref s _ rs Hall). now rewrite Hfst.
Qed.

(** C1, amended: with the mapping keyed as the invariant says, and [today]
    a date whose seventh successor [datetime] can still represent,
    [get_upcoming_birthdays] raises nothing, changes nothing, and returns
    the values of the mapping, in their order, filtered by a test that a
    record passes exactly when its birthday is set and the first five
    characters of the stored text are the ["DD.MM"] text of one of the
    seven calendar days after [today].  No record returned has the
    ["DD.MM"] of [today] itself in that place, nor that of the eighth day
    after [today]. *)
Theorem get_upcoming_birthdays_spec s today :
  keyed s ->
  valid_date today = true ->
  toordinal today + 7 <= _MAXORDINAL ->
  exists ls keep,
    get_upcoming_birthdays today s = (Ok ls, s)
    /\ ls = List.filter keep (dict_values (data s))
    /\ (forall l r, heap s !! l = Some r ->
          (keep l = true <-> in_window today r))
    /\ (forall l r b,
          In l ls -> heap s !! l = Some r -> birthday r = Some b ->
          slice_to 5 (value b) <> strftime_dm today
          /\ slice_to 5 (value b) <> strftime_dm (day_after today 8)).
Proof.
  intros Hk Hv Hmax.
  pose proof (toordinal_pos today Hv) as Hpos.
  pose proof (valid_date_md today Hv) as Hmd.
  pose proof (upcoming_dates_ok today ltac:(lia) Hmax) as Hdates.
  set (dates := map (offset_dm today) [1; 2; 3; 4; 5; 6; 7]) in *.
  set (keep := fun l : loc => match heap s !! l with
                              | Some r => has_upcoming dates r
                              | None => false
                              end).
  assert (Hkeep : forall l r, heap s !! l = Some r ->
                    (keep l = true <-> in_window today r)).
  { intros l r Hr. unfold keep. rewrite Hr.
    now apply has_upcoming_in_window. }
  exists (List.filter keep (dict_values (data s))), keep.
  split; [exact (get_upcoming_birthdays_run s today dates Hk Hdates) |].
  split; [reflexivity |]. split; [exact Hkeep |].
  intros l r b Hin Hr Hb. apply filter_In in Hin as [_ Hkl].
  apply (Hkeep l r Hr) in Hkl as (b' & i & Hb' & Hi & Hslice).
  rewrite Hb in Hb'. injection Hb' as <-. rewrite Hslice.
  rewrite <- !(fromordinal_day_after today) by exact Hmd. split.
  - rewrite <- (fromordinal_toordinal today Hv) at 2.
    intros H. symmetry in H. revert H. apply offset_dm_distinct. lia.
  - replace (toordinal today + Z.of_nat 8)
      with (toordinal today + Z.of_nat i + (8 - Z.of_nat i)) by lia.
    apply offset_dm_distinct. lia.
Qed.

(** On 1 January 2024: a birthday on 5 January is upcoming, one on
    1 January and one on 9 January are not. *)
Lemma get_upcoming_birthdays_spec_witness :
  let s := MkState
             [MkRecord (MkField "Ann") [] (Some (MkField "05.01.1990"));
              MkRecord (MkField "Bob") [] (Some (MkField "01.01.1990"));
              MkRecord (MkField "Cy") [] (Some (MkField "09.01.1990"))]
             [("Ann", 0%nat); ("Bob", 1%nat); ("Cy", 2%nat)] in
  let today := MkDate 2024 1 1 in
  valid_date today = true
  /\ toordinal today + 7 <= _MAXORDINAL
  /\ exists ls, get_upcoming_birthdays today s = (Ok ls, s) /\ ls = [0%nat].
Proof.
  intros s today.
  assert (Hk : keyed s).
  { intros k l [[= <- <-] | [[= <- <-] | [[= <- <-] | []]]];
      eexists; split; reflexivity. }
  assert (Hle : toordinal today + 7 <= _MAXORDINAL) by (cbv; discriminate).
  split; [reflexivity |]. split; [exact Hle |].
  destruct (get_upcoming_birthdays_spec s today Hk eq_refl Hle)
    as (ls & keep & Hrun & _).
  exists ls. split; [exact Hrun |].
  vm_compute in Hrun. now injection Hrun as <-.
Defined.

(** ** The matcher and the relation [sem] *)

Lemma eat_Some {A} p st (k : mstate -> option A) m :
  eat p st k = Some m -> exists st', sem_eat p st st' /\ k st' = Some m.
Proof.
  unfold eat, sem_eat. destruct (rest st) as [| c tl]; [discriminate |].
  destruct (p c) eqn:E; [| discriminate]. intros H.
  eexists. split; [| exact H]. exists c, tl. auto.
Qed.

Lemma eat_None {A} p st (k : mstate -> option A) :
  eat p st k = None -> forall st', sem_eat p st st' -> k st' = None.
Proof.
  unfold eat, sem_eat. intros H st' (c & tl & Hr & Hp & ->).
  now rewrite Hr, Hp in H.
Qed.

(** What the matcher returns was reached by the pattern and accepted by
    the continuation. *)
Lemma rmatch_sound {A} r : forall st (k : mstate -> option A) m,
  rmatch r st k = Some m -> exists st', sem r st st' /\ k st' = Some m.
Proof.
  induction r as [c | lo hi | | | | | r1 IH1 r2 IH2 | r1 IH1 r2 IH2 | g r IH];
    intros st k m H; simpl in *.
  - now apply eat_Some.
  - now apply eat_Some.
  - now apply eat_Some.
  - destruct (Nat.eqb_spec (pos st) 0); [| discriminate]. eauto.
  - destruct (at_eol (rest st)) eqn:E; [| discriminate]. eauto.
  - eauto.
  - apply IH1 in H as (mid & H1 & H). apply IH2 in H as (st' & H2 & H).
    exists st'. split; [exists mid; auto | exact H].
  - destruct (rmatch r1 st k) as [m1 |] eqn:E.
    + injection H as <-. apply IH1 in E as (st' & H1 & Hk). eauto.
    + apply IH2 in H as (st' & H2 & Hk). eauto.
  - apply IH in H as (st1 & H1 & Hk). eexists. split; [| exact Hk]. eauto.
Qed.

(** When the matcher fails, the continuation rejects every end the
    pattern can reach. *)
Lemma rmatch_complete {A} r : forall st (k : mstate -> option A),
  rmatch r st k = None -> forall st', sem r st st' -> k st' = None.
Proof.
  induction r as [c | lo hi | | | | | r1 IH1 r2 IH2 | r1 IH1 r2 IH2 | g r IH];
    intros st k H st' Hs; simpl in *.
  - eapply eat_None; eauto.
  - eapply eat_None; eauto.
  - eapply eat_None; eauto.
  - destruct Hs as [Hp ->]. now rewrite Hp in H.
  - destruct Hs as [He ->]. now rewrite He in H.
  - now subst.
  - destruct Hs as (mid & H1 & H2).
    exact (IH2 _ _ (IH1 _ _ H _ H1) _ H2).
  - destruct (rmatch r1 st k) eqn:E; [discriminate |].
    destruct Hs as [H1 | H2]; [exact (IH1 _ _ E _ H1) | exact (IH2 _ _ H _ H2)].
  - destruct Hs as (st1 & H1 & ->). exact (IH _ _ H _ H1).
Qed.

(** [re.match] succeeds exactly when the pattern can end somewhere, and
    its result is such an end. *)
Lemma re_match_Some r s m :
  re_match r s = Some m -> sem r (MState 0 (chars s) []) m.
Proof.
  intros H. apply rmatch_sound in H as (st' & Hs & [= ->]). exact Hs.
Qed.

Lemma re_match_None r s :
  re_match r s = None -> forall st', ~ sem r (MState 0 (chars s) []) st'.
Proof.
  intros H st' Hs. pose proof (rmatch_complete _ _ _ H _ Hs). discriminate.
Qed.

Lemma mstate_eq st st' :
  rest st = rest st' -> pos st = pos st' -> groups st = groups st' -> st = st'.
Proof. destruct st, st'; simpl. now intros -> -> ->. Qed.

Lemma sem_eat_reads p st st' :
  sem_eat p st st' <-> exists c, p c = true /\ reads [c] [] st st'.
Proof.
  unfold sem_eat, reads. split.
  - intros (c & tl & Hr & Hp & ->). exists c. simpl.
    repeat split; auto. now rewrite Nat.add_1_r.
  - intros (c & Hp & Hr & Hpos & Hg). exists c, (rest st').
    repeat split; auto. apply mstate_eq; simpl; auto.
    rewrite Hpos. simpl. now rewrite Nat.add_1_r.
Qed.

Lemma reads_nil st st' : reads [] [] st st' <-> st' = st.
Proof.
  unfold reads. split.
  - intros (Hr & Hp & Hg). apply mstate_eq; simpl in *; auto. lia.
  - intros ->. simpl. repeat split; auto.
Qed.

Lemma reads_app w1 g1 w2 g2 st mid st' :
  reads w1 g1 st mid -> reads w2 g2 mid st' ->
  reads (w1 ++ w2) (g2 ++ g1) st st'.
Proof.
  unfold reads. intros (Hr1 & Hp1 & Hg1) (Hr2 & Hp2 & Hg2).
  rewrite Hr1, Hr2, Hp2, Hp1, Hg2, Hg1, length_app, <- !app_assoc.
  repeat split; auto. lia.
Qed.

(** The state in between, when a word is read in two parts. *)
Lemma reads_split w1 w2 g st st' :
  reads (w1 ++ w2) g st st' ->
  exists mid, reads w1 [] st mid /\ reads w2 g mid st'.
Proof.
  unfold reads. intros (Hr & Hp & Hg).
  exists (MState (pos st + length w1) (w2 ++ rest st') (groups st)). simpl.
  rewrite Hr, Hp, Hg, length_app, <- app_assoc. repeat split; auto. lia.
Qed.

(** A pattern without groups and anchors reads one of its words and
    leaves the groups alone. *)
Lemma sem_plain r : plain r = true -> forall st st',
  sem r st st' <-> exists w, lang r w /\ reads w [] st st'.
Proof.
  induction r as [c | lo hi | | | | | r1 IH1 r2 IH2 | r1 IH1 r2 IH2 | g r IH];
    simpl; intros Hp st st'; try discriminate.
  - rewrite sem_eat_reads. split.
    + intros (c' & He & Hr). apply Ascii.eqb_eq in He. subst. eauto.
    + intros (w & -> & Hr). exists c. split; [apply Ascii.eqb_refl | exact Hr].
  - rewrite sem_eat_reads. split.
    + intros (c & Hc & Hr). eauto.
    + intros (w & (c & -> & Hc) & Hr). eauto.
  - rewrite sem_eat_reads. split.
    + intros (c & Hc & Hr). eauto.
    + intros (w & (c & -> & Hc) & Hr). eauto.
  - split.
    + intros ->. exists []. split; [reflexivity | now apply reads_nil].
    + intros (w & -> & Hr). now apply reads_nil.
  - apply andb_true_iff in Hp as [Hp1 Hp2]. split.
    + intros (mid & H1 & H2).
      apply (IH1 Hp1) in H1 as (w1 & Hl1 & Hr1).
      apply (IH2 Hp2) in H2 as (w2 & Hl2 & Hr2).
      exists (w1 ++ w2)%list. split; [eauto |].
      exact (reads_app _ _ _ _ _ _ _ Hr1 Hr2).
    + intros (w & (w1 & w2 & -> & Hl1 & Hl2) & Hr).
      apply reads_split in Hr as (mid & Hr1 & Hr2).
      exists mid. split; [apply (IH1 Hp1) | apply (IH2 Hp2)]; eauto.
  - apply andb_true_iff in Hp as [Hp1 Hp2].
    rewrite (IH1 Hp1), (IH2 Hp2). split.
    + intros [(w & Hl & Hr) | (w & Hl & Hr)]; eauto.
    + intros (w & [Hl | Hl] & Hr); eauto.
Qed.

(** A group around such a pattern records the word read. *)
Lemma sem_Grp_plain g r st st' :
  plain r = true ->
  sem (Grp g r) st st' <-> exists w, lang r w /\ reads w [(g, w)] st st'.
Proof.
  intros Hp. simpl. split.
  - intros (st1 & Hs & ->). apply (sem_plain r Hp) in Hs as (w & Hl & Hr).
    exists w. split; [exact Hl |]. destruct Hr as (Hr & Hpos & Hg).
    unfold reads. simpl. repeat split; auto.
    rewrite Hpos, Hr, Hg. f_equal. f_equal.
    replace (pos st + length w - pos st)%nat with (length w) by lia.
    now rewrite take_app_length.
  - intros (w & Hl & Hr & Hpos & Hg).
    exists (MState (pos st') (rest st') (groups st)). split.
    + apply (sem_plain r Hp). exists w. split; [exact Hl |].
      unfold reads. simpl. auto.
    + apply mstate_eq; simpl; auto. rewrite Hg, Hpos, Hr. simpl.
      f_equal. f_equal.
      replace (pos st + length w - pos st)%nat with (length w) by lia.
      now rewrite take_app_length.
Qed.

(** ** The pattern of [strptime] *)

Ltac break_lang :=
  repeat match goal with
         | H : exists _, _ |- _ => destruct H
         | H : _ /\ _ |- _ => destruct H
         | H : _ \/ _ |- _ => destruct H
         end; subst.

Ltac close_form :=
  cbn [app d_form m_form y_form];
  repeat match goal with
         | H : _ = true |- _ => rewrite H
         end;
  rewrite ?Ascii.eqb_refl;
  repeat (cbn [andb orb]; rewrite ?orb_true_r);
  reflexivity.

Lemma lang_d_alts w : lang d_alts w <-> d_form w = true.
Proof.
  unfold d_alts. cbn [lang]. split.
  - intros H. break_lang; close_form.
  - destruct w as [| a [| b [| c w]]]; cbn [d_form]; try discriminate.
    + intros H. right. right. right. left. eauto.
    + rewrite !orb_true_iff, !andb_true_iff.
      intros [[[[H1 H2] | [H1 H2]] | [H1 H2]] | [H1 H2]].
      * apply Ascii.eqb_eq in H1. subst a. left. exists ["3"%char], [b]. repeat split; eauto.
      * right. left. exists [a], [b]. repeat split; eauto.
      * apply Ascii.eqb_eq in H1. subst a.
        right. right. left. exists ["0"%char], [b]. repeat split; eauto.
      * apply Ascii.eqb_eq in H1. subst a.
        right. right. right. right. exists [" "%char], [b]. repeat split; eauto.
Qed.

Lemma lang_m_alts w : lang m_alts w <-> m_form w = true.
Proof.
  unfold m_alts. cbn [lang]. split.
  - intros H. break_lang; close_form.
  - destruct w as [| a [| b [| c w]]]; cbn [m_form]; try discriminate.
    + intros H. right. right. eauto.
    + rewrite !orb_true_iff, !andb_true_iff.
      intros [[H1 H2] | [H1 H2]].
      * apply Ascii.eqb_eq in H1. subst a. left. exists ["1"%char], [b]. repeat split; eauto.
      * apply Ascii.eqb_eq in H1. subst a.
        right. left. exists ["0"%char], [b]. repeat split; eauto.
Qed.

Lemma lang_Y_digits w : lang Y_digits w <-> y_form w = true.
Proof.
  unfold Y_digits. cbn [lang]. split.
  - intros H. break_lang; close_form.
  - destruct w as [| a [| b [| c [| d [| e w]]]]]; cbn [y_form];
      try discriminate.
    rewrite !andb_true_iff. intros [[[Ha Hb] Hc] Hd].
    exists [a], [b; c; d]. split; [reflexivity |]. split; [eauto |].
    exists [b], [c; d]. split; [reflexivity |]. split; [eauto |].
    exists [c], [d]. split; [reflexivity |]. split; eauto.
Qed.

Lemma sem_dot st st' : sem (Lit dot) st st' <-> reads [dot] [] st st'.
Proof.
  rewrite (sem_plain (Lit dot) eq_refl). simpl. split.
  - intros (w & -> & H). exact H.
  - intros H. eauto.
Qed.

(** What [format_re] reads: a day, a dot, a month, a dot and a year, each
    field in one of its forms; the three texts are recorded. *)
Lemma sem_format_re st st' :
  sem format_re st st' <->
  exists wd wm wy,
    d_form wd = true /\ m_form wm = true /\ y_form wy = true
    /\ reads (wd ++ dot :: wm ++ dot :: wy)
         [("Y", wy); ("m", wm); ("d", wd)] st st'.
Proof.
  unfold format_re, d_re, m_re, Y_re.
  cbn [sem]. fold (sem (Grp "d" d_alts)) (sem (Grp "m" m_alts))
    (sem (Grp "Y" Y_digits)) (sem (Lit ".")).
  split.
  - intros (s1 & Hd & s2 & Hdot1 & s3 & Hm & s4 & Hdot2 & HY).
    apply sem_Grp_plain in Hd as (wd & Hwd & Hrd); [| reflexivity].
    apply sem_Grp_plain in Hm as (wm & Hwm & Hrm); [| reflexivity].
    apply sem_Grp_plain in HY as (wy & Hwy & Hry); [| reflexivity].
    apply sem_dot in Hdot1, Hdot2.
    exists wd, wm, wy.
    rewrite <- lang_d_alts, <- lang_m_alts, <- lang_Y_digits.
    split; [exact Hwd |]. split; [exact Hwm |]. split; [exact Hwy |].
    pose proof (reads_app _ _ _ _ _ _ _ Hdot2 Hry) as H4.
    pose proof (reads_app _ _ _ _ _ _ _ Hrm H4) as H3.
    pose proof (reads_app _ _ _ _ _ _ _ Hdot1 H3) as H2.
    pose proof (reads_app _ _ _ _ _ _ _ Hrd H2) as H1.
    simpl in H1. exact H1.
  - intros (wd & wm & wy & Hwd & Hwm & Hwy & Hr).
    apply lang_d_alts in Hwd. apply lang_m_alts in Hwm.
    apply lang_Y_digits in Hwy.
    destruct Hr as (Hrest & Hpos & Hg).
    assert (Hrest' : rest st
                     = (wd ++ dot :: wm ++ dot :: wy ++ rest st')%list).
    { rewrite Hrest, <- app_assoc. simpl. rewrite <- app_assoc. reflexivity. }
    assert (Hpos' : pos st'
                    = (S (S (pos st + length wd) + length wm) + length wy)%nat).
    { rewrite Hpos, length_app. simpl. rewrite length_app. simpl. lia. }
    clear Hrest Hpos.
    set (s1 := MState (pos st + length wd) (dot :: wm ++ dot :: wy ++ rest st')
                 (("d", wd) :: groups st)).
    set (s2 := MState (S (pos s1)) (wm ++ dot :: wy ++ rest st') (groups s1)).
    set (s3 := MState (pos s2 + length wm) (dot :: wy ++ rest st')
                 (("m", wm) :: groups s2)).
    set (s4 := MState (S (pos s3)) (wy ++ rest st') (groups s3)).
    exists s1. split.
    { apply sem_Grp_plain; [reflexivity |]. exists wd. split; [exact Hwd |].
      unfold reads. simpl. auto. }
    exists s2. split.
    { apply sem_dot. unfold reads. simpl. repeat split; auto.
      now rewrite Nat.add_1_r. }
    exists s3. split.
    { apply sem_Grp_plain; [reflexivity |]. exists wm. split; [exact Hwm |].
      unfold reads. simpl. auto. }
    exists s4. split.
    { apply sem_dot. unfold reads. simpl. repeat split; auto.
      now rewrite Nat.add_1_r. }
    apply sem_Grp_plain; [reflexivity |]. exists wy. split; [exact Hwy |].
    unfold reads. simpl. auto.
Qed.

(** *** The numbers in the fields *)

Lemma in_range_bounds lo hi c :
  in_range lo hi c = true ->
  Z.of_N (code lo) <= Z.of_N (code c) <= Z.of_N (code hi).
Proof.
  unfold in_range. rewrite andb_true_iff, !N.leb_le. lia.
Qed.

Lemma in_range_is_digit lo hi c :
  (code "0" <=? code lo)%N = true -> (code hi <=? code "9")%N = true ->
  in_range lo hi c = true -> is_digit c = true.
Proof.
  unfold is_digit, in_range. rewrite !andb_true_iff, !N.leb_le.
  intros ? ? [? ?]. split; lia.
Qed.

Lemma is_digit_not_blank c : is_digit c = true -> Ascii.eqb c " " = false.
Proof.
  intros H. destruct (Ascii.eqb_spec c " ") as [-> | Hne];
    [discriminate H | reflexivity].
Qed.

Lemma digits_val_num l : forall acc,
  Forall (fun c => is_digit c = true) l ->
  digits_val acc l
  = Some (fold_left (fun a c => a * 10 + (Z.of_N (code c) - 48)) l acc).
Proof.
  induction l as [| c l IH]; intros acc H; simpl; [reflexivity |].
  apply Forall_cons in H as [Hc Hl]. rewrite Hc. now apply IH.
Qed.

(** [int] of a non-empty run of digits. *)
Lemma py_int_digits c l :
  Forall (fun c => is_digit c = true) (c :: l) ->
  py_int (c :: l) = Ok (num (c :: l)).
Proof.
  intros H. unfold py_int, num.
  assert (Hc : is_digit c = true) by (apply Forall_cons in H; tauto).
  cbn [lstrip]. rewrite (is_digit_not_blank c Hc).
  now rewrite (digits_val_num _ 0 H).
Qed.

(** [int] skips the blank a day can start with. *)
Lemma py_int_blank c :
  is_digit c = true -> py_int [" "%char; c] = Ok (num [c]).
Proof.
  intros Hc. unfold py_int. cbn [lstrip].
  rewrite Ascii.eqb_refl, (is_digit_not_blank c Hc).
  now rewrite (digits_val_num [c] 0) by (repeat constructor; exact Hc).
Qed.

Lemma d_form_value w :
  d_form w = true -> exists n, py_int w = Ok n /\ 1 <= n <= 31.
Proof.
  destruct w as [| a [| b [| c w]]]; cbn [d_form]; try discriminate.
  - intros H. exists (num [a]). unfold is_digit in *.
    pose proof (in_range_bounds _ _ _ H) as Hb.
    rewrite py_int_digits
      by (repeat constructor;
          exact (in_range_is_digit "1" "9" a eq_refl eq_refl H)).
    split; [reflexivity |]. unfold num. simpl in *. lia.
  - rewrite !orb_true_iff, !andb_true_iff.
    intros [[[[H1 H2] | [H1 H2]] | [H1 H2]] | [H1 H2]].
    + apply Ascii.eqb_eq in H1. subst a.
      pose proof (in_range_bounds _ _ _ H2) as Hb.
      exists (num ["3"%char; b]). rewrite py_int_digits.
      * split; [reflexivity |]. unfold num. simpl in *. lia.
      * repeat constructor.
        exact (in_range_is_digit "0" "1" b eq_refl eq_refl H2).
    + pose proof (in_range_bounds _ _ _ H1) as Ha.
      pose proof (in_range_bounds _ _ _ H2) as Hb.
      exists (num [a; b]). rewrite py_int_digits.
      * split; [reflexivity |]. unfold num. simpl in *. lia.
      * repeat constructor; [| exact H2].
        exact (in_range_is_digit "1" "2" a eq_refl eq_refl H1).
    + apply Ascii.eqb_eq in H1. subst a.
      pose proof (in_range_bounds _ _ _ H2) as Hb.
      exists (num ["0"%char; b]). rewrite py_int_digits.
      * split; [reflexivity |]. unfold num. simpl in *. lia.
      * repeat constructor.
        exact (in_range_is_digit "1" "9" b eq_refl eq_refl H2).
    + apply Ascii.eqb_eq in H1. subst a.
      pose proof (in_range_bounds _ _ _ H2) as Hb.
      exists (num [b]). rewrite py_int_blank
        by exact (in_range_is_digit "1" "9" b eq_refl eq_refl H2).
      split; [reflexivity |]. unfold num. simpl in *. lia.
Qed.

Lemma m_form_value w :
  m_form w = true -> exists n, py_int w = Ok n /\ 1 <= n <= 12.
Proof.
  destruct w as [| a [| b [| c w]]]; cbn [m_form]; try discriminate.
  - intros H. exists (num [a]).
    pose proof (in_range_bounds _ _ _ H) as Hb.
    rewrite py_int_digits
      by (repeat constructor;
          exact (in_range_is_digit "1" "9" a eq_refl eq_refl H)).
    split; [reflexivity |]. unfold num. simpl in *. lia.
  - rewrite !orb_true_iff, !andb_true_iff.
    intros [[H1 H2] | [H1 H2]].
    + apply Ascii.eqb_eq in H1. subst a.
      pose proof (in_range_bounds _ _ _ H2) as Hb.
      exists (num ["1"%char; b]). rewrite py_int_digits.
      * split; [reflexivity |]. unfold num. simpl in *. lia.
      * repeat constructor.
        exact (in_range_is_digit "0" "2" b eq_refl eq_refl H2).
    + apply Ascii.eqb_eq in H1. subst a.
      pose proof (in_range_bounds _ _ _ H2) as Hb.
      exists (num ["0"%char; b]). rewrite py_int_digits.
      * split; [reflexivity |]. unfold num. simpl in *. lia.
      * repeat constructor.
        exact (in_range_is_digit "1" "9" b eq_refl eq_refl H2).
Qed.

Lemma y_form_value w :
  y_form w = true -> exists n, py_int w = Ok n /\ 0 <= n <= 9999.
Proof.
  destruct w as [| a [| b [| c [| d [| e w]]]]]; cbn [y_form];
    try discriminate.
  rewrite !andb_true_iff. intros [[[Ha Hb] Hc] Hd].
  exists (num [a; b; c; d]).
  rewrite py_int_digits by (repeat constructor; assumption).
  split; [reflexivity |].
  apply in_range_bounds in Ha, Hb, Hc, Hd.
  unfold num. simpl in *. lia.
Qed.

(** *** What [strptime] accepts *)

Lemma length_chars s : length (chars s) = String.length s.
Proof. induction s as [| c s IH]; simpl; [reflexivity | now rewrite IH]. Qed.

Lemma re_match_format_re s m :
  re_match format_re s = Some m ->
  exists wd wm wy,
    d_form wd = true /\ m_form wm = true /\ y_form wy = true
    /\ chars s = ((wd ++ dot :: wm ++ dot :: wy) ++ rest m)%list
    /\ pos m = length (wd ++ dot :: wm ++ dot :: wy)
    /\ groups m = [("Y", wy); ("m", wm); ("d", wd)].
Proof.
  intros H. apply re_match_Some, sem_format_re in H.
  destruct H as (wd & wm & wy & Hd & Hm & Hy & Hr & Hp & Hg).
  exists wd, wm, wy. simpl in *. auto 10.
Qed.

Lemma d_form_no_dot w : d_form w = true -> Forall (fun c => c <> dot) w.
Proof.
  destruct w as [| a [| b [| c w]]]; cbn [d_form]; try discriminate.
  - intros H. repeat constructor. intros ->. discriminate.
  - rewrite !orb_true_iff, !andb_true_iff.
    intros [[[[H1 H2] | [H1 H2]] | [H1 H2]] | [H1 H2]];
      repeat constructor; intros ->; discriminate.
Qed.

Lemma m_form_no_dot w : m_form w = true -> Forall (fun c => c <> dot) w.
Proof.
  destruct w as [| a [| b [| c w]]]; cbn [m_form]; try discriminate.
  - intros H. repeat constructor. intros ->. discriminate.
  - rewrite !orb_true_iff, !andb_true_iff.
    intros [[H1 H2] | [H1 H2]]; repeat constructor; intros ->; discriminate.
Qed.

Lemma y_form_length w : y_form w = true -> length w = 4%nat.
Proof.
  destruct w as [| a [| b [| c [| d [| e w]]]]]; cbn [y_form];
    try discriminate. reflexivity.
Qed.

(** A text is cut at its first dot in one way only. *)
Lemma split_at_dot l1 : forall l2 r1 r2,
  Forall (fun c => c <> dot) l1 -> Forall (fun c => c <> dot) l2 ->
  (l1 ++ dot :: r1 = l2 ++ dot :: r2)%list -> l1 = l2 /\ r1 = r2.
Proof.
  induction l1 as [| a l1 IH]; intros [| b l2] r1 r2 H1 H2 He; simpl in He.
  - injection He as <-. auto.
  - injection He as <- _. apply Forall_cons in H2 as [Hb _]. contradiction.
  - injection He as -> _. apply Forall_cons in H1 as [Ha _]. contradiction.
  - injection He as <- He.
    apply Forall_cons in H1 as [_ H1]. apply Forall_cons in H2 as [_ H2].
    destruct (IH _ _ _ H1 H2 He) as [<- <-]. auto.
Qed.

(** The three fields of a text are determined by the text. *)
Lemma dmy_unique wd wm wy wd' wm' wy' tl :
  d_form wd = true -> m_form wm = true -> y_form wy = true ->
  d_form wd' = true -> m_form wm' = true -> y_form wy' = true ->
  (wd ++ dot :: wm ++ dot :: wy
   = (wd' ++ dot :: wm' ++ dot :: wy') ++ tl)%list ->
  wd' = wd /\ wm' = wm /\ wy' = wy /\ tl = [].
Proof.
  intros Hd Hm Hy Hd' Hm' Hy' He.
  rewrite <- app_assoc in He. simpl in He. rewrite <- app_assoc in He.
  simpl in He.
  apply split_at_dot in He as [<- He]; auto using d_form_no_dot.
  apply split_at_dot in He as [<- He]; auto using m_form_no_dot.
  apply y_form_length in Hy, Hy'.
  assert (Hlen : length tl = 0%nat).
  { apply (f_equal (@length ascii)) in He. rewrite length_app in He. lia. }
  destruct tl; [| discriminate Hlen]. rewrite app_nil_r in He. auto.
Qed.

Lemma date_init_Ok y m d dt :
  date_init y m d = Ok dt <-> dt = MkDate y m d /\ valid_date dt = true.
Proof.
  unfold date_init. destruct (valid_date (MkDate y m d)) eqn:E; split.
  - intros [= <-]. auto.
  - intros [-> _]. reflexivity.
  - discriminate.
  - intros [-> H]. congruence.
Qed.

Lemma int_groups wd wm wy m :
  groups m = [("Y", wy); ("m", wm); ("d", wd)] ->
  int_group "Y" m = py_int wy /\ int_group "m" m = py_int wm
  /\ int_group "d" m = py_int wd.
Proof. intros H. unfold int_group. rewrite H. repeat split. Qed.

(** [strptime] returns a date exactly for the texts made of a day, a
    month and a year in the forms of the pattern that name a date of the
    calendar. *)
Lemma strptime_Ok_iff s dt :
  strptime s = Ok dt <->
  exists wd wm wy,
    dmy_text s wd wm wy
    /\ py_int wd = Ok (day dt) /\ py_int wm = Ok (month dt)
    /\ py_int wy = Ok (year dt) /\ valid_date dt = true.
Proof.
  unfold strptime, dmy_text. split.
  - destruct (re_match format_re s) as [m |] eqn:E; [| discriminate].
    apply re_match_format_re in E
      as (wd & wm & wy & Hd & Hm & Hy & Hs & Hp & Hg).
    destruct (Nat.eqb_spec (String.length s) (pos m)) as [Hlen | Hlen];
      [| discriminate].
    cbn [negb].
    destruct (int_groups _ _ _ _ Hg) as (-> & -> & ->).
    destruct (py_int wy) as [y |] eqn:Ey; [| discriminate].
    destruct (py_int wm) as [mo |] eqn:Em; [| discriminate].
    destruct (py_int wd) as [d |] eqn:Ed; [| discriminate].
    cbn [bind_result]. intros H. apply date_init_Ok in H as [-> Hv].
    exists wd, wm, wy. simpl. repeat split; auto.
    rewrite Hs. rewrite <- length_chars, Hs, length_app in Hlen.
    assert (Hnil : length (rest m) = 0%nat) by lia.
    destruct (rest m); [| discriminate Hnil]. now rewrite app_nil_r.
  - intros (wd & wm & wy & (Hs & Hd & Hm & Hy) & Ed & Em & Ey & Hv).
    destruct (re_match format_re s) as [m |] eqn:E.
    + apply re_match_format_re in E
        as (wd' & wm' & wy' & Hd' & Hm' & Hy' & Hs' & Hp & Hg).
      rewrite Hs in Hs'.
      destruct (dmy_unique _ _ _ _ _ _ _ Hd Hm Hy Hd' Hm' Hy' Hs')
        as (-> & -> & -> & Hnil).
      rewrite <- length_chars, Hs, Hp, Nat.eqb_refl. cbn [negb].
      destruct (int_groups _ _ _ _ Hg) as (-> & -> & ->).
      rewrite Ey, Em, Ed. cbn [bind_result].
      apply date_init_Ok. split; [now destruct dt | exact Hv].
    + exfalso. eapply (re_match_None _ _ E), sem_format_re.
      exists wd, wm, wy. split; [exact Hd |]. split; [exact Hm |].
      split; [exact Hy |].
      instantiate (1 := MState (length (wd ++ dot :: wm ++ dot :: wy)) []
                          [("Y", wy); ("m", wm); ("d", wd)]).
      unfold reads. simpl. rewrite app_nil_r. auto.
Qed.

(** [strptime] raises nothing but [ValueError]. *)
Lemma strptime_Raise s e : strptime s = Raise e -> e = ValueError.
Proof.
  unfold strptime.
  destruct (re_match format_re s) as [m |] eqn:E; [| now intros [= <-]].
  destruct (negb (String.length s =? pos m)%nat); [now intros [= <-] |].
  apply re_match_format_re in E
    as (wd & wm & wy & Hd & Hm & Hy & _ & _ & Hg).
  destruct (int_groups _ _ _ _ Hg) as (-> & -> & ->).
  destruct (y_form_value _ Hy) as (y & -> & _).
  destruct (m_form_value _ Hm) as (mo & -> & _).
  destruct (d_form_value _ Hd) as (d & -> & _).
  cbn [bind_result]. unfold date_init.
  destruct (valid_date (MkDate y mo d)); [discriminate | now intros [= <-]].
Qed.

Lemma Birthday_init_Ok_iff v b :
  Birthday_init v = Ok b <-> b = MkField v /\ exists dt, strptime v = Ok dt.
Proof.
  unfold Birthday_init. destruct (strptime v) as [dt | e] eqn:E.
  - split; [intros [= <-]; eauto | intros [-> _]; reflexivity].
  - split; [destruct e; discriminate | intros [_ [dt H]]; discriminate].
Qed.

(** [Birthday] fails with a [ValueError] and in no other way. *)
Lemma Birthday_init_Raise v e : Birthday_init v = Raise e -> e = ValueError.
Proof.
  unfold Birthday_init. destruct (strptime v) as [dt | e'] eqn:E;
    [discriminate |].
  apply strptime_Raise in E. subst e'. now intros [= <-].
Qed.

(** *** Fixed-width texts *)

Lemma two_digits_day_all : all_from 31 1 (reads_back two_digits d_form) = true.
Proof. vm_compute. reflexivity. Qed.

Lemma two_digits_month_all :
  all_from 12 1 (reads_back two_digits m_form) = true.
Proof. vm_compute. reflexivity. Qed.

Lemma four_digits_year_all :
  all_from (Z.to_nat 9999) 1 (reads_back four_digits y_form) = true.
Proof. vm_compute. reflexivity. Qed.

Lemma reads_back_spec f form n :
  reads_back f form n = true -> form (f n) = true /\ py_int (f n) = Ok n.
Proof.
  unfold reads_back. rewrite andb_true_iff. intros [Hf Hi].
  split; [exact Hf |]. destruct (py_int (f n)) as [k |]; [| discriminate].
  apply Z.eqb_eq in Hi. now subst.
Qed.

(** Every date of the calendar, written as ["DD.MM.YYYY"], is accepted
    and stored as written. *)
Lemma Birthday_accepts_fixed_width dt :
  valid_date dt = true ->
  Birthday_init (strftime_dmy dt) = Ok (MkField (strftime_dmy dt)).
Proof.
  intros Hv. apply Birthday_init_Ok_iff. split; [reflexivity |].
  exists dt. apply strptime_Ok_iff.
  pose proof Hv as Hb. unfold valid_date, MINYEAR, MAXYEAR in Hb.
  rewrite !andb_true_iff in Hb.
  destruct Hb as [[[[[Hy1 Hy2] Hm1] Hm2] Hd1] Hd2].
  assert (Hd31 : day dt <= 31).
  { destruct (fromordinal_spec (toordinal dt)) as (_ & H & _).
    rewrite (fromordinal_toordinal dt Hv) in H. lia. }
  destruct (reads_back_spec _ _ _
              (all_from_spec _ _ _ two_digits_day_all (day dt) ltac:(lia)))
    as [Hfd Hid].
  destruct (reads_back_spec _ _ _
              (all_from_spec _ _ _ two_digits_month_all (month dt) ltac:(lia)))
    as [Hfm Him].
  destruct (reads_back_spec _ _ _
              (all_from_spec _ _ _ four_digits_year_all (year dt) ltac:(lia)))
    as [Hfy Hiy].
  exists (two_digits (day dt)), (two_digits (month dt)),
    (four_digits (year dt)).
  unfold dmy_text, strftime_dmy. rewrite chars_str. auto 10.
Qed.
(** ** Birthdays *)

(** C3: [Birthday] accepts ["1.1.2000"], whose day and month have one
    digit each, and stores it as given; it rejects ["31.02.2024"] and
    ["00.01.2000"].  [strptime] reads [%d] and [%m] with one digit or
    two. *)
Theorem Birthday_accepts_short_fields :
  Birthday_init "1.1.2000" = Ok (MkField "1.1.2000")
  /\ strptime "1.1.2000" = Ok (MkDate 2000 1 1)
  /\ Birthday_init "31.02.2024" = Raise ValueError
  /\ Birthday_init "00.01.2000" = Raise ValueError.
Proof. repeat split; reflexivity. Qed.

(** The day may also be a blank and a digit. *)
Lemma Birthday_accepts_blank_day :
  Birthday_init " 5.01.2000" = Ok (MkField " 5.01.2000").
Proof. reflexivity. Qed.

(** A stored text with short fields is cut in the wrong place by the
    upcoming-birthdays test. *)
Lemma short_birthday_prefix : slice_to 5 "1.1.2000" = "1.1.2".
Proof. reflexivity. Qed.

(** ** Command handlers *)

Lemma input_error_catches_ValueError {A} (func : A -> M string) args s s' :
  input_error func args s <> (Raise ValueError, s').
Proof.
  unfold input_error.
  destruct (func args s) as [[msg | []] s0]; discriminate.
Qed.

(** C5, as stated, does not hold: no arguments and no state make the
    [add_birthday] handler end with a [ValueError]. *)
Lemma add_birthday_never_raises_ValueError :
  ~ exists args s s', Handlers.add_birthday args s = (Raise ValueError, s').
Proof.
  intros (args & s & s' & H).
  exact (input_error_catches_ValueError _ _ _ _ H).
Qed.

(** C5, amended: [add_birthday] is wrapped by [input_error] like the other
    handlers.  For a contact that is in the book and a birthday text that
    [Birthday] rejects, the handler returns the message of [input_error]
    for a [ValueError] and the state is the one before the call. *)
Theorem add_birthday_recovers s nm bd :
  dict_mem nm (data s) = true ->
  is_ok (Birthday_init bd) = false ->
  Handlers.add_birthday [nm; bd] s = (Ok "Give me name and phone please.", s).
Proof.
  intros Hm Hb.
  destruct (Birthday_init bd) as [b | e] eqn:E; [discriminate |].
  pose proof (Birthday_init_Raise _ _ E) as ->.
  unfold Handlers.add_birthday, input_error, Handlers.add_birthday_func.
  unfold contains, getitem, add_birthday, bind, get_data, ret, lift.
  rewrite Hm. simpl.
  pose proof Hm as Hg. unfold dict_mem in Hg.
  apply bool_decide_eq_true in Hg as [l Hl]. rewrite Hl.
  now rewrite E.
Qed.

Lemma add_birthday_recovers_witness :
  let s := MkState [MkRecord (MkField "Ann") [MkField "1234567890"] None]
             [("Ann", 0%nat)] in
  is_ok (Birthday_init "31.02.2024") = false
  /\ Handlers.add_birthday ["Ann"; "31.02.2024"] s
     = (Ok "Give me name and phone please.", s).
Proof.
  intros s. split; [reflexivity |].
  apply add_birthday_recovers; reflexivity.
Defined.

(** With every reference of the book allocated, the handler ends with a
    message whatever its arguments are. *)
Lemma add_birthday_total s args :
  keyed s -> exists msg s', Handlers.add_birthday args s = (Ok msg, s').
Proof.
  intros Hk.
  unfold Handlers.add_birthday, input_error.
  destruct (Handlers.add_birthday_func args s) as [[msg | e] s'] eqn:E;
    [eauto | destruct e; eauto; exfalso].
  - (* OverflowError *)
    unfold Handlers.add_birthday_func in E.
    destruct args as [| nm [| bd [| x args]]]; try discriminate.
    unfold contains, getitem, add_birthday, bind, get_data, ret, lift, raise,
      deref, assign in E.
    destruct (dict_mem nm (data s)); [| discriminate].
    destruct (dict_get nm (data s)) as [l |]; [| discriminate].
    destruct (Birthday_init bd) as [b | e] eqn:Eb.
    + destruct (heap s !! l); discriminate.
    + apply Birthday_init_Raise in Eb. subst e. discriminate.
  - (* NoSuchObject *)
    unfold Handlers.add_birthday_func in E.
    destruct args as [| nm [| bd [| x args]]]; try discriminate.
    unfold contains, getitem, add_birthday, bind, get_data, ret, lift, raise,
      deref, assign in E.
    destruct (dict_mem nm (data s)); [| discriminate].
    destruct (dict_get nm (data s)) as [l |] eqn:El; [| discriminate].
    destruct (Birthday_init bd) as [b | e] eqn:Eb.
    + apply dict_get_In, Hk in El as (r & Hr & _).
      rewrite Hr in E. discriminate.
    + apply Birthday_init_Raise in Eb. subst e. discriminate.
Qed.

(** *** The invariant through the handlers *)

Lemma preserves_ret {A} (a : A) : preserves (ret a).
Proof. intros s Hk. exact Hk. Qed.

Lemma preserves_raise {A} e : preserves (@raise A e).
Proof. intros s Hk. exact Hk. Qed.

Lemma preserves_bind {A B} (m : M A) (f : A -> M B) :
  preserves m -> (forall a, preserves (f a)) -> preserves (bind m f).
Proof.
  intros Hm Hf s Hk. unfold bind. specialize (Hm s Hk).
  destruct (m s) as [[a | e] s']; simpl in *; [now apply Hf | exact Hm].
Qed.

Lemma preserves_input_error {A} (func : A -> M string) args :
  preserves (func args) -> preserves (input_error func args).
Proof.
  intros Hf s Hk. unfold input_error. specialize (Hf s Hk).
  destruct (func args s) as [[msg | []] s']; exact Hf.
Qed.

Lemma preserves_op {A} (m : M A) o :
  (forall s, snd (m s) = step o s) -> preserves m.
Proof. intros H s Hk. rewrite H. now apply keyed_op. Qed.

Lemma preserves_add_phone l phone : preserves (add_phone l phone).
Proof. now apply (preserves_op _ (AddPhone l phone)). Qed.

(** The three handlers that change the state keep every entry of the
    mapping under the name of its record. *)
Lemma keyed_handlers args :
  preserves (Handlers.add_contact args)
  /\ preserves (Handlers.change_contact args)
  /\ preserves (Handlers.add_birthday args).
Proof.
  split; [| split]; apply preserves_input_error.
  - unfold Handlers.add_contact_func.
    destruct args as [| nm [| phone args]]; try apply preserves_raise.
    apply preserves_bind; [now apply (preserves_op _ (Find nm)) |].
    intros found. apply preserves_bind.
    + destruct found as [l |]; [apply preserves_ret |].
      apply preserves_bind; [now apply (preserves_op _ (RecordInit nm)) |].
      intros l. apply preserves_bind;
        [now apply (preserves_op _ (AddRecord l)) |].
      intros _. apply preserves_ret.
    + intros rm. apply preserves_bind; [| intros _; apply preserves_ret].
      destruct (truthy phone); [apply preserves_add_phone | apply preserves_ret].
  - unfold Handlers.change_contact_func.
    destruct args as [| nm [| phone args]]; try apply preserves_raise.
    apply preserves_bind; [now apply (preserves_op _ (Find nm)) |].
    intros [l |]; [| apply preserves_ret].
    apply preserves_bind; [| intros _; apply preserves_ret].
    destruct (truthy phone); [apply preserves_add_phone | apply preserves_ret].
  - unfold Handlers.add_birthday_func.
    destruct args as [| nm [| bd [| x args]]]; try apply preserves_raise.
    apply preserves_bind; [intros s Hk; exact Hk |].
    intros [|]; [| apply preserves_ret].
    apply preserves_bind.
    + intros s Hk. unfold getitem, bind, get_data.
      destruct (dict_get nm (data s)); exact Hk.
    + intros l. apply preserves_bind; [| intros _; apply preserves_ret].
      now apply (preserves_op _ (AddBirthday l bd)).
Qed.

(** C7: from a state in which every entry of the mapping refers to a
    record named like its key, every operation of [Record] and of
    [AddressBook] leads to a state of the same kind, and so does every
    handler that changes the state through them. *)
Theorem keyed_preserved s :
  keyed s ->
  (forall o, keyed (step o s))
  /\ (forall args,
        keyed (snd (Handlers.add_contact args s))
        /\ keyed (snd (Handlers.change_contact args s))
        /\ keyed (snd (Handlers.add_birthday args s))).
Proof.
  intros Hk. split.
  - intros o. now apply keyed_op.
  - intros args. destruct (keyed_handlers args) as (Ha & Hc & Hb).
    split; [exact (Ha s Hk) |]. split; [exact (Hc s Hk) | exact (Hb s Hk)].
Qed.

(** A book with one entry; the same name is added once more under a new
    object, and the entry follows. *)
Lemma keyed_preserved_witness :
  let s := MkState [MkRecord (MkField "Ann") [MkField "1234567890"] None;
                    MkRecord (MkField "Ann") [] None]
             [("Ann", 0%nat)] in
  keyed s
  /\ keyed (step (AddRecord 1) s)
  /\ data (step (AddRecord 1) s) = [("Ann", 1%nat)].
Proof.
  intros s.
  assert (Hk : keyed s).
  { intros k l [[= <- <-] | []]. eexists. split; reflexivity. }
  split; [exact Hk |]. split; [| reflexivity].
  exact (proj1 (keyed_preserved s Hk) (AddRecord 1)).
Defined.

(** Beyond the range of the theorem: in the last week of the year 9999
    [datetime] cannot represent the seventh day ahead, and the call ends
    with the [OverflowError] of the addition. *)
Lemma get_upcoming_birthdays_overflow s :
  get_upcoming_birthdays (MkDate 9999 12 25) s = (Raise OverflowError, s).
Proof. reflexivity. Qed.

(** C1, as stated for every date, does not hold: 25 December 9999 is a
    date, the empty book is an address book, and the call returns no
    records there but ends with an [OverflowError], since the seventh day
    ahead is past the last day [datetime] has.  So it is not true that the
    call returns a list for every date and every book. *)
Lemma get_upcoming_birthdays_not_every_date :
  valid_date (MkDate 9999 12 25) = true
  /\ keyed empty_state
  /\ get_upcoming_birthdays (MkDate 9999 12 25) empty_state
     = (Raise OverflowError, empty_state)
  /\ ~ (forall today s,
          valid_date today = true -> keyed s ->
          exists ls, get_upcoming_birthdays today s = (Ok ls, s)).
Proof.
  split; [reflexivity |]. split; [exact keyed_empty |].
  split; [apply get_upcoming_birthdays_overflow |].
  intros H.
  destruct (H (MkDate 9999 12 25) empty_state eq_refl keyed_empty)
    as [ls Hls].
  rewrite get_upcoming_birthdays_overflow in Hls. discriminate Hls.
Qed.

(** * Further properties of the program *)

(** ** Phones of a record *)

Lemma remove_phone_run s self r phone :
  heap s !! self = Some r ->
  remove_phone self phone s =
    (Ok tt,
     MkState
       (<[self :=
            MkRecord (name r)
              (List.filter (fun p => negb (String.eqb (value p) phone))
                 (phones r))
              (birthday r)]> (heap s))
       (data s)).
Proof.
  intros H. unfold remove_phone, bind, deref, assign. rewrite H. reflexivity.
Qed.

Lemma filter_sublist {A} (f : A -> bool) l : sublist (List.filter f l) l.
Proof.
  induction l as [| x l IH]; simpl; [constructor |].
  destruct (f x); now constructor.
Qed.

Lemma filter_all {A} (f : A -> bool) l :
  Forall (fun x => f x = true) l -> List.filter f l = l.
Proof.
  induction 1 as [| x l Hx _ IH]; simpl; [reflexivity |].
  now rewrite Hx, IH.
Qed.

Lemma state_insert_id s self r :
  heap s !! self = Some r -> MkState (<[self := r]> (heap s)) (data s) = s.
Proof.
  intros H. destruct s as [h d]. simpl in *. f_equal.
  now apply list_insert_id.
Qed.

(** X1: [remove_phone] never raises and touches nothing but the phones of
    the record, which become the former list without the phones of the
    given value, every other phone kept in its order and as often as it
    occurred.  A phone stays exactly when its value differs from the
    text given, compared as it is written; the phones that stay keep their
    order; and when no phone has that value the state is the one before
    the call. *)
Theorem remove_phone_spec s self r phone :
  heap s !! self = Some r ->
  exists s' r',
    remove_phone self phone s = (Ok tt, s')
    /\ heap s' !! self = Some r'
    /\ (forall l, l <> self -> heap s' !! l = heap s !! l)
    /\ data s' = data s
    /\ name r' = name r /\ birthday r' = birthday r
    /\ phones r'
       = List.filter (fun p => negb (String.eqb (value p) phone)) (phones r)
    /\ (forall p, In p (phones r') <-> In p (phones r) /\ value p <> phone)
    /\ sublist (phones r') (phones r)
    /\ (Forall (fun p => value p <> phone) (phones r) -> s' = s).
Proof.
  intros H. do 2 eexists. split; [apply (remove_phone_run _ _ _ _ H) |].
  assert (Hlt : (self < length (heap s))%nat) by (eapply lookup_lt_Some; eauto).
  split; [simpl; now apply list_lookup_insert_eq |].
  split; [intros l Hl; simpl; apply list_lookup_insert_ne; congruence |].
  simpl. split; [reflexivity |]. split; [reflexivity |].
  split; [reflexivity |]. split; [reflexivity |]. split; [| split].
  - intros p. rewrite filter_In, negb_true_iff.
    destruct (String.eqb_spec (value p) phone); split; intros [? ?];
      split; congruence.
  - apply filter_sublist.
  - intros Hno. rewrite filter_all.
    + replace (MkRecord (name r) (phones r) (birthday r)) with r
        by now destruct r.
      now apply state_insert_id.
    + eapply Forall_impl; [exact Hno |]. intros p Hp. simpl in Hp.
      apply negb_true_iff. now destruct (String.eqb_spec (value p) phone).
Qed.

(** One number held twice and another one, which is removed: both copies
    of the first stay. *)
Lemma remove_phone_spec_witness :
  let s := MkState [MkRecord (MkField "Ann")
                      [MkField "1111111111"; MkField "1111111111";
                       MkField "2222222222"] None]
             [("Ann", 0%nat)] in
  exists s' r',
    remove_phone 0 "2222222222" s = (Ok tt, s')
    /\ heap s' !! 0%nat = Some r'
    /\ phones r' = [MkField "1111111111"; MkField "1111111111"].
Proof.
  intros s.
  destruct (remove_phone_spec s 0 _ "2222222222" eq_refl)
    as (s' & r' & Hrun & Hr' & _ & _ & _ & _ & Hphones & _).
  exists s', r'. split; [exact Hrun |]. split; [exact Hr' |]. exact Hphones.
Defined.

(** X2: a phone that is added to a record which did not hold it, and then
    removed, leaves the state as it was. *)
Theorem add_then_remove_phone s self r phone :
  heap s !! self = Some r ->
  validate_phone phone = true ->
  Forall (fun p => value p <> phone) (phones r) ->
  (add_phone self phone ;; remove_phone self phone) s = (Ok tt, s).
Proof.
  intros H Hv Hno.
  assert (Hlt : (self < length (heap s))%nat) by (eapply lookup_lt_Some; eauto).
  rewrite (bind_ok _ _ s tt _ (add_phone_valid s self r phone Hv H)).
  erewrite remove_phone_run
    by (simpl; now apply list_lookup_insert_eq).
  simpl. rewrite list_insert_insert_eq.
  rewrite List.filter_app. simpl. rewrite String.eqb_refl. simpl.
  rewrite app_nil_r, filter_all.
  - replace (MkRecord (name r) (phones r) (birthday r)) with r
      by now destruct r.
    now rewrite state_insert_id.
  - eapply Forall_impl; [exact Hno |]. intros p Hp. simpl in Hp.
    apply negb_true_iff. now destruct (String.eqb_spec (value p) phone).
Qed.

Lemma add_then_remove_phone_witness :
  let s := MkState [MkRecord (MkField "Ann") [MkField "1111111111"] None]
             [("Ann", 0%nat)] in
  (add_phone 0 "2222222222" ;; remove_phone 0 "2222222222") s = (Ok tt, s).
Proof.
  intros s. apply (add_then_remove_phone s 0 _ "2222222222" eq_refl eq_refl).
  repeat constructor. discriminate.
Defined.

(** Lowering changes no character below the capital letters. *)
Lemma lower_char_low c d :
  lower_char c = d -> (code d < 65)%N -> c = d.
Proof.
  unfold lower_char. intros H Hd.
  destruct ((65 <=? code c) && (code c <=? 90)
            || (192 <=? code c) && (code c <=? 222)
               && negb (code c =? 215))%N eqn:E; [| exact H].
  exfalso. subst d. unfold code in Hd at 1.
  assert (Hc : (code c <= 222)%N).
  { rewrite orb_true_iff, !andb_true_iff, !N.leb_le in E. lia. }
  assert (Hc' : (65 <= code c)%N).
  { rewrite orb_true_iff, !andb_true_iff, !N.leb_le in E. lia. }
  rewrite N_ascii_embedding in Hd by lia. lia.
Qed.

Lemma map_lower_low l l' :
  map lower_char l = l' -> Forall (fun d => (code d < 65)%N) l' -> l = l'.
Proof.
  revert l'. induction l as [| c l IH]; intros [| d l'] H Hl;
    try discriminate; [reflexivity |].
  injection H as Hc Hrest. apply Forall_cons in Hl as [Hd Hl].
  f_equal; [now apply lower_char_low | now apply IH].
Qed.

(** A text that passes [validate_phone] has digits and at most a line
    feed, which lowering leaves alone; a stored value that lowers to such
    a text is that text. *)
Lemma valid_phone_low phone :
  validate_phone phone = true ->
  Forall (fun d => (code d < 65)%N) (chars phone).
Proof.
  intros H. apply validate_phone_true in H
    as (ds & tl & -> & _ & Hd & Htl).
  apply Forall_app. split.
  - eapply Forall_impl; [exact Hd |]. intros c Hc. simpl in Hc.
    apply in_range_bounds in Hc. simpl in Hc. lia.
  - destruct Htl as [-> | ->]; repeat constructor.
Qed.

Lemma lower_valid_phone phone :
  validate_phone phone = true -> lower phone = phone.
Proof.
  intros H. apply valid_phone_low in H. unfold lower.
  rewrite <- (str_chars phone) at 2. f_equal.
  induction H as [| c l Hc _ IH]; simpl; [reflexivity |].
  rewrite IH. f_equal. unfold lower_char.
  destruct ((65 <=? code c) && (code c <=? 90)
            || (192 <=? code c) && (code c <=? 222)
               && negb (code c =? 215))%N eqn:E; [| reflexivity].
  rewrite orb_true_iff, !andb_true_iff, !N.leb_le in E. lia.
Qed.

Lemma same_lower_valid phone p :
  validate_phone phone = true ->
  same_lower phone p = true -> value p = phone.
Proof.
  intros Hv H. apply same_lower_iff in H.
  rewrite (lower_valid_phone phone Hv) in H. unfold lower in H.
  apply chars_inj, map_lower_low; [| now apply valid_phone_low].
  rewrite <- H. now rewrite chars_str.
Qed.

(** X3: after [add_phone] has accepted a text, [find_phone] with the same
    text returns a phone whose stored value is exactly that text. *)
Theorem add_then_find_phone s self r phone :
  heap s !! self = Some r ->
  validate_phone phone = true ->
  exists s' p,
    add_phone self phone s = (Ok tt, s')
    /\ find_phone self phone s' = (Ok (Some p), s')
    /\ value p = phone.
Proof.
  intros H Hv.
  assert (Hlt : (self < length (heap s))%nat) by (eapply lookup_lt_Some; eauto).
  eexists. 
  destruct (List.find (same_lower phone) (phones r ++ [MkField phone]))
    as [p |] eqn:Ef.
  - exists p. split; [apply (add_phone_valid s self r phone Hv H) |].
    split.
    + erewrite find_phone_run by (simpl; now apply list_lookup_insert_eq).
      simpl. now rewrite Ef.
    + apply find_some in Ef as [_ Hp]. now apply same_lower_valid.
  - exfalso.
    assert (Hin : In (MkField phone) (phones r ++ [MkField phone]))
      by (apply in_or_app; right; now left).
    pose proof (find_none _ _ Ef _ Hin) as Hf.
    rewrite same_lower_new in Hf. discriminate.
Qed.

Lemma add_then_find_phone_witness :
  let s := MkState [MkRecord (MkField "Ann") [MkField "1111111111"] None]
             [("Ann", 0%nat)] in
  exists s' p,
    add_phone 0 "2222222222" s = (Ok tt, s')
    /\ find_phone 0 "2222222222" s' = (Ok (Some p), s')
    /\ value p = "2222222222".
Proof.
  intros s.
  exact (add_then_find_phone s 0 _ "2222222222" eq_refl eq_refl).
Defined.

(** ** The birthday of a record *)

Lemma add_birthday_valid_run s self r bd :
  heap s !! self = Some r ->
  is_ok (Birthday_init bd) = true ->
  add_birthday self bd s
  = (Ok tt,
     MkState (<[self := MkRecord (name r) (phones r) (Some (MkField bd))]>
                (heap s)) (data s)).
Proof.
  intros H Hb. unfold add_birthday, bind, lift, deref, assign.
  destruct (Birthday_init bd) as [b | e] eqn:E; [| discriminate].
  apply Birthday_init_Ok_iff in E as [-> _]. now rewrite H.
Qed.

(** X4: [Record.add_birthday] with a text that [Birthday] accepts stores
    that text as the birthday, whatever birthday was there before, and
    keeps the name and the phones; with a text that [Birthday] rejects it
    raises [ValueError] and the state is the one before the call. *)
Theorem add_birthday_spec s self r bd :
  heap s !! self = Some r ->
  (is_ok (Birthday_init bd) = true ->
   exists s',
     add_birthday self bd s = (Ok tt, s')
     /\ heap s' !! self
        = Some (MkRecord (name r) (phones r) (Some (MkField bd)))
     /\ data s' = data s
     /\ (forall l, l <> self -> heap s' !! l = heap s !! l))
  /\ (is_ok (Birthday_init bd) = false ->
      add_birthday self bd s = (Raise ValueError, s)).
Proof.
  intros H.
  assert (Hlt : (self < length (heap s))%nat) by (eapply lookup_lt_Some; eauto).
  unfold add_birthday, bind, lift, deref, assign.
  destruct (Birthday_init bd) as [b | e] eqn:E; simpl; split;
    try discriminate.
  - intros _. apply Birthday_init_Ok_iff in E as [-> _]. rewrite H.
    eexists. split; [reflexivity |]. simpl.
    split; [now apply list_lookup_insert_eq |]. split; [reflexivity |].
    intros l Hl. now apply list_lookup_insert_ne.
  - intros _. now rewrite (Birthday_init_Raise _ _ E).
Qed.

(** A birthday is replaced by another one. *)
Lemma add_birthday_spec_witness :
  let s := MkState [MkRecord (MkField "Ann") [MkField "1111111111"]
                      (Some (MkField "01.01.1990"))] [("Ann", 0%nat)] in
  exists s',
    add_birthday 0 "17.03.1990" s = (Ok tt, s')
    /\ heap s' !! 0%nat
       = Some (MkRecord (MkField "Ann") [MkField "1111111111"]
                 (Some (MkField "17.03.1990"))).
Proof.
  intros s.
  destruct (proj1 (add_birthday_spec s 0 _ "17.03.1990" eq_refl) eq_refl)
    as (s' & Hrun & Hr & _).
  exists s'. split; [exact Hrun | exact Hr].
Defined.

(** ** Entries of the book *)

Lemma dict_del_set_fresh k v d :
  ~ In k (dict_keys d) -> dict_del k (dict_set k v d) = d.
Proof.
  induction d as [| [k0 v0] d IH]; simpl; intros Hn.
  - now rewrite String.eqb_refl.
  - destruct (String.eqb_spec k k0) as [-> | Hk]; [tauto |].
    simpl. destruct (String.eqb_spec k k0); [contradiction |].
    f_equal. apply IH. tauto.
Qed.

(** X5: a record added under a name that was not a key, and deleted
    again, leaves the state as it was. *)
Theorem add_record_then_delete s rec r :
  heap s !! rec = Some r ->
  ~ In (value (name r)) (dict_keys (data s)) ->
  (add_record rec ;; delete (value (name r))) s = (Ok tt, s).
Proof.
  intros H Hn.
  rewrite (bind_ok _ _ s tt _ (add_record_run rec r s H)).
  rewrite delete_run. simpl.
  replace (dict_mem (value (name r))
             (dict_set (value (name r)) rec (data s))) with true.
  - rewrite dict_del_set_fresh by exact Hn. now destruct s.
  - symmetry. unfold dict_mem. rewrite dict_set_get_same.
    now apply bool_decide_eq_true.
Qed.

Lemma add_record_then_delete_witness :
  let s := MkState [MkRecord (MkField "Ann") [] None;
                    MkRecord (MkField "Bob") [] None]
             [("Ann", 0%nat)] in
  (add_record 1 ;; delete "Bob") s = (Ok tt, s).
Proof.
  intros s. apply (add_record_then_delete s 1 _ eq_refl).
  simpl. intros [H | []]. discriminate.
Defined.

(** ** The handlers that change the book *)

Lemma input_error_Ok {A} (func : A -> M string) args s msg s' :
  func args s = (Ok msg, s') -> input_error func args s = (Ok msg, s').
Proof. intros H. unfold input_error. now rewrite H. Qed.

Lemma input_error_ValueError {A} (func : A -> M string) args s s' :
  func args s = (Raise ValueError, s') ->
  input_error func args s = (Ok "Give me name and phone please.", s').
Proof. intros H. unfold input_error. now rewrite H. Qed.

Lemma bind_Raise {A B} (m : M A) (f : A -> M B) s e s' :
  m s = (Raise e, s') -> bind m f s = (Raise e, s').
Proof. intros H. unfold bind. now rewrite H. Qed.

Lemma deref_run s l r : heap s !! l = Some r -> deref l s = (Ok r, s).
Proof. intros H. unfold deref. now rewrite H. Qed.

Lemma contains_run nm s : contains nm s = (Ok (dict_mem nm (data s)), s).
Proof. reflexivity. Qed.

Lemma getitem_run nm s l :
  dict_get nm (data s) = Some l -> getitem nm s = (Ok l, s).
Proof. intros H. unfold getitem, bind, get_data, ret. now rewrite H. Qed.

Lemma validate_phone_truthy phone :
  validate_phone phone = true -> truthy phone = true.
Proof.
  intros H. unfold truthy. destruct (String.eqb_spec phone "") as [-> | Hne];
    [discriminate H | reflexivity].
Qed.

Lemma add_phone_invalid_run s self phone :
  validate_phone phone = false ->
  add_phone self phone s = (Raise ValueError, s).
Proof.
  intros H. unfold add_phone, bind, lift, Phone_init. now rewrite H.
Qed.

Lemma create_contact_run s nm :
  (do l <- Record_init nm; add_record l ;; ret (l, "Contact added.")) s
  = (Ok (length (heap s), "Contact added."), with_new_contact s nm []).
Proof.
  unfold bind, Record_init, add_record, deref, get_data, set_data, ret,
    with_new_contact, bind. simpl.
  rewrite lookup_app_r, Nat.sub_diag by lia. reflexivity.
Qed.

Lemma with_new_contact_lookup s nm ps :
  heap (with_new_contact s nm ps) !! length (heap s)
  = Some (MkRecord (MkField nm) ps None).
Proof.
  unfold with_new_contact. simpl.
  rewrite lookup_app_r, Nat.sub_diag by lia. reflexivity.
Qed.

Lemma with_new_contact_old s nm ps l r :
  heap s !! l = Some r -> heap (with_new_contact s nm ps) !! l = Some r.
Proof.
  intros H. unfold with_new_contact. simpl.
  rewrite lookup_app_l; [exact H | eapply lookup_lt_Some; eauto].
Qed.

Lemma add_phone_new_contact s nm phone :
  validate_phone phone = true ->
  add_phone (length (heap s)) phone (with_new_contact s nm [])
  = (Ok tt, with_new_contact s nm [MkField phone]).
Proof.
  intros Hv.
  rewrite (add_phone_valid _ _ _ _ Hv (with_new_contact_lookup s nm [])).
  unfold with_new_contact. simpl. f_equal. f_equal.
  replace (length (heap s)) with (length (heap s) + 0)%nat at 1 by lia.
  now rewrite insert_app_r.
Qed.

Lemma add_contact_new_run s nm phone more :
  dict_get nm (data s) = None ->
  validate_phone phone = true ->
  Handlers.add_contact (nm :: phone :: more) s
  = (Ok "Contact added.", with_new_contact s nm [MkField phone]).
Proof.
  intros Hg Hv. apply input_error_Ok. unfold Handlers.add_contact_func.
  rewrite (bind_ok _ _ s None s) by (rewrite find_run; now rewrite Hg).
  rewrite (bind_ok _ _ _ _ _ (create_contact_run s nm)).
  rewrite (validate_phone_truthy _ Hv). simpl fst. simpl snd.
  now rewrite (bind_ok _ _ _ tt _ (add_phone_new_contact s nm phone Hv)).
Qed.

(** X6: [add_contact] with a name that is not in the book and a phone
    that [Phone] accepts answers "Contact added."; afterwards the name
    leads to a new record with that name, that one phone and no birthday,
    every other name leads where it led before, and the records that
    existed are untouched. *)
Theorem add_contact_new s nm phone more :
  dict_get nm (data s) = None ->
  validate_phone phone = true ->
  exists s' l,
    Handlers.add_contact (nm :: phone :: more) s = (Ok "Contact added.", s')
    /\ find nm s' = (Ok (Some l), s')
    /\ heap s' !! l = Some (MkRecord (MkField nm) [MkField phone] None)
    /\ (forall k, k <> nm -> fst (find k s') = fst (find k s))
    /\ (forall l' r', heap s !! l' = Some r' -> heap s' !! l' = Some r').
Proof.
  intros Hg Hv.
  exists (with_new_contact s nm [MkField phone]), (length (heap s)).
  split.
  - now apply add_contact_new_run.
  - rewrite !find_run. simpl. rewrite dict_set_get_same.
    split; [reflexivity |]. split; [apply with_new_contact_lookup |].
    split.
    + intros k Hk. now rewrite dict_set_get_other.
    + intros l' r'. apply with_new_contact_old.
Qed.

Lemma add_contact_new_witness :
  exists s' l,
    Handlers.add_contact ["Ann"; "1234567890"] empty_state
    = (Ok "Contact added.", s')
    /\ find "Ann" s' = (Ok (Some l), s')
    /\ heap s' !! l = Some (MkRecord (MkField "Ann") [MkField "1234567890"]
                              None).
Proof.
  destruct (add_contact_new empty_state "Ann" "1234567890" [] eq_refl eq_refl)
    as (s' & l & Hrun & Hf & Hr & _).
  exists s', l. auto.
Defined.

(** X7: [add_contact] with a name that is not in the book and a phone
    that [Phone] rejects answers with the message for a [ValueError], and
    yet the contact has been created: the name now leads to a record
    without phones.  The record is put into the book before the phone is
    checked. *)
Theorem add_contact_new_bad_phone s nm phone more :
  dict_get nm (data s) = None ->
  truthy phone = true ->
  validate_phone phone = false ->
  exists s' l,
    Handlers.add_contact (nm :: phone :: more) s
    = (Ok "Give me name and phone please.", s')
    /\ find nm s' = (Ok (Some l), s')
    /\ heap s' !! l = Some (MkRecord (MkField nm) [] None)
    /\ (forall k, k <> nm -> fst (find k s') = fst (find k s)).
Proof.
  intros Hg Ht Hv.
  exists (with_new_contact s nm []), (length (heap s)).
  split.
  - apply input_error_ValueError. unfold Handlers.add_contact_func.
    rewrite (bind_ok _ _ s None s) by (rewrite find_run; now rewrite Hg).
    rewrite (bind_ok _ _ _ _ _ (create_contact_run s nm)).
    rewrite Ht. simpl fst. simpl snd.
    apply bind_Raise. now apply add_phone_invalid_run.
  - rewrite !find_run. simpl. rewrite dict_set_get_same.
    split; [reflexivity |]. split; [apply with_new_contact_lookup |].
    intros k Hk. now rewrite dict_set_get_other.
Qed.

Lemma add_contact_new_bad_phone_witness :
  exists s' l,
    Handlers.add_contact ["Bob"; "12"] empty_state
    = (Ok "Give me name and phone please.", s')
    /\ find "Bob" s' = (Ok (Some l), s')
    /\ heap s' !! l = Some (MkRecord (MkField "Bob") [] None).
Proof.
  destruct (add_contact_new_bad_phone empty_state "Bob" "12" []
              eq_refl eq_refl eq_refl)
    as (s' & l & Hrun & Hf & Hr & _).
  exists s', l. auto.
Defined.

(** X8: [add_contact] with a name that is in the book.  With a phone that
    [Phone] accepts it answers "Contact updated." and the phone is
    appended to the phones of the record, the book being otherwise as
    before; with a phone that [Phone] rejects it answers with the message
    for a [ValueError] and the state is the one before the call. *)
Theorem add_contact_existing s nm phone more l r :
  dict_get nm (data s) = Some l ->
  heap s !! l = Some r ->
  (validate_phone phone = true ->
   Handlers.add_contact (nm :: phone :: more) s
   = (Ok "Contact updated.",
      MkState (<[l := MkRecord (name r) (phones r ++ [MkField phone])
                        (birthday r)]> (heap s)) (data s)))
  /\ (truthy phone = true -> validate_phone phone = false ->
      Handlers.add_contact (nm :: phone :: more) s
      = (Ok "Give me name and phone please.", s)).
Proof.
  intros Hg Hr. split.
  - intros Hv. apply input_error_Ok. unfold Handlers.add_contact_func.
    rewrite (bind_ok _ _ s (Some l) s) by (rewrite find_run; now rewrite Hg).
    rewrite (bind_ok _ _ s (l, "Contact updated.") s) by reflexivity.
    rewrite (validate_phone_truthy _ Hv). simpl fst. simpl snd.
    now rewrite (bind_ok _ _ _ tt _ (add_phone_valid s l r phone Hv Hr)).
  - intros Ht Hv. apply input_error_ValueError.
    unfold Handlers.add_contact_func.
    rewrite (bind_ok _ _ s (Some l) s) by (rewrite find_run; now rewrite Hg).
    rewrite (bind_ok _ _ s (l, "Contact updated.") s) by reflexivity.
    rewrite Ht. simpl fst. apply bind_Raise. now apply add_phone_invalid_run.
Qed.

Lemma add_contact_existing_witness :
  let s := MkState [MkRecord (MkField "Ann") [MkField "1111111111"] None]
             [("Ann", 0%nat)] in
  Handlers.add_contact ["Ann"; "2222222222"] s
  = (Ok "Contact updated.",
     MkState [MkRecord (MkField "Ann")
                [MkField "1111111111"; MkField "2222222222"] None]
       [("Ann", 0%nat)])
  /\ Handlers.add_contact ["Ann"; "22"] s
     = (Ok "Give me name and phone please.", s).
Proof.
  intros s.
  destruct (add_contact_existing s "Ann" "2222222222" [] 0 _ eq_refl eq_refl)
    as [Hgood _].
  destruct (add_contact_existing s "Ann" "22" [] 0 _ eq_refl eq_refl)
    as [_ Hbad].
  split; [exact (Hgood eq_refl) | exact (Hbad eq_refl eq_refl)].
Defined.

(** X9: [change_contact] does not replace a phone, it appends one.  For a
    name in the book and a phone that [Phone] accepts it answers
    "Contact updated: name - phone" and the phone is appended to the
    phones the record had; with a phone that [Phone] rejects the state is
    unchanged; for a name that is not in the book it answers
    "Contact not found: name" and the state is unchanged, whatever the
    phone is. *)
Theorem change_contact_spec s nm phone more :
  (forall l r,
     dict_get nm (data s) = Some l -> heap s !! l = Some r ->
     (validate_phone phone = true ->
      Handlers.change_contact (nm :: phone :: more) s
      = (Ok ("Contact updated: " ++ nm ++ " - " ++ phone),
         MkState (<[l := MkRecord (name r) (phones r ++ [MkField phone])
                           (birthday r)]> (heap s)) (data s)))
     /\ (truthy phone = true -> validate_phone phone = false ->
         Handlers.change_contact (nm :: phone :: more) s
         = (Ok "Give me name and phone please.", s)))
  /\ (dict_get nm (data s) = None ->
      Handlers.change_contact (nm :: phone :: more) s
      = (Ok ("Contact not found: " ++ nm), s)).
Proof.
  split.
  - intros l r Hg Hr. split.
    + intros Hv. apply input_error_Ok. unfold Handlers.change_contact_func.
      rewrite (bind_ok _ _ s (Some l) s) by (rewrite find_run; now rewrite Hg).
      rewrite (validate_phone_truthy _ Hv).
      now rewrite (bind_ok _ _ _ tt _ (add_phone_valid s l r phone Hv Hr)).
    + intros Ht Hv. apply input_error_ValueError.
      unfold Handlers.change_contact_func.
      rewrite (bind_ok _ _ s (Some l) s) by (rewrite find_run; now rewrite Hg).
      rewrite Ht. apply bind_Raise. now apply add_phone_invalid_run.
  - intros Hg. apply input_error_Ok. unfold Handlers.change_contact_func.
    now rewrite (bind_ok _ _ s None s) by (rewrite find_run; now rewrite Hg).
Qed.

(** X10: too few or too many arguments.  [add_contact] and
    [change_contact] with fewer than two arguments, and [add_birthday]
    with a number of arguments other than two, answer with the message
    for a [ValueError]; [show_phone] and [show_birthday] without arguments
    answer with the message for an [IndexError].  The state is unchanged
    in every case. *)
Theorem wrong_argument_count s args :
  ((length args < 2)%nat ->
   Handlers.add_contact args s = (Ok "Give me name and phone please.", s)
   /\ Handlers.change_contact args s
      = (Ok "Give me name and phone please.", s))
  /\ (length args <> 2%nat ->
      Handlers.add_birthday args s
      = (Ok "Give me name and phone please.", s))
  /\ (args = [] ->
      show_phone args s
      = (Ok "Incomplete command. Please provide necessary arguments.", s)
      /\ show_birthday args s
         = (Ok "Incomplete command. Please provide necessary arguments.", s)).
Proof.
  split; [| split].
  - intros Hlen. destruct args as [| a [| b args]]; simpl in Hlen;
      try lia; split; reflexivity.
  - intros Hlen. destruct args as [| a [| b [| c args]]]; simpl in Hlen;
      try lia; reflexivity.
  - intros ->. split; reflexivity.
Qed.

Lemma wrong_argument_count_witness :
  Handlers.add_contact ["Ann"] empty_state
  = (Ok "Give me name and phone please.", empty_state)
  /\ Handlers.add_birthday ["Ann"; "01.01.2000"; "x"] empty_state
     = (Ok "Give me name and phone please.", empty_state).
Proof.
  destruct (wrong_argument_count empty_state ["Ann"]) as [H1 _].
  destruct (wrong_argument_count empty_state ["Ann"; "01.01.2000"; "x"])
    as (_ & H2 & _).
  split; [apply H1; simpl; lia | apply H2; simpl; lia].
Defined.

Lemma change_contact_spec_witness :
  let s := MkState [MkRecord (MkField "Ann") [MkField "1111111111"] None]
             [("Ann", 0%nat)] in
  Handlers.change_contact ["Ann"; "2222222222"] s
  = (Ok "Contact updated: Ann - 2222222222",
     MkState [MkRecord (MkField "Ann")
                [MkField "1111111111"; MkField "2222222222"] None]
       [("Ann", 0%nat)])
  /\ Handlers.change_contact ["Bob"; "2222222222"] s
     = (Ok "Contact not found: Bob", s).
Proof.
  intros s.
  destruct (change_contact_spec s "Ann" "2222222222" []) as [Hin _].
  destruct (change_contact_spec s "Bob" "2222222222" []) as [_ Hout].
  split; [exact (proj1 (Hin 0%nat _ eq_refl eq_refl) eq_refl) |].
  exact (Hout eq_refl).
Defined.

(** ** The handlers that show the book *)

Lemma reads_only_ret {A} (a : A) : reads_only (ret a).
Proof. intros s. reflexivity. Qed.

Lemma reads_only_raise {A} e : reads_only (@raise A e).
Proof. intros s. reflexivity. Qed.

Lemma reads_only_bind {A B} (m : M A) (f : A -> M B) :
  reads_only m -> (forall a, reads_only (f a)) -> reads_only (bind m f).
Proof.
  intros Hm Hf s. unfold bind. specialize (Hm s).
  destruct (m s) as [[a | e] s']; simpl in *; subst; [apply Hf | reflexivity].
Qed.

Lemma reads_only_deref l : reads_only (deref l).
Proof. intros s. unfold deref. now destruct (heap s !! l). Qed.

Lemma reads_only_get_data : reads_only get_data.
Proof. intros s. reflexivity. Qed.

Lemma reads_only_getitem nm : reads_only (getitem nm).
Proof.
  apply reads_only_bind; [apply reads_only_get_data |].
  intros d. destruct (dict_get nm d);
    [apply reads_only_ret | apply reads_only_raise].
Qed.

Lemma reads_only_str_of l : reads_only (str_of l).
Proof.
  apply reads_only_bind; [apply reads_only_deref |].
  intros r. apply reads_only_ret.
Qed.

Lemma reads_only_for_each {A B} (f : A -> M B) xs :
  (forall x, reads_only (f x)) -> reads_only (for_each f xs).
Proof.
  intros Hf. induction xs as [| x xs IH]; simpl; [apply reads_only_ret |].
  apply reads_only_bind; [apply Hf |]. intros y.
  apply reads_only_bind; [exact IH |]. intros ys. apply reads_only_ret.
Qed.

Lemma reads_only_input_error {A} (func : A -> M string) args :
  reads_only (func args) -> reads_only (input_error func args).
Proof.
  intros Hf s. unfold input_error. specialize (Hf s).
  destruct (func args s) as [[msg | []] s']; exact Hf.
Qed.

Lemma reads_only_show_phone args : reads_only (show_phone args).
Proof.
  apply reads_only_input_error.
  unfold show_phone_func. destruct args as [| nm args];
    [apply reads_only_raise |].
  apply reads_only_bind; [intros s; reflexivity |].
  intros [|]; [| apply reads_only_ret].
  apply reads_only_bind; [apply reads_only_getitem |]. intros l.
  apply reads_only_bind; [apply reads_only_str_of |]. intros txt.
  apply reads_only_ret.
Qed.

Lemma reads_only_show_all args : reads_only (show_all args).
Proof.
  apply reads_only_input_error. unfold show_all_func.
  apply reads_only_bind; [apply reads_only_get_data |]. intros d.
  destruct (negb (length d =? 0)%nat); [| apply reads_only_ret].
  apply reads_only_bind; [| intros lines; apply reads_only_ret].
  apply reads_only_for_each. intros kv.
  apply reads_only_bind; [apply reads_only_str_of |]. intros txt.
  apply reads_only_ret.
Qed.

Lemma reads_only_show_birthday args : reads_only (show_birthday args).
Proof.
  apply reads_only_input_error.
  unfold show_birthday_func. destruct args as [| nm args];
    [apply reads_only_raise |].
  apply reads_only_bind; [intros s; reflexivity |].
  intros [|]; [| apply reads_only_ret].
  apply reads_only_bind; [apply reads_only_getitem |]. intros l.
  apply reads_only_bind; [apply reads_only_deref |]. intros r.
  destruct (birthday r); [| apply reads_only_ret].
  apply reads_only_bind; [apply reads_only_getitem |]. intros l'.
  apply reads_only_bind; [apply reads_only_deref |]. intros r'.
  apply reads_only_ret.
Qed.

Lemma reads_only_birthdays now args : reads_only (birthdays now args).
Proof.
  apply reads_only_input_error. unfold birthdays_func.
  apply reads_only_bind; [intros s; apply get_upcoming_birthdays_state |].
  intros [| l ls]; [apply reads_only_ret |].
  apply reads_only_bind; [| intros txts; apply reads_only_ret].
  apply reads_only_for_each. intros x. apply reads_only_str_of.
Qed.

(** X11: [show_phone], [show_all], [show_birthday] and [birthdays] leave
    the state exactly as they found it, for all arguments and all states,
    whether they answer or fail. *)
Theorem show_handlers_read_only now args :
  reads_only (show_phone args)
  /\ reads_only (show_all args)
  /\ reads_only (show_birthday args)
  /\ reads_only (birthdays now args).
Proof.
  split; [apply reads_only_show_phone |].
  split; [apply reads_only_show_all |].
  split; [apply reads_only_show_birthday | apply reads_only_birthdays].
Qed.

Lemma str_of_run s l r : heap s !! l = Some r -> str_of l s = (Ok (Record_str r), s).
Proof. intros H. unfold str_of, bind, deref, ret. now rewrite H. Qed.

Lemma dict_mem_get k d l : dict_get k d = Some l -> dict_mem k d = true.
Proof. intros H. unfold dict_mem. rewrite H. now apply bool_decide_eq_true. Qed.

Lemma dict_mem_get_None k d : dict_get k d = None -> dict_mem k d = false.
Proof.
  intros H. unfold dict_mem. rewrite H. apply bool_decide_eq_false.
  intros [x Hx]. discriminate.
Qed.

Lemma show_phone_run s nm more l r :
  dict_get nm (data s) = Some l -> heap s !! l = Some r ->
  show_phone (nm :: more) s
  = (Ok (nm ++ "'s phone number: " ++ Record_str r), s).
Proof.
  intros Hg Hr. apply input_error_Ok. unfold show_phone_func.
  rewrite (bind_ok _ _ s true s)
    by (rewrite contains_run; now rewrite (dict_mem_get _ _ _ Hg)).
  rewrite (bind_ok _ _ s l s) by now apply getitem_run.
  now rewrite (bind_ok _ _ s _ s (str_of_run s l r Hr)).
Qed.

Lemma show_birthday_run s nm more l r :
  dict_get nm (data s) = Some l -> heap s !! l = Some r ->
  show_birthday (nm :: more) s
  = (Ok match birthday r with
        | Some b => nm ++ "'s birthday: " ++ value b
        | None => "No birthday found for " ++ nm ++ "."
        end, s).
Proof.
  intros Hg Hr. apply input_error_Ok. unfold show_birthday_func.
  rewrite (bind_ok _ _ s true s)
    by (rewrite contains_run; now rewrite (dict_mem_get _ _ _ Hg)).
  rewrite (bind_ok _ _ s l s) by now apply getitem_run.
  rewrite (bind_ok _ _ s r s) by now apply deref_run.
  destruct (birthday r) as [b |] eqn:Eb; [| reflexivity].
  rewrite (bind_ok _ _ s l s) by now apply getitem_run.
  rewrite (bind_ok _ _ s r s) by now apply deref_run.
  now rewrite Eb.
Qed.

(** X12: a name that is not in the book.  [show_phone] answers
    "Contact not found: name", and [show_birthday] and [add_birthday]
    answer "Contact name not found."; none of them raises and none changes
    the state, whatever the further arguments are. *)
Theorem missing_contact s nm :
  dict_get nm (data s) = None ->
  (forall more, show_phone (nm :: more) s
                = (Ok ("Contact not found: " ++ nm), s))
  /\ (forall more, show_birthday (nm :: more) s
                   = (Ok ("Contact " ++ nm ++ " not found."), s))
  /\ (forall bd, Handlers.add_birthday [nm; bd] s
                 = (Ok ("Contact " ++ nm ++ " not found."), s)).
Proof.
  intros Hg. apply dict_mem_get_None in Hg.
  split; [| split]; intros x; apply input_error_Ok.
  - unfold show_phone_func.
    now rewrite (bind_ok _ _ s false s) by (rewrite contains_run; now rewrite Hg).
  - unfold show_birthday_func.
    now rewrite (bind_ok _ _ s false s) by (rewrite contains_run; now rewrite Hg).
  - unfold Handlers.add_birthday_func.
    now rewrite (bind_ok _ _ s false s) by (rewrite contains_run; now rewrite Hg).
Qed.

Lemma missing_contact_witness :
  show_phone ["Ann"] empty_state = (Ok "Contact not found: Ann", empty_state)
  /\ Handlers.add_birthday ["Ann"; "01.01.2000"] empty_state
     = (Ok "Contact Ann not found.", empty_state).
Proof.
  destruct (missing_contact empty_state "Ann" eq_refl) as (H1 & _ & H3).
  split; [apply H1 | apply H3].
Defined.

(** X13: a birthday that the [add_birthday] handler has stored is the one
    [show_birthday] prints.  For a name in the book and a text that
    [Birthday] accepts, [add_birthday] answers "Birthday added for name."
    and [show_birthday] then answers "name's birthday: " followed by the
    text as it was given. *)
Theorem add_then_show_birthday s nm bd more l r :
  dict_get nm (data s) = Some l ->
  heap s !! l = Some r ->
  is_ok (Birthday_init bd) = true ->
  exists s',
    Handlers.add_birthday [nm; bd] s
    = (Ok ("Birthday added for " ++ nm ++ "."), s')
    /\ show_birthday (nm :: more) s'
       = (Ok (nm ++ "'s birthday: " ++ bd), s').
Proof.
  intros Hg Hr Hb.
  pose proof (add_birthday_valid_run s l r bd Hr Hb) as Hrun.
  assert (Hlt : (l < length (heap s))%nat) by (eapply lookup_lt_Some; eauto).
  eexists. split.
  - apply input_error_Ok. unfold Handlers.add_birthday_func.
    rewrite (bind_ok _ _ s true s)
      by (rewrite contains_run; now rewrite (dict_mem_get _ _ _ Hg)).
    rewrite (bind_ok _ _ s l s) by now apply getitem_run.
    now rewrite (bind_ok _ _ s tt _ Hrun).
  - rewrite (show_birthday_run _ nm more l
               (MkRecord (name r) (phones r) (Some (MkField bd))));
      [reflexivity | exact Hg | simpl; now apply list_lookup_insert_eq].
Qed.

Lemma add_then_show_birthday_witness :
  let s := MkState [MkRecord (MkField "Ann") [] None] [("Ann", 0%nat)] in
  exists s',
    Handlers.add_birthday ["Ann"; "17.03.1990"] s
    = (Ok "Birthday added for Ann.", s')
    /\ show_birthday ["Ann"] s' = (Ok "Ann's birthday: 17.03.1990", s').
Proof.
  intros s.
  exact (add_then_show_birthday s "Ann" "17.03.1990" [] 0 _
           eq_refl eq_refl eq_refl).
Defined.

Lemma append_empty s : s ++ "" = s.
Proof. induction s as [| c s IH]; simpl; [reflexivity | now rewrite IH]. Qed.

(** X14: a contact that [add_contact] has just created is shown by
    [show_phone] as the whole record: "name's phone number: " followed by
    "Contact name: name, phones: phone". *)
Theorem add_contact_then_show_phone s nm phone more more' :
  dict_get nm (data s) = None ->
  validate_phone phone = true ->
  exists s',
    Handlers.add_contact (nm :: phone :: more) s = (Ok "Contact added.", s')
    /\ show_phone (nm :: more') s'
       = (Ok (nm ++ "'s phone number: Contact name: " ++ nm
              ++ ", phones: " ++ phone), s').
Proof.
  intros Hg Hv. eexists. split; [now apply add_contact_new_run |].
  rewrite (show_phone_run _ nm more' (length (heap s))
             (MkRecord (MkField nm) [MkField phone] None)).
  - unfold Record_str. simpl. now rewrite append_empty.
  - simpl. apply dict_set_get_same.
  - apply with_new_contact_lookup.
Qed.

Lemma add_contact_then_show_phone_witness :
  exists s',
    Handlers.add_contact ["Ann"; "1234567890"] empty_state
    = (Ok "Contact added.", s')
    /\ show_phone ["Ann"] s'
       = (Ok "Ann's phone number: Contact name: Ann, phones: 1234567890", s').
Proof.
  exact (add_contact_then_show_phone empty_state "Ann" "1234567890" [] []
           eq_refl eq_refl).
Defined.

(** ** [parse_input] *)

Lemma split_ws_tokens l : forall tok,
  Forall (fun c => is_space c = false) tok ->
  Forall (fun w => w <> [] /\ Forall (fun c => is_space c = false) w)
    (split_ws tok l).
Proof.
  induction l as [| c l IH]; intros tok Htok; simpl.
  - destruct tok; [constructor |].
    constructor; [| constructor]. split; [discriminate | exact Htok].
  - destruct (is_space c) eqn:Ec.
    + destruct tok as [| t tok]; [apply IH; constructor |].
      constructor; [split; [discriminate | exact Htok] | apply IH; constructor].
    + apply IH. apply Forall_app. split; [exact Htok |].
      repeat constructor. exact Ec.
Qed.

Lemma split_ws_nil l : forall tok,
  split_ws tok l = [] <-> tok = [] /\ Forall (fun c => is_space c = true) l.
Proof.
  induction l as [| c l IH]; intros tok; simpl.
  - destruct tok; split; try discriminate; auto.
    intros [H _]. discriminate.
  - destruct (is_space c) eqn:Ec.
    + destruct tok as [| t tok].
      * rewrite IH. split; intros [? H]; split; auto.
        now apply Forall_cons in H.
      * split; [discriminate | intros [H _]; discriminate].
    + rewrite IH. split.
      * intros [H _]. destruct tok; discriminate.
      * intros [_ H]. apply Forall_cons in H as [H _]. congruence.
Qed.

Lemma split_ws_word w : forall tok l,
  Forall (fun c => is_space c = false) w ->
  split_ws tok (w ++ l) = split_ws (tok ++ w) l.
Proof.
  induction w as [| c w IH]; intros tok l Hw; simpl.
  - now rewrite app_nil_r.
  - apply Forall_cons in Hw as [Hc Hw]. rewrite Hc.
    rewrite IH by exact Hw. now rewrite <- app_assoc.
Qed.

Lemma str_inj l1 l2 : str l1 = str l2 -> l1 = l2.
Proof.
  intros H. apply (f_equal chars) in H. now rewrite !chars_str in H.
Qed.

Lemma token_chars t : token t -> chars t <> [].
Proof.
  intros [Hne _] H. apply Hne. apply chars_inj. now rewrite H.
Qed.

Lemma parse_input_blank line :
  parse_input line = Raise IndexError
  <-> Forall (fun c => is_space c = true) (chars line).
Proof.
  unfold parse_input, split.
  destruct (split_ws [] (chars line)) as [| w ws] eqn:E; simpl.
  - apply split_ws_nil in E as [_ H]. tauto.
  - split; [discriminate |]. intros H.
    assert (Hn : split_ws [] (chars line) = [])
      by (apply split_ws_nil; auto).
    congruence.
Qed.

Lemma parse_input_tokens line command args :
  parse_input line = Ok (command, args) -> Forall token (command :: args).
Proof.
  unfold parse_input, split. intros H.
  pose proof (split_ws_tokens (chars line) [] (List.Forall_nil _)) as Ht.
  destruct (split_ws [] (chars line)) as [| w ws]; [discriminate |].
  simpl in H. injection H as <- <-.
  change (Forall token (map str (w :: ws))).
  apply Forall_map. eapply Forall_impl; [exact Ht |].
  intros x [Hne Hx]. simpl. split.
  - intros Hs. apply Hne. apply str_inj. exact Hs.
  - now rewrite chars_str.
Qed.

Lemma parse_input_Raise line e : parse_input line = Raise e -> e = IndexError.
Proof.
  unfold parse_input. destruct (split line); [now intros [= <-] | discriminate].
Qed.

(** X15: [parse_input] raises [IndexError] exactly for the lines that
    hold white space only, the empty line among them; when it returns,
    the command and every argument are tokens: not empty, and free of
    white space. *)
Theorem parse_input_spec line :
  (parse_input line = Raise IndexError
   <-> Forall (fun c => is_space c = true) (chars line))
  /\ (forall command args,
        parse_input line = Ok (command, args) ->
        Forall token (command :: args)).
Proof.
  split; [apply parse_input_blank | apply parse_input_tokens].
Qed.

Lemma chars_join_cons x y tl :
  chars (join " " (x :: y :: tl))
  = (chars x ++ " "%char :: chars (join " " (y :: tl)))%list.
Proof.
  change (join " " (x :: y :: tl)) with (x ++ " " ++ join " " (y :: tl)).
  now rewrite chars_app.
Qed.

Lemma split_ws_blank tok l :
  tok <> [] -> split_ws tok (" "%char :: l) = tok :: split_ws [] l.
Proof. intros H. simpl. now destruct tok. Qed.

Lemma split_ws_join ts :
  Forall token ts ->
  split_ws [] (chars (join " " ts)) = map chars ts.
Proof.
  induction 1 as [| t ts Ht Hts IH]; [reflexivity |].
  pose proof (token_chars t Ht) as Hne. destruct Ht as [_ Hws].
  destruct ts as [| t' ts].
  - simpl. rewrite <- (app_nil_r (chars t)) at 1.
    rewrite split_ws_word by exact Hws. simpl.
    now destruct (chars t).
  - rewrite chars_join_cons, split_ws_word by exact Hws.
    rewrite app_nil_l, split_ws_blank by exact Hne.
    now rewrite IH.
Qed.

(** X16: a command and its arguments, all tokens, written on one line
    with single blanks between them, are what [parse_input] reads from
    that line. *)
Theorem parse_input_join command args :
  Forall token (command :: args) ->
  parse_input (join " " (command :: args)) = Ok (command, args).
Proof.
  intros H. unfold parse_input, split. rewrite (split_ws_join _ H).
  rewrite map_map. simpl. rewrite str_chars. f_equal. f_equal.
  rewrite <- (map_id args) at 2. apply map_ext. intros a. apply str_chars.
Qed.

Lemma parse_input_join_witness :
  parse_input (join " " ["add"; "Ann"; "1234567890"])
  = Ok ("add", ["Ann"; "1234567890"]).
Proof.
  apply parse_input_join.
  repeat constructor; try discriminate.
Defined.

(** ** No handler fails on a well-formed book *)

Lemma keyed_get s nm l :
  keyed s -> dict_get nm (data s) = Some l ->
  exists r, heap s !! l = Some r /\ value (name r) = nm.
Proof. intros Hk Hg. apply dict_get_In in Hg. now apply Hk. Qed.

Lemma add_phone_answers s l r phone :
  heap s !! l = Some r ->
  (exists s', add_phone l phone s = (Ok tt, s'))
  \/ add_phone l phone s = (Raise ValueError, s).
Proof.
  intros Hr. destruct (validate_phone phone) eqn:Hv.
  - left. eexists. exact (add_phone_valid s l r phone Hv Hr).
  - right. now apply add_phone_invalid_run.
Qed.

Lemma add_contact_answers s args :
  keyed s -> exists msg s', Handlers.add_contact args s = (Ok msg, s').
Proof.
  intros Hk. destruct args as [| nm [| phone more]];
    [do 2 eexists; reflexivity | do 2 eexists; reflexivity |].
  unfold Handlers.add_contact, Handlers.add_contact_func.
  destruct (dict_get nm (data s)) as [l |] eqn:Hg.
  - destruct (keyed_get s nm l Hk Hg) as (r & Hr & _).
    destruct (truthy phone) eqn:Ht.
    + destruct (add_phone_answers s l r phone Hr) as [[s' Ha] | Ha].
      * do 2 eexists. apply input_error_Ok.
        rewrite (bind_ok _ _ s (Some l) s) by (rewrite find_run; now rewrite Hg).
        rewrite (bind_ok _ _ s (l, "Contact updated.") s) by reflexivity.
        rewrite Ht. simpl fst. now rewrite (bind_ok _ _ _ tt _ Ha).
      * do 2 eexists. apply input_error_ValueError.
        rewrite (bind_ok _ _ s (Some l) s) by (rewrite find_run; now rewrite Hg).
        rewrite (bind_ok _ _ s (l, "Contact updated.") s) by reflexivity.
        rewrite Ht. simpl fst. apply bind_Raise; exact Ha.
    + do 2 eexists. apply input_error_Ok.
      rewrite (bind_ok _ _ s (Some l) s) by (rewrite find_run; now rewrite Hg).
      rewrite (bind_ok _ _ s (l, "Contact updated.") s) by reflexivity.
      rewrite Ht. reflexivity.
  - destruct (truthy phone) eqn:Ht.
    + destruct (add_phone_answers _ _ _ phone (with_new_contact_lookup s nm []))
        as [[s' Ha] | Ha].
      * do 2 eexists. apply input_error_Ok.
        rewrite (bind_ok _ _ s None s) by (rewrite find_run; now rewrite Hg).
        rewrite (bind_ok _ _ _ _ _ (create_contact_run s nm)).
        rewrite Ht. simpl fst. now rewrite (bind_ok _ _ _ tt _ Ha).
      * do 2 eexists. apply input_error_ValueError.
        rewrite (bind_ok _ _ s None s) by (rewrite find_run; now rewrite Hg).
        rewrite (bind_ok _ _ _ _ _ (create_contact_run s nm)).
        rewrite Ht. simpl fst. apply bind_Raise; exact Ha.
    + do 2 eexists. apply input_error_Ok.
      rewrite (bind_ok _ _ s None s) by (rewrite find_run; now rewrite Hg).
      rewrite (bind_ok _ _ _ _ _ (create_contact_run s nm)).
      rewrite Ht. reflexivity.
Qed.

Lemma change_contact_answers s args :
  keyed s -> exists msg s', Handlers.change_contact args s = (Ok msg, s').
Proof.
  intros Hk. destruct args as [| nm [| phone more]];
    [do 2 eexists; reflexivity | do 2 eexists; reflexivity |].
  unfold Handlers.change_contact, Handlers.change_contact_func.
  destruct (dict_get nm (data s)) as [l |] eqn:Hg.
  - destruct (keyed_get s nm l Hk Hg) as (r & Hr & _).
    destruct (truthy phone) eqn:Ht.
    + destruct (add_phone_answers s l r phone Hr) as [[s' Ha] | Ha].
      * do 2 eexists. apply input_error_Ok.
        rewrite (bind_ok _ _ s (Some l) s) by (rewrite find_run; now rewrite Hg).
        rewrite Ht. now rewrite (bind_ok _ _ _ tt _ Ha).
      * do 2 eexists. apply input_error_ValueError.
        rewrite (bind_ok _ _ s (Some l) s) by (rewrite find_run; now rewrite Hg).
        rewrite Ht. apply bind_Raise; exact Ha.
    + do 2 eexists. apply input_error_Ok.
      rewrite (bind_ok _ _ s (Some l) s) by (rewrite find_run; now rewrite Hg).
      rewrite Ht. reflexivity.
  - do 2 eexists. apply input_error_Ok.
    now rewrite (bind_ok _ _ s None s) by (rewrite find_run; now rewrite Hg).
Qed.

Lemma show_phone_answers s args :
  keyed s -> exists msg s', show_phone args s = (Ok msg, s').
Proof.
  intros Hk. destruct args as [| nm more]; [do 2 eexists; reflexivity |].
  destruct (dict_get nm (data s)) as [l |] eqn:Hg.
  - destruct (keyed_get s nm l Hk Hg) as (r & Hr & _).
    do 2 eexists. now apply (show_phone_run s nm more l r).
  - do 2 eexists. apply input_error_Ok. unfold show_phone_func.
    now rewrite (bind_ok _ _ s false s)
      by (rewrite contains_run; now rewrite (dict_mem_get_None _ _ Hg)).
Qed.

Lemma show_birthday_answers s args :
  keyed s -> exists msg s', show_birthday args s = (Ok msg, s').
Proof.
  intros Hk. destruct args as [| nm more]; [do 2 eexists; reflexivity |].
  destruct (dict_get nm (data s)) as [l |] eqn:Hg.
  - destruct (keyed_get s nm l Hk Hg) as (r & Hr & _).
    do 2 eexists. now apply (show_birthday_run s nm more l r).
  - do 2 eexists. apply input_error_Ok. unfold show_birthday_func.
    now rewrite (bind_ok _ _ s false s)
      by (rewrite contains_run; now rewrite (dict_mem_get_None _ _ Hg)).
Qed.

(** A loop over the elements that reads the state and succeeds on each. *)
Lemma for_each_run {A B} (f : A -> M B) (g : A -> B) xs s :
  (forall x, In x xs -> f x s = (Ok (g x), s)) ->
  for_each f xs s = (Ok (map g xs), s).
Proof.
  induction xs as [| x xs IH]; intros H; [reflexivity |].
  rewrite for_each_cons, (H x (or_introl eq_refl)).
  rewrite IH by (intros y Hy; apply H; now right). reflexivity.
Qed.

(** The text of the record behind a reference; the empty text stands for
    a reference that leads nowhere. *)
Lemma str_of_all s ls :
  (forall l, In l ls -> is_Some (heap s !! l)) ->
  exists txts, for_each str_of ls s = (Ok txts, s).
Proof.
  intros H. eexists.
  apply (for_each_run str_of
           (fun l => match heap s !! l with
                     | Some r => Record_str r
                     | None => ""
                     end)).
  intros l Hl. destruct (H l Hl) as [r Hr]. rewrite Hr.
  now apply str_of_run.
Qed.

Lemma show_all_answers s args :
  keyed s -> exists msg s', show_all args s = (Ok msg, s').
Proof.
  intros Hk. unfold show_all.
  destruct (negb (length (data s) =? 0)%nat) eqn:E;
    do 2 eexists; apply input_error_Ok; unfold show_all_func;
    rewrite (bind_ok _ _ s (data s) s) by reflexivity; rewrite E;
    [| reflexivity].
  erewrite bind_ok; [reflexivity |].
  apply (for_each_run _
           (fun kv => fst kv ++ " - "
                      ++ match heap s !! snd kv with
                         | Some r => Record_str r
                         | None => ""
                         end)).
  intros [k l] Hin. destruct (Hk k l Hin) as (r & Hr & _). simpl.
  rewrite Hr. now rewrite (bind_ok _ _ s _ s (str_of_run s l r Hr)).
Qed.

Lemma birthdays_answers s now args :
  keyed s -> valid_date now = true -> toordinal now + 7 <= _MAXORDINAL ->
  exists msg s', birthdays now args s = (Ok msg, s').
Proof.
  intros Hk Hv Hmax. pose proof (toordinal_pos now Hv) as Hpos.
  pose proof (upcoming_dates_ok now ltac:(lia) Hmax) as Hd.
  pose proof (get_upcoming_birthdays_run s now _ Hk Hd) as Hrun.
  set (ls := List.filter _ _) in Hrun.
  assert (Hall : forall l0, In l0 ls -> is_Some (heap s !! l0)).
  { intros l0 Hl0. apply filter_In in Hl0 as [Hin _].
    apply in_map_iff in Hin as ([k l1] & <- & Hin).
    destruct (Hk _ _ Hin) as (r & Hr & _). now exists r. }
  destruct (str_of_all s ls Hall) as [txts Ht].
  clearbody ls. unfold birthdays.
  destruct ls as [| l ls']; do 2 eexists; apply input_error_Ok;
    unfold birthdays_func; rewrite (bind_ok _ _ s _ s Hrun);
    [reflexivity |].
  now rewrite (bind_ok _ _ s txts s Ht).
Qed.

(** ** One turn of the command loop *)

Lemma printed_Ok (m : M string) s msg s' :
  m s = (Ok msg, s') -> printed m s = (Ok (Printed msg), s').
Proof. intros H. unfold printed, bind. now rewrite H. Qed.

Lemma printed_Raise (m : M string) s e s' :
  m s = (Raise e, s') -> printed m s = (Raise e, s').
Proof. intros H. unfold printed, bind. now rewrite H. Qed.

Lemma printed_snd (m : M string) s : snd (printed m s) = snd (m s).
Proof. unfold printed, bind. now destruct (m s) as [[msg | e] s']. Qed.

Lemma main_step_parsed now line s command args :
  parse_input line = Ok (command, args) ->
  main_step now line s =
    (if String.eqb command "hello" then ret (Printed welcome)
     else if String.eqb command "add"
          then printed (Handlers.add_contact args)
     else if String.eqb command "change"
          then printed (Handlers.change_contact args)
     else if String.eqb command "phone" then printed (show_phone args)
     else if String.eqb command "all" then printed (show_all args)
     else if String.eqb command "close" || String.eqb command "exit"
          then ret (Bye "Good bye!")
     else if String.eqb command "add_birthday"
          then printed (Handlers.add_birthday args)
     else if String.eqb command "show_birthday"
          then printed (show_birthday args)
     else if String.eqb command "birthdays" then printed (birthdays now args)
     else ret (Printed ("Unknown command: " ++ command))) s.
Proof.
  intros H. unfold main_step.
  now rewrite (bind_ok _ _ s (command, args) s) by (unfold lift; now rewrite H).
Qed.

(** X17: a line that is empty or holds white space only ends the turn,
    and with it the loop, by an [IndexError]: [parse_input] runs outside
    every handler and nothing catches what it raises.  The state is
    untouched. *)
Theorem main_step_blank now line s :
  Forall (fun c => is_space c = true) (chars line) ->
  main_step now line s = (Raise IndexError, s).
Proof.
  intros H. apply parse_input_blank in H. unfold main_step.
  apply bind_Raise. unfold lift. now rewrite H.
Qed.

Lemma main_step_blank_witness :
  main_step (MkDate 2024 1 1) "   " empty_state
  = (Raise IndexError, empty_state).
Proof.
  apply main_step_blank. repeat constructor.
Defined.

Lemma upcoming_dates_overflow today :
  valid_date today = true -> _MAXORDINAL < toordinal today + 7 ->
  upcoming_dates today = Raise OverflowError.
Proof.
  intros Hv Hmax. pose proof (toordinal_pos today Hv) as Hpos.
  unfold upcoming_dates. cbn [fold_right].
  assert (Hadd : forall i, 1 <= i ->
            add_days today i
            = if toordinal today + i <=? _MAXORDINAL
              then Ok (fromordinal (toordinal today + i))
              else Raise OverflowError).
  { intros i Hi. unfold add_days.
    replace (0 <? toordinal today + i) with true
      by (symmetry; apply Z.ltb_lt; lia).
    reflexivity. }
  rewrite !Hadd by lia.
  replace (toordinal today + 7 <=? _MAXORDINAL) with false
    by (symmetry; apply Z.leb_gt; lia).
  repeat match goal with
         | |- context [if ?b then _ else _] => destruct b
         end; reflexivity.
Qed.

Lemma birthdays_overflow s now args :
  valid_date now = true -> _MAXORDINAL < toordinal now + 7 ->
  birthdays now args s = (Raise OverflowError, s).
Proof.
  intros Hv Hmax. unfold birthdays, input_error, birthdays_func.
  rewrite (bind_Raise _ _ s OverflowError s); [reflexivity |].
  unfold get_upcoming_birthdays. apply bind_Raise. unfold lift.
  now rewrite upcoming_dates_overflow.
Qed.

Lemma keyed_read_only {A} (m : M A) s :
  reads_only m -> keyed s -> keyed (snd (m s)).
Proof. intros H Hk. now rewrite H. Qed.

(** X18: what a turn of the loop can come to, on a book that is keyed and
    with a clock that shows a date.  Either the turn ends normally, and
    the book is keyed again; or the line was blank and the turn ends by an
    [IndexError]; or the command was [birthdays], the clock is within the
    last week of the year 9999, and the turn ends by an [OverflowError].
    The two failures leave the state untouched. *)
Theorem main_step_outcomes now line s :
  keyed s ->
  valid_date now = true ->
  (exists o s', main_step now line s = (Ok o, s') /\ keyed s')
  \/ (main_step now line s = (Raise IndexError, s)
      /\ Forall (fun c => is_space c = true) (chars line))
  \/ (main_step now line s = (Raise OverflowError, s)
      /\ (exists args, parse_input line = Ok ("birthdays", args))
      /\ _MAXORDINAL < toordinal now + 7).
Proof.
  intros Hk Hv.
  destruct (parse_input line) as [[command args] | e] eqn:Ep.
  - rewrite (main_step_parsed _ _ _ _ _ Ep).
    destruct (String.eqb_spec command "hello");
      [left; do 2 eexists; split; [reflexivity | exact Hk] |].
    destruct (String.eqb_spec command "add").
    { left. destruct (add_contact_answers s args Hk) as (msg & s' & Ha).
      exists (Printed msg), s'. split; [now apply printed_Ok |].
      change s' with (snd (Ok msg, s')). rewrite <- Ha.
      now apply (proj1 (keyed_handlers args)). }
    destruct (String.eqb_spec command "change").
    { left. destruct (change_contact_answers s args Hk) as (msg & s' & Ha).
      exists (Printed msg), s'. split; [now apply printed_Ok |].
      change s' with (snd (Ok msg, s')). rewrite <- Ha.
      now apply (proj1 (proj2 (keyed_handlers args))). }
    destruct (String.eqb_spec command "phone").
    { left. destruct (show_phone_answers s args Hk) as (msg & s' & Ha).
      exists (Printed msg), s'. split; [now apply printed_Ok |].
      change s' with (snd (Ok msg, s')). rewrite <- Ha.
      apply keyed_read_only; [apply reads_only_show_phone | exact Hk]. }
    destruct (String.eqb_spec command "all").
    { left. destruct (show_all_answers s args Hk) as (msg & s' & Ha).
      exists (Printed msg), s'. split; [now apply printed_Ok |].
      change s' with (snd (Ok msg, s')). rewrite <- Ha.
      apply keyed_read_only; [apply reads_only_show_all | exact Hk]. }
    destruct (String.eqb command "close" || String.eqb command "exit");
      [left; do 2 eexists; split; [reflexivity | exact Hk] |].
    destruct (String.eqb_spec command "add_birthday").
    { left. destruct (add_birthday_total s args Hk) as (msg & s' & Ha).
      exists (Printed msg), s'. split; [now apply printed_Ok |].
      change s' with (snd (Ok msg, s')). rewrite <- Ha.
      now apply (proj2 (proj2 (keyed_handlers args))). }
    destruct (String.eqb_spec command "show_birthday").
    { left. destruct (show_birthday_answers s args Hk) as (msg & s' & Ha).
      exists (Printed msg), s'. split; [now apply printed_Ok |].
      change s' with (snd (Ok msg, s')). rewrite <- Ha.
      apply keyed_read_only; [apply reads_only_show_birthday | exact Hk]. }
    destruct (String.eqb_spec command "birthdays") as [-> | Hne];
      [| left; do 2 eexists; split; [reflexivity | exact Hk]].
    destruct (Z.le_gt_cases (toordinal now + 7) _MAXORDINAL) as [Hin | Hout].
    + left. destruct (birthdays_answers s now args Hk Hv Hin)
        as (msg & s' & Ha).
      exists (Printed msg), s'. split; [now apply printed_Ok |].
      change s' with (snd (Ok msg, s')). rewrite <- Ha.
      apply keyed_read_only; [apply reads_only_birthdays | exact Hk].
    + right. right. split; [| split; [now exists args | exact Hout]].
      apply printed_Raise. now apply birthdays_overflow.
  - right. left. pose proof (parse_input_Raise _ _ Ep) as ->.
    split; [| now apply parse_input_blank].
    unfold main_step. apply bind_Raise. unfold lift. now rewrite Ep.
Qed.

Lemma main_step_outcomes_witness :
  exists o s',
    main_step (MkDate 2024 1 1) "add Ann 1234567890" empty_state = (Ok o, s')
    /\ keyed s'.
Proof.
  destruct (main_step_outcomes (MkDate 2024 1 1) "add Ann 1234567890"
              empty_state keyed_empty eq_refl)
    as [H | [[H _] | [H _]]]; [exact H | discriminate H | discriminate H].
Defined.

Lemma main_step_state now line s command args :
  parse_input line = Ok (command, args) ->
  snd (main_step now line s)
  = if String.eqb command "add" then snd (Handlers.add_contact args s)
    else if String.eqb command "change"
         then snd (Handlers.change_contact args s)
    else if String.eqb command "add_birthday"
         then snd (Handlers.add_birthday args s)
    else s.
Proof.
  intros Ep. rewrite (main_step_parsed _ _ _ _ _ Ep).
  destruct (String.eqb_spec command "hello") as [-> | _]; [reflexivity |].
  destruct (String.eqb_spec command "add"); [apply printed_snd |].
  destruct (String.eqb_spec command "change"); [apply printed_snd |].
  destruct (String.eqb_spec command "phone") as [-> | _];
    [rewrite printed_snd; apply reads_only_show_phone |].
  destruct (String.eqb_spec command "all") as [-> | _];
    [rewrite printed_snd; apply reads_only_show_all |].
  destruct (String.eqb_spec command "close") as [-> | _]; [reflexivity |].
  destruct (String.eqb_spec command "exit") as [-> | _]; [reflexivity |].
  cbn [orb].
  destruct (String.eqb_spec command "add_birthday"); [apply printed_snd |].
  destruct (String.eqb_spec command "show_birthday") as [-> | _];
    [rewrite printed_snd; apply reads_only_show_birthday |].
  destruct (String.eqb_spec command "birthdays") as [-> | _];
    [rewrite printed_snd; apply reads_only_birthdays | reflexivity].
Qed.

(** X19: only three commands write.  When the first token of the line is
    none of [add], [change] and [add_birthday], the turn leaves the state
    exactly as it was, whatever it prints and whether or not it fails. *)
Theorem main_step_writes now line s command args :
  parse_input line = Ok (command, args) ->
  command <> "add" -> command <> "change" -> command <> "add_birthday" ->
  snd (main_step now line s) = s.
Proof.
  intros Ep H1 H2 H3. rewrite (main_step_state _ _ _ _ _ Ep).
  destruct (String.eqb_spec command "add"); [contradiction |].
  destruct (String.eqb_spec command "change"); [contradiction |].
  destruct (String.eqb_spec command "add_birthday");
    [contradiction | reflexivity].
Qed.

Lemma main_step_writes_witness :
  let s := MkState [MkRecord (MkField "Ann") [] None] [("Ann", 0%nat)] in
  snd (main_step (MkDate 2024 1 1) "phone Ann" s) = s.
Proof.
  intros s.
  apply (main_step_writes _ _ s "phone" ["Ann"]);
    [reflexivity | discriminate | discriminate | discriminate].
Defined.

(** ** What a session keeps *)

(** A token that [validate_phone] accepts has ten characters: the line
    feed the pattern lets through after them is white space, and no token
    holds one. *)
Lemma validate_phone_token phone :
  validate_phone phone = true -> token phone -> ten_digits phone.
Proof.
  intros Hv [_ Hws].
  apply validate_phone_true in Hv as (ds & tl & Hs & Hlen & Hd & [-> | ->]).
  - rewrite app_nil_r in Hs. unfold ten_digits. now rewrite Hs.
  - exfalso. rewrite Hs in Hws. apply Forall_app in Hws as [_ Hn].
    apply Forall_cons in Hn as [Hn _]. vm_compute in Hn. discriminate Hn.
Qed.

Lemma stored_phone_token phone :
  validate_phone phone = true -> token phone -> stored_phone (MkField phone).
Proof.
  intros Hv Ht. split; [exact Hv |]. simpl.
  rewrite <- length_chars. exact (proj1 (validate_phone_token phone Hv Ht)).
Qed.

Lemma stored_ok_empty : stored_ok empty_state.
Proof. intros l r H. simpl in H. rewrite lookup_nil in H. discriminate H. Qed.

Lemma stored_ok_assign s l r r' :
  stored_ok s -> heap s !! l = Some r ->
  name r' = name r ->
  Forall stored_phone (phones r') ->
  (forall b, birthday r' = Some b -> exists dt, strptime (value b) = Ok dt) ->
  stored_ok (MkState (<[l := r']> (heap s)) (data s)).
Proof.
  intros Hs Hr Hn Hp Hb l0 r0 H0. simpl in *.
  destruct (decide (l0 = l)) as [-> | Hne].
  - rewrite list_lookup_insert_eq in H0 by (eapply lookup_lt_Some; eauto).
    injection H0 as <-.
    split; [exact Hp | split; [exact Hb |]].
    rewrite Hn. apply (Hs l r Hr).
  - rewrite list_lookup_insert_ne in H0 by congruence. apply (Hs l0 r0 H0).
Qed.

Lemma stored_ok_new_contact s nm ps :
  stored_ok s -> dict_get nm (data s) = None ->
  Forall stored_phone ps ->
  stored_ok (with_new_contact s nm ps).
Proof.
  intros Hs Hg Hp l r H. unfold with_new_contact in *. simpl in *.
  apply lookup_app_Some in H as [H | [Hlen H]].
  - destruct (Hs l r H) as (H1 & H2 & H3).
    split; [exact H1 | split; [exact H2 |]].
    rewrite dict_set_get_other; [exact H3 |].
    intros E. rewrite E in H3. congruence.
  - destruct (l - length (heap s))%nat as [| n] eqn:E; [| discriminate H].
    simpl in H. injection H as <-. simpl.
    split; [exact Hp | split; [discriminate |]].
    rewrite dict_set_get_same. f_equal. lia.
Qed.

Lemma stored_ok_add_phone s l r phone :
  stored_ok s -> heap s !! l = Some r -> token phone ->
  stored_ok (snd (add_phone l phone s)).
Proof.
  intros Hs Hr Ht. destruct (validate_phone phone) eqn:Hv.
  - rewrite (add_phone_valid s l r phone Hv Hr). simpl.
    destruct (Hs l r Hr) as (Hp & Hb & _).
    apply (stored_ok_assign s l r); auto.
    apply Forall_app. split; [exact Hp |].
    constructor; [| constructor]. now apply stored_phone_token.
  - now rewrite add_phone_invalid_run.
Qed.

Lemma input_error_snd {A} (func : A -> M string) args s :
  snd (input_error func args s) = snd (func args s).
Proof.
  unfold input_error. now destruct (func args s) as [[msg | []] s'].
Qed.

Lemma bind_ret_snd {A B} (m : M A) (b : B) s :
  snd ((m ;; ret b) s) = snd (m s).
Proof. unfold bind, ret. now destruct (m s) as [[a | e] s']. Qed.

Lemma stored_ok_add_contact s args :
  keyed s -> stored_ok s -> Forall token args ->
  stored_ok (snd (Handlers.add_contact args s)).
Proof.
  intros Hk Hs Ht. unfold Handlers.add_contact. rewrite input_error_snd.
  destruct args as [| nm [| phone more]]; [exact Hs | exact Hs |].
  assert (Hp : token phone).
  { apply Forall_cons in Ht as [_ Ht]. now apply Forall_cons in Ht as [Ht _]. }
  unfold Handlers.add_contact_func.
  rewrite (bind_ok _ _ s _ s (find_run nm s)).
  destruct (dict_get nm (data s)) as [l |] eqn:Hg.
  - destruct (keyed_get s nm l Hk Hg) as (r & Hr & _).
    rewrite (bind_ok _ _ s (l, "Contact updated.") s) by reflexivity.
    rewrite bind_ret_snd. simpl fst.
    destruct (truthy phone); [| exact Hs].
    now apply (stored_ok_add_phone s l r).
  - rewrite (bind_ok _ _ _ _ _ (create_contact_run s nm)).
    rewrite bind_ret_snd. simpl fst.
    assert (Hn : stored_ok (with_new_contact s nm []))
      by (apply stored_ok_new_contact; [exact Hs | exact Hg | constructor]).
    destruct (truthy phone); [| exact Hn].
    apply (stored_ok_add_phone _ _ _ phone Hn
             (with_new_contact_lookup s nm []) Hp).
Qed.

Lemma stored_ok_change_contact s args :
  keyed s -> stored_ok s -> Forall token args ->
  stored_ok (snd (Handlers.change_contact args s)).
Proof.
  intros Hk Hs Ht. unfold Handlers.change_contact. rewrite input_error_snd.
  destruct args as [| nm [| phone more]]; [exact Hs | exact Hs |].
  assert (Hp : token phone).
  { apply Forall_cons in Ht as [_ Ht]. now apply Forall_cons in Ht as [Ht _]. }
  unfold Handlers.change_contact_func.
  rewrite (bind_ok _ _ s _ s (find_run nm s)).
  destruct (dict_get nm (data s)) as [l |] eqn:Hg; [| exact Hs].
  destruct (keyed_get s nm l Hk Hg) as (r & Hr & _).
  rewrite bind_ret_snd.
  destruct (truthy phone); [| exact Hs].
  now apply (stored_ok_add_phone s l r).
Qed.

Lemma stored_ok_add_birthday s args :
  keyed s -> stored_ok s ->
  stored_ok (snd (Handlers.add_birthday args s)).
Proof.
  intros Hk Hs. unfold Handlers.add_birthday. rewrite input_error_snd.
  destruct args as [| nm [| bd [| x more]]]; try exact Hs.
  unfold Handlers.add_birthday_func.
  rewrite (bind_ok _ _ s _ s (contains_run nm s)).
  destruct (dict_get nm (data s)) as [l |] eqn:Hg.
  - rewrite (dict_mem_get _ _ _ Hg).
    rewrite (bind_ok _ _ s l s) by now apply getitem_run.
    rewrite bind_ret_snd.
    destruct (keyed_get s nm l Hk Hg) as (r & Hr & _).
    destruct (Birthday_init bd) as [b | e] eqn:Eb.
    + rewrite (add_birthday_valid_run s l r bd Hr) by now rewrite Eb.
      simpl. destruct (Hs l r Hr) as (Hp & _ & _).
      apply (stored_ok_assign s l r); auto.
      simpl. intros b' [= <-]. simpl.
      now apply Birthday_init_Ok_iff in Eb as [_ Hdt].
    + unfold add_birthday, bind, lift. now rewrite Eb.
  - now rewrite (dict_mem_get_None _ _ Hg).
Qed.

Lemma dict_ok_add_contact s args :
  dict_ok (data s) -> dict_ok (data (snd (Handlers.add_contact args s))).
Proof.
  intros Hd. unfold Handlers.add_contact. rewrite input_error_snd.
  destruct args as [| nm [| phone more]]; [exact Hd | exact Hd |].
  unfold Handlers.add_contact_func.
  rewrite (bind_ok _ _ s _ s (find_run nm s)).
  destruct (dict_get nm (data s)) as [l |] eqn:Hg.
  - rewrite (bind_ok _ _ s (l, "Contact updated.") s) by reflexivity.
    rewrite bind_ret_snd. simpl fst.
    destruct (truthy phone); [| exact Hd].
    now apply (dict_ok_step (AddPhone l phone)).
  - rewrite (bind_ok _ _ _ _ _ (create_contact_run s nm)).
    rewrite bind_ret_snd. simpl fst.
    assert (Hn : dict_ok (data (with_new_contact s nm [])))
      by (simpl; now apply dict_set_ok).
    destruct (truthy phone); [| exact Hn].
    now apply (dict_ok_step (AddPhone (length (heap s)) phone)).
Qed.

Lemma dict_ok_change_contact s args :
  dict_ok (data s) -> dict_ok (data (snd (Handlers.change_contact args s))).
Proof.
  intros Hd. unfold Handlers.change_contact. rewrite input_error_snd.
  destruct args as [| nm [| phone more]]; [exact Hd | exact Hd |].
  unfold Handlers.change_contact_func.
  rewrite (bind_ok _ _ s _ s (find_run nm s)).
  destruct (dict_get nm (data s)) as [l |]; [| exact Hd].
  rewrite bind_ret_snd.
  destruct (truthy phone); [| exact Hd].
  now apply (dict_ok_step (AddPhone l phone)).
Qed.

Lemma dict_ok_add_birthday s args :
  dict_ok (data s) -> dict_ok (data (snd (Handlers.add_birthday args s))).
Proof.
  intros Hd. unfold Handlers.add_birthday. rewrite input_error_snd.
  destruct args as [| nm [| bd [| x more]]]; try exact Hd.
  unfold Handlers.add_birthday_func.
  rewrite (bind_ok _ _ s _ s (contains_run nm s)).
  destruct (dict_get nm (data s)) as [l |] eqn:Hg.
  - rewrite (dict_mem_get _ _ _ Hg).
    rewrite (bind_ok _ _ s l s) by now apply getitem_run.
    rewrite bind_ret_snd.
    now apply (dict_ok_step (AddBirthday l bd)).
  - now rewrite (dict_mem_get_None _ _ Hg).
Qed.

(** X20: what holds of the store all through a session of the command
    loop, whatever lines are typed.  Every key of the book leads to a
    record of that name, and no key is held twice; every record that was
    ever made is the entry of its own name; every phone in the store is a
    text of ten characters that [validate_phone] accepts, so never the
    text of eleven characters, a line feed at its end, that the pattern
    lets through; every birthday in the store is a text that [strptime]
    reads as a date. *)
Theorem session_invariant s :
  session s -> keyed s /\ dict_ok (data s) /\ stored_ok s.
Proof.
  induction 1 as [| now line s out s' _ (Hk & Hd & Hs) Hstep].
  - split; [exact keyed_empty |].
    split; [constructor | exact stored_ok_empty].
  - destruct (parse_input line) as [[command args] | e] eqn:Ep.
    + pose proof (parse_input_tokens _ _ _ Ep) as Ht.
      apply Forall_cons in Ht as [_ Ht].
      pose proof (main_step_state now line s command args Ep) as Hst.
      rewrite Hstep in Hst. simpl in Hst. subst s'.
      destruct (String.eqb command "add").
      { split; [now apply (proj1 (keyed_handlers args)) |].
        split; [now apply dict_ok_add_contact
               | now apply stored_ok_add_contact]. }
      destruct (String.eqb command "change").
      { split; [now apply (proj1 (proj2 (keyed_handlers args))) |].
        split; [now apply dict_ok_change_contact
               | now apply stored_ok_change_contact]. }
      destruct (String.eqb command "add_birthday"); [| auto].
      split; [now apply (proj2 (proj2 (keyed_handlers args))) |].
      split; [now apply dict_ok_add_birthday
             | now apply stored_ok_add_birthday].
    + exfalso. unfold main_step in Hstep.
      rewrite (bind_Raise _ _ s e s) in Hstep by (unfold lift; now rewrite Ep).
      discriminate Hstep.
Qed.

Lemma session_invariant_witness :
  let s := with_new_contact empty_state "Ann" [MkField "1234567890"] in
  session s /\ keyed s /\ dict_ok (data s) /\ stored_ok s.
Proof.
  intros s.
  assert (H : session s).
  { apply (session_turn (MkDate 2024 1 1) "add Ann 1234567890" empty_state
             "Contact added." s session_start).
    vm_compute. reflexivity. }
  split; [exact H | exact (session_invariant s H)].
Defined.

(** ** Which stored birthdays are announced *)

Lemma is_digit_digit_char k : 0 <= k <= 9 -> is_digit (digit_char k) = true.
Proof.
  intros Hk. pose proof (code_digit_char k Hk) as Hc.
  unfold is_digit, in_range. apply andb_true_iff.
  rewrite !N.leb_le. change (code "0") with 48%N. change (code "9") with 57%N.
  generalize dependent (code (digit_char k)). intros n Hn. lia.
Qed.

Lemma digit_char_not_dot k : 0 <= k <= 9 -> digit_char k <> dot.
Proof.
  intros Hk E. pose proof (code_digit_char k Hk) as Hc.
  rewrite E in Hc. change (Z.of_N (code dot)) with 46 in Hc. lia.
Qed.

Lemma digit_char_code c :
  is_digit c = true -> digit_char (Z.of_N (code c) - 48) = c.
Proof.
  intros H. apply in_range_bounds in H.
  change (Z.of_N (code "0")) with 48 in H.
  unfold digit_char, code in *.
  replace (48 + Z.to_N (Z.of_N (N_of_ascii c) - 48))%N with (N_of_ascii c)
    by lia.
  apply ascii_N_embedding.
Qed.

Lemma two_digits_num n : 0 <= n < 100 -> num (two_digits n) = n.
Proof.
  intros Hn. rewrite <- (two_digits_val_two_digits n Hn) at 2.
  unfold num, two_digits, two_digits_val. simpl. lia.
Qed.

Lemma two_digits_digits n :
  0 <= n < 100 -> Forall (fun c => is_digit c = true) (two_digits n).
Proof.
  intros Hn. unfold two_digits.
  repeat constructor; apply is_digit_digit_char.
  - Z.div_mod_to_equations. lia.
  - pose proof (Z.mod_pos_bound n 10). lia.
Qed.

Lemma py_int_two_digits n : 0 <= n < 100 -> py_int (two_digits n) = Ok n.
Proof.
  intros Hn. unfold two_digits.
  rewrite py_int_digits by exact (two_digits_digits n Hn).
  f_equal. exact (two_digits_num n Hn).
Qed.

Lemma four_digits_num a b c d :
  Forall (fun x => is_digit x = true) [a; b; c; d] ->
  four_digits (num [a; b; c; d]) = [a; b; c; d].
Proof.
  intros H.
  apply Forall_cons in H as [Ha H]. apply Forall_cons in H as [Hb H].
  apply Forall_cons in H as [Hc H]. apply Forall_cons in H as [Hd _].
  rewrite <- (digit_char_code a Ha) at 2. rewrite <- (digit_char_code b Hb) at 2.
  rewrite <- (digit_char_code c Hc) at 2. rewrite <- (digit_char_code d Hd) at 2.
  apply in_range_bounds in Ha, Hb, Hc, Hd.
  change (Z.of_N (code "0")) with 48 in *.
  change (Z.of_N (code "9")) with 57 in *.
  unfold four_digits, num. cbn [fold_left].
  generalize dependent (Z.of_N (code a)). intros xa Ha.
  generalize dependent (Z.of_N (code b)). intros xb Hb.
  generalize dependent (Z.of_N (code c)). intros xc Hc.
  generalize dependent (Z.of_N (code d)). intros xd Hd.
  repeat f_equal; Z.div_mod_to_equations; lia.
Qed.

(** The first five characters of the fixed-width text of a date are its
    ["DD.MM"] text. *)
Lemma slice_strftime_dmy dt : slice_to 5 (strftime_dmy dt) = strftime_dm dt.
Proof. unfold slice_to, strftime_dmy. rewrite chars_str. reflexivity. Qed.

(** A text that [strptime] reads and whose first five characters are a
    ["DD.MM"] text is the fixed-width text of its date, and the day and
    the month are those of the five characters. *)
Lemma accepted_prefix v dt d' :
  strptime v = Ok dt ->
  1 <= month d' <= 12 -> 1 <= day d' <= 31 ->
  slice_to 5 v = strftime_dm d' ->
  v = strftime_dmy dt /\ month d' = month dt /\ day d' = day dt.
Proof.
  intros Hs Hm Hd Hsl.
  apply strptime_Ok_iff in Hs
    as (wd & wm & wy & (Hc & Hfd & Hfm & Hfy) & Ed & Em & Ey & Hv).
  unfold slice_to, strftime_dm in Hsl. apply str_inj in Hsl.
  rewrite Hc in Hsl.
  assert (Hd1 : 0 <= day d' / 10 <= 9) by (Z.div_mod_to_equations; lia).
  assert (Hd2 : 0 <= day d' mod 10 <= 9)
    by (pose proof (Z.mod_pos_bound (day d') 10); lia).
  assert (Hm1 : 0 <= month d' / 10 <= 9) by (Z.div_mod_to_equations; lia).
  assert (Hm2 : 0 <= month d' mod 10 <= 9)
    by (pose proof (Z.mod_pos_bound (month d') 10); lia).
  unfold two_digits in Hsl.
  destruct wd as [| a [| b [| x wd]]]; try discriminate Hfd.
  { exfalso. simpl in Hsl. injection Hsl as _ E _.
    now apply (digit_char_not_dot (day d' mod 10) Hd2). }
  destruct wm as [| c [| d [| x wm]]]; try discriminate Hfm.
  { exfalso. simpl in Hsl. injection Hsl as _ _ _ E.
    now apply (digit_char_not_dot (month d' mod 10) Hm2). }
  destruct wy as [| e [| f [| g [| h [| x wy]]]]]; try discriminate Hfy.
  simpl in Hsl. injection Hsl as Ea Eb Ec Ed'.
  assert (Hday : [a; b] = two_digits (day d'))
    by (unfold two_digits; congruence).
  assert (Hmon : [c; d] = two_digits (month d'))
    by (unfold two_digits; congruence).
  clear Ea Eb Ec Ed'.
  assert (Hdd : day dt = day d').
  { rewrite Hday, py_int_two_digits in Ed by lia. congruence. }
  assert (Hmm : month dt = month d').
  { rewrite Hmon, py_int_two_digits in Em by lia. congruence. }
  assert (Hy : Forall (fun x => is_digit x = true) [e; f; g; h]).
  { cbn [y_form] in Hfy. rewrite !andb_true_iff in Hfy.
    destruct Hfy as [[[? ?] ?] ?]. repeat constructor; assumption. }
  assert (Hyy : four_digits (year dt) = [e; f; g; h]).
  { rewrite py_int_digits in Ey by exact Hy.
    injection Ey as <-. now apply four_digits_num. }
  split; [| split; congruence].
  apply chars_inj. rewrite Hc. unfold strftime_dmy. rewrite chars_str.
  rewrite Hdd, Hmm, <- Hday, <- Hmon, Hyy. reflexivity.
Qed.

Lemma day_after_bounds today i :
  valid_md today ->
  1 <= month (day_after today i) <= 12 /\ 1 <= day (day_after today i) <= 31.
Proof.
  intros Hv. rewrite <- (fromordinal_day_after today i Hv).
  destruct (fromordinal_spec (toordinal today + Z.of_nat i)) as (Hm & Hd & _).
  split; assumption.
Qed.

(** For a birthday that [strptime] reads: the record is in the window of
    the week ahead exactly when the text begins with the ["DD.MM"] text of
    its date and one of the seven days after [today] has the day and the
    month of that date. *)
Lemma in_window_accepted today r v dt :
  valid_md today ->
  birthday r = Some (MkField v) ->
  strptime v = Ok dt ->
  in_window today r
  <-> slice_to 5 v = strftime_dm dt
      /\ exists i, (1 <= i <= 7)%nat
                   /\ month (day_after today i) = month dt
                   /\ day (day_after today i) = day dt.
Proof.
  intros Hv Hb Hs. unfold in_window. rewrite Hb. split.
  - intros (b & i & [= <-] & Hi & Hsl). simpl in Hsl.
    destruct (day_after_bounds today i Hv) as [Hm Hd].
    destruct (accepted_prefix v dt _ Hs Hm Hd Hsl) as (Ev & Em & Ed).
    split; [| now exists i].
    rewrite Ev at 1. apply slice_strftime_dmy.
  - intros (Ev & i & Hi & Em & Ed). exists (MkField v), i.
    split; [reflexivity |]. split; [exact Hi |]. simpl.
    rewrite Ev. unfold strftime_dm. now rewrite Em, Ed.
Qed.

Lemma upcoming_member s today l r :
  keyed s -> valid_date today = true -> toordinal today + 7 <= _MAXORDINAL ->
  In l (dict_values (data s)) -> heap s !! l = Some r ->
  exists ls,
    get_upcoming_birthdays today s = (Ok ls, s)
    /\ (In l ls <-> in_window today r).
Proof.
  intros Hk Hv Hmax Hin Hr.
  pose proof (toordinal_pos today Hv) as Hpos.
  pose proof (upcoming_dates_ok today ltac:(lia) Hmax) as Hdates.
  eexists. split; [exact (get_upcoming_birthdays_run s today _ Hk Hdates) |].
  rewrite filter_In, Hr.
  rewrite (has_upcoming_in_window today r (valid_date_md today Hv)). tauto.
Qed.



(** Within four weeks the calendar stays in the year of [today] or has
    come to the January after it. *)
Lemma day_after_year today i :
  valid_md today -> (i <= 28)%nat ->
  year (day_after today i) = year today
  \/ (month (day_after today i) = 1
      /\ day (day_after today i) <= Z.of_nat i).
Proof.
  intros Hv. induction i as [| i IH]; intros Hi; [now left |].
  change (day_after today (S i)) with (next_day (day_after today i)).
  destruct (toordinal_day_after today i Hv) as [[Hm Hd] _].
  specialize (IH ltac:(lia)).
  destruct (day_after today i) as [y m d]. unfold next_day. simpl in *.
  destruct (Z.ltb_spec d (_days_in_month y m)) as [Hlt | Hge]; simpl.
  - destruct IH as [IH | [-> IH]]; [now left | right; lia].
  - destruct (Z.ltb_spec m 12) as [Hm12 | Hm12]; simpl.
    + destruct IH as [IH | [-> IH]]; [now left |].
      exfalso. change (_days_in_month y 1) with 31 in Hge. lia.
    + right. lia.
Qed.

(** X22: a birthday on 29 February is not announced in a year that has
    no such day.  For a record of the book whose birthday [strptime] reads
    as a 29 February, and a [today] in a year that is not a leap year,
    [get_upcoming_birthdays] does not return the record, also not on the
    days before 1 March. *)
Theorem leap_day_birthday_skipped s today l r v dt :
  keyed s ->
  valid_date today = true ->
  toordinal today + 7 <= _MAXORDINAL ->
  In l (dict_values (data s)) ->
  heap s !! l = Some r ->
  birthday r = Some (MkField v) ->
  strptime v = Ok dt ->
  month dt = 2 -> day dt = 29 ->
  _is_leap (year today) = false ->
  exists ls, get_upcoming_birthdays today s = (Ok ls, s) /\ ~ In l ls.
Proof.
  intros Hk Hv Hmax Hin Hr Hb Hs Hm Hd Hleap.
  pose proof (valid_date_md today Hv) as Hmd.
  destruct (upcoming_member s today l r Hk Hv Hmax Hin Hr) as (ls & Hrun & Hl).
  exists ls. split; [exact Hrun |]. rewrite Hl.
  rewrite (in_window_accepted today r v dt Hmd Hb Hs).
  intros (_ & i & Hi & Em & Ed).
  destruct (toordinal_day_after today i Hmd) as [[_ Hday] _].
  destruct (day_after_year today i Hmd ltac:(lia)) as [Hy | [Hjan _]];
    [| congruence].
  assert (H28 : _days_in_month (year today) 2 = 28)
    by (unfold _days_in_month; rewrite Hleap; reflexivity).
  rewrite Hy, Em, Hm, Ed, Hd, H28 in Hday. lia.
Qed.

Lemma leap_day_birthday_skipped_witness :
  let s := MkState [MkRecord (MkField "Ann") [] (Some (MkField "29.02.2000"))]
             [("Ann", 0%nat)] in
  exists ls,
    get_upcoming_birthdays (MkDate 2023 2 26) s = (Ok ls, s)
    /\ ~ In 0%nat ls.
Proof.
  intros s.
  assert (Hk : keyed s).
  { intros k l [[= <- <-] | []]. eexists. split; reflexivity. }
  apply (leap_day_birthday_skipped s (MkDate 2023 2 26) 0%nat
           (MkRecord (MkField "Ann") [] (Some (MkField "29.02.2000")))
           "29.02.2000" (MkDate 2000 2 29) Hk);
    [reflexivity | vm_compute; discriminate | now left
    | reflexivity | reflexivity | reflexivity | reflexivity | reflexivity
    | reflexivity].
Defined.

(** ** The two listings *)

Lemma for_each_Forall2 {A B} (f : A -> M B) (R : A -> B -> Prop) xs s :
  (forall x, In x xs -> exists y, f x s = (Ok y, s) /\ R x y) ->
  exists ys, for_each f xs s = (Ok ys, s) /\ Forall2 R xs ys.
Proof.
  induction xs as [| x xs IH]; intros H.
  - exists []. split; [reflexivity | constructor].
  - destruct (H x (or_introl eq_refl)) as (y & Hy & HR).
    destruct IH as (ys & Hys & HRs); [intros z Hz; apply H; now right |].
    exists (y :: ys). split; [| now constructor].
    rewrite for_each_cons, Hy, Hys. reflexivity.
Qed.



(** X24: [birthdays] on a keyed book, with a clock whose seventh day
    ahead exists.  It ignores its arguments and leaves the state as it
    is.  When [get_upcoming_birthdays] returns no record the answer is
    ["No upcoming birthdays in the next week."]; otherwise it is the
    heading and, line by line and in the order returned, the text of each
    record returned. *)
Theorem birthdays_spec s now args :
  keyed s ->
  valid_date now = true ->
  toordinal now + 7 <= _MAXORDINAL ->
  exists ls txts,
    get_upcoming_birthdays now s = (Ok ls, s)
    /\ Forall2 (fun l txt =>
                  exists r, heap s !! l = Some r /\ txt = Record_str r)
         ls txts
    /\ birthdays now args s
       = (Ok (match ls with
              | [] => "No upcoming birthdays in the next week."
              | _ :: _ => "Upcoming birthdays:" ++ nl ++ join nl txts
              end), s).
Proof.
  intros Hk Hv Hmax. pose proof (toordinal_pos now Hv) as Hpos.
  pose proof (upcoming_dates_ok now ltac:(lia) Hmax) as Hd.
  pose proof (get_upcoming_birthdays_run s now _ Hk Hd) as Hrun.
  set (ls := List.filter _ _) in Hrun.
  destruct (for_each_Forall2 str_of
              (fun l txt =>
                 exists r, heap s !! l = Some r /\ txt = Record_str r)
              ls s) as (txts & Ht & Hall).
  { intros l0 Hl0. apply filter_In in Hl0 as [Hin _].
    apply in_map_iff in Hin as ([k l1] & <- & Hin).
    destruct (Hk _ _ Hin) as (r & Hr & _). simpl.
    exists (Record_str r). split; [now apply str_of_run | now exists r]. }
  exists ls, txts. split; [exact Hrun |]. split; [exact Hall |].
  clearbody ls. apply input_error_Ok. unfold birthdays_func.
  rewrite (bind_ok _ _ s _ s Hrun).
  destruct ls as [| l ls']; [reflexivity |].
  now rewrite (bind_ok _ _ s txts s Ht).
Qed.

Lemma birthdays_spec_witness :
  let s := MkState [MkRecord (MkField "Ann") [] (Some (MkField "05.01.1990"))]
             [("Ann", 0%nat)] in
  exists ls txts,
    get_upcoming_birthdays (MkDate 2024 1 1) s = (Ok ls, s)
    /\ Forall2 (fun l txt =>
                  exists r, heap s !! l = Some r /\ txt = Record_str r)
         ls txts
    /\ birthdays (MkDate 2024 1 1) [] s
       = (Ok (match ls with
              | [] => "No upcoming birthdays in the next week."
              | _ :: _ => "Upcoming birthdays:" ++ nl ++ join nl txts
              end), s).
Proof.
  intros s. apply (birthdays_spec s (MkDate 2024 1 1) []);
    [| reflexivity | vm_compute; discriminate].
  intros k l [[= <- <-] | []]. eexists. split; reflexivity.
Defined.
